(** * directory_structure.py: capture, render and reconcile a directory tree

    A shallow embedding of [src/directory_structure.py] and the properties
    of its natural-language specification.

    Conventions of the model.
    - A Python [str] is the list of its code points ([pystr]); the bytes of
      a file are a list of integers in 0..255 ([bytes]).
    - Text files are opened as the script opens them: UTF-8 with the
      [errors] policy given at the call ([Strict] when none is given),
      universal newlines on reading, no newline translation on writing
      (POSIX, where [os.linesep] is a line feed).
    - The disk is a tree ([node]); a path is the list of entry names from
      the file-system root, the script's documented "absolute path".  A
      name stands for one path segment ([valid_name]).  Directory listing
      order is the order of the entries of a [Dir]; a new entry is listed
      last.  Symbolic links, permissions and special files are not
      modelled.
    - Effects are threaded through a state-and-exception monad [M] over a
      [world]: the disk, the trace of files opened for writing, and the
      records passed to [logging.info].
    - [json.dump] follows [_make_iterencode] of [json/encoder.py], the code
      that runs with [indent=4]; [json.load] follows [py_scanstring],
      [JSONObject], [JSONArray] and [py_make_scanner] of [json/decoder.py]
      and [json/scanner.py], which the C scanner mirrors.  A number is kept
      as the text of its literal ([VNum]); [int] refuses an integer of
      more than 4300 digits with [ValueError]; the recursion limit of the
      interpreter is not modelled.
    - [main] takes what [parse_args] returns ([arguments]) and returns what
      it prints. *)

From Stdlib Require Import List ZArith Lia Bool Ascii.

From Stdlib Require String.

Import String.StringSyntax.

Import ListNotations.

Local Open Scope Z_scope.

(** ** Python strings *)

Definition pystr := list Z.

Definition bytes := list Z.

(** A literal, written as a Rocq string of ASCII characters. *)
Definition lit (s : String.string) : pystr :=
  map (fun a => Z.of_N (N_of_ascii a)) (String.list_ascii_of_string s).

Arguments lit s%_string_scope.

Fixpoint str_eqb (a b : pystr) : bool :=
  match a, b with
  | [], [] => true
  | x :: a', y :: b' => (x =? y) && str_eqb a' b'
  | _, _ => false
  end.

Definition LF : Z := 10.

Definition CR : Z := 13.

(** [sep.join(parts)]. *)
Fixpoint str_join (sep : pystr) (parts : list pystr) : pystr :=
  match parts with
  | [] => []
  | [p] => p
  | p :: rest => p ++ sep ++ str_join sep rest
  end.

(** ** The UTF-8 codec, as [open(..., encoding='utf-8', errors=...)] uses it *)

Inductive errors := Strict | Ignore | Replace.

Definition is_continuation (b : Z) : bool := (0x80 <=? b) && (b <=? 0xBF).

(** Second byte of a three-byte sequence: E0 forbids overlong forms, ED
    forbids surrogates. *)
Definition second_of_3 (b0 b1 : Z) : bool :=
  is_continuation b1 &&
  (if b1 <? 0xA0 then negb (b0 =? 0xE0) else negb (b0 =? 0xED)).

(** Second byte of a four-byte sequence: F0 forbids overlong forms, F4
    forbids code points above U+10FFFF. *)
Definition second_of_4 (b0 b1 : Z) : bool :=
  is_continuation b1 &&
  (if b1 <? 0x90 then negb (b0 =? 0xF0) else negb (b0 =? 0xF4)).

(** What the error handler does with the rest of the decoding. *)
Definition on_error (e : errors) (k : option pystr) : option pystr :=
  match e with
  | Strict => None
  | Ignore => k
  | Replace => option_map (cons 0xFFFD) k
  end.

Definition emit (c : Z) (k : option pystr) : option pystr :=
  option_map (cons c) k.

(** [None] is [UnicodeDecodeError].  An invalid start byte is one error; a
    byte that fails as a continuation ends the error before it and is
    decoded again as a start byte; a sequence cut by the end of the input
    is one error. *)
Fixpoint utf8_decode (e : errors) (bs : bytes) : option pystr :=
  match bs with
  | [] => Some []
  | b0 :: r1 =>
    if b0 <? 0 then on_error e (utf8_decode e r1)
    else if b0 <? 0x80 then emit b0 (utf8_decode e r1)
    else if b0 <? 0xC2 then on_error e (utf8_decode e r1)
    else if b0 <? 0xE0 then
      match r1 with
      | [] => on_error e (Some [])
      | b1 :: r2 =>
        if is_continuation b1
        then emit ((b0 - 0xC0) * 64 + (b1 - 0x80)) (utf8_decode e r2)
        else on_error e (utf8_decode e r1)
      end
    else if b0 <? 0xF0 then
      match r1 with
      | [] => on_error e (Some [])
      | b1 :: r2 =>
        if second_of_3 b0 b1 then
          match r2 with
          | [] => on_error e (Some [])
          | b2 :: r3 =>
            if is_continuation b2
            then emit ((b0 - 0xE0) * 4096 + (b1 - 0x80) * 64 + (b2 - 0x80))
                      (utf8_decode e r3)
            else on_error e (utf8_decode e r2)
          end
        else on_error e (utf8_decode e r1)
      end
    else if b0 <? 0xF5 then
      match r1 with
      | [] => on_error e (Some [])
      | b1 :: r2 =>
        if second_of_4 b0 b1 then
          match r2 with
          | [] => on_error e (Some [])
          | b2 :: r3 =>
            if is_continuation b2 then
              match r3 with
              | [] => on_error e (Some [])
              | b3 :: r4 =>
                if is_continuation b3
                then emit ((b0 - 0xF0) * 262144 + (b1 - 0x80) * 4096
                           + (b2 - 0x80) * 64 + (b3 - 0x80))
                          (utf8_decode e r4)
                else on_error e (utf8_decode e r3)
              end
            else on_error e (utf8_decode e r2)
          end
        else on_error e (utf8_decode e r1)
      end
    else on_error e (utf8_decode e r1)
  end.

(** [None] is [UnicodeEncodeError]: surrogates cannot be encoded. *)
Definition utf8_encode_char (c : Z) : option bytes :=
  if c <? 0 then None
  else if c <? 0x80 then Some [c]
  else if c <? 0x800 then Some [0xC0 + c / 64; 0x80 + c mod 64]
  else if c <? 0x10000 then
    if (0xD800 <=? c) && (c <=? 0xDFFF) then None
    else Some [0xE0 + c / 4096; 0x80 + (c / 64) mod 64; 0x80 + c mod 64]
  else if c <? 0x110000 then
    Some [0xF0 + c / 262144; 0x80 + (c / 4096) mod 64;
          0x80 + (c / 64) mod 64; 0x80 + c mod 64]
  else None.

Fixpoint utf8_encode (s : pystr) : option bytes :=
  match s with
  | [] => Some []
  | c :: r =>
    match utf8_encode_char c, utf8_encode r with
    | Some a, Some b => Some (a ++ b)
    | _, _ => None
    end
  end.

(** ** Text mode *)

(** Universal newlines on reading: CR LF and a lone CR become LF. *)
Fixpoint translate_newlines (s : pystr) : pystr :=
  match s with
  | [] => []
  | c :: r =>
    if c =? CR then
      LF :: match r with
            | [] => []
            | d :: r' => if d =? LF then translate_newlines r'
                         else translate_newlines r
            end
    else c :: translate_newlines r
  end.

(** [open(p, 'r', encoding='utf-8', errors=e).read()] on the bytes of a file. *)
Definition read_text (e : errors) (b : bytes) : option pystr :=
  option_map translate_newlines (utf8_decode e b).

(** ** [str.splitlines] *)

Definition is_linebreak (c : Z) : bool :=
  (c =? 0x0A) || (c =? 0x0B) || (c =? 0x0C) || (c =? 0x0D) ||
  (c =? 0x1C) || (c =? 0x1D) || (c =? 0x1E) || (c =? 0x85) ||
  (c =? 0x2028) || (c =? 0x2029).

Fixpoint splitlines (s : pystr) : list pystr :=
  match s with
  | [] => []
  | c :: r =>
    if is_linebreak c then
      [] :: (if c =? CR
             then match r with
                  | [] => []
                  | d :: r' => if d =? LF then splitlines r' else splitlines r
                  end
             else splitlines r)
    else
      match splitlines r with
      | [] => [[c]]
      | line :: lines => (c :: line) :: lines
      end
  end.

(** ** Documents: the values of [json.load] and of [directory_to_dict] *)

#[warnings="-register-all"]
Inductive value :=
| VNone
| VBool (b : bool)
| VNum (literal : pystr)
| VStr (s : pystr)
| VList (elements : list value)
| VDict (items : list (pystr * value)).

(** [d[k] = v]: an existing key keeps its place, a new key goes last. *)
Fixpoint dict_set (d : list (pystr * value)) (k : pystr) (v : value)
  : list (pystr * value) :=
  match d with
  | [] => [(k, v)]
  | (k', v') :: d' =>
    if str_eqb k' k then (k', v) :: d' else (k', v') :: dict_set d' k v
  end.

(** [old_content != content], where [old_content] is a [str]. *)
Definition py_ne (old_content : pystr) (content : value) : bool :=
  match content with
  | VStr s => negb (str_eqb old_content s)
  | _ => true
  end.

(** ** The disk *)

Definition name := pystr.

Definition path := list name.

#[warnings="-register-all"]
Inductive node :=
| File (content : bytes)
| Dir (entries : list (name * node)).

Fixpoint find_entry (n : name) (es : list (name * node)) : option node :=
  match es with
  | [] => None
  | (m, x) :: es' => if str_eqb m n then Some x else find_entry n es'
  end.

Fixpoint set_entry (n : name) (x : node) (es : list (name * node))
  : list (name * node) :=
  match es with
  | [] => [(n, x)]
  | (m, y) :: es' =>
    if str_eqb m n then (m, x) :: es' else (m, y) :: set_entry n x es'
  end.

Inductive errno := ENOENT | ENOTDIR.

(** Path resolution from the root [t]. *)
Fixpoint stat (p : path) (t : node) : node + errno :=
  match p with
  | [] => inl t
  | n :: p' =>
    match t with
    | File _ => inr ENOTDIR
    | Dir es =>
      match find_entry n es with
      | Some c => stat p' c
      | None => inr ENOENT
      end
    end
  end.

(** Store [x] at [p]: the parent of [p] must be a directory; [x] replaces
    the entry at [p] or becomes the last entry of the parent. *)
Fixpoint put (p : path) (x : node) (t : node) : option node :=
  match p with
  | [] => Some x
  | n :: p' =>
    match t with
    | File _ => None
    | Dir es =>
      match find_entry n es with
      | Some c =>
        match put p' x c with
        | Some c' => Some (Dir (set_entry n c' es))
        | None => None
        end
      | None =>
        match p' with
        | [] => Some (Dir (es ++ [(n, x)]))
        | _ :: _ => None
        end
      end
    end
  end.

(** [os.path.join(p, n)] and [os.path.dirname(p)] on absolute paths. *)
Definition os_path_join (p : path) (n : name) : path := p ++ [n].

Definition os_path_dirname (p : path) : path := removelast p.

(** The text of an absolute path, as an f-string prints it. *)
Definition path_text (p : path) : pystr :=
  concat (map (fun n => lit "/" ++ n) p).

(** One path segment: not empty, not [.] or [..], no slash, no NUL. *)
Definition valid_name (n : name) : bool :=
  negb (str_eqb n []) && negb (str_eqb n (lit ".")) &&
  negb (str_eqb n (lit "..")) &&
  forallb (fun c => negb (c =? 47) && negb (c =? 0)) n.

(** ** Exceptions, state and the monad of the script's effects *)

Inductive exn :=
| FileNotFoundError | NotADirectoryError | IsADirectoryError
| FileExistsError | UnicodeDecodeError | UnicodeEncodeError
| TypeError | AttributeError | JSONDecodeError | ValueError.

Definition exn_eqb (a b : exn) : bool :=
  match a, b with
  | FileNotFoundError, FileNotFoundError
  | NotADirectoryError, NotADirectoryError
  | IsADirectoryError, IsADirectoryError
  | FileExistsError, FileExistsError
  | UnicodeDecodeError, UnicodeDecodeError
  | UnicodeEncodeError, UnicodeEncodeError
  | TypeError, TypeError
  | AttributeError, AttributeError
  | JSONDecodeError, JSONDecodeError
  | ValueError, ValueError => true
  | _, _ => false
  end.

(** The result of a call: a value or a raised exception. *)
Definition res (A : Type) : Type := A + exn.

(** The three messages of [update_or_create_file]. *)
Inductive record :=
| DirCreated (dir_name : path)
| FileUpdated (file_path : path) (old_lines new_lines : nat)
| FileCreated (file_path : path).

Record world := mkWorld {
  disk : node;
  writes : list path;       (* files opened with mode 'w', in order *)
  log : list record         (* [logging.info] calls, in order *)
}.

Definition M (A : Type) : Type := world -> res A * world.

Definition ret {A} (a : A) : M A := fun w => (inl a, w).

Definition raise {A} (e : exn) : M A := fun w => (inr e, w).

Definition bind {A B} (m : M A) (k : A -> M B) : M B :=
  fun w =>
    match m w with
    | (inl a, w') => k a w'
    | (inr e, w') => (inr e, w')
    end.

Declare Scope py_scope.

Delimit Scope py_scope with py.

Notation "x <- m ;; k" := (bind m (fun x => k))
  (at level 61, m at next level, right associativity) : py_scope.

Notation "m ;; k" := (bind m (fun _ => k))
  (at level 61, right associativity) : py_scope.

Local Open Scope py_scope.

(** [try: m  except e: pass]. *)
Definition try_except_pass (m : M unit) (e : exn) : M unit :=
  fun w =>
    match m w with
    | (inr e', w') => if exn_eqb e e' then (inl tt, w') else (inr e', w')
    | r => r
    end.

Definition set_disk (d : node) (w : world) : world :=
  mkWorld d (writes w) (log w).

Definition logging_info (r : record) : M unit :=
  fun w => (inl tt, mkWorld (disk w) (writes w) (log w ++ [r])).

Definition os_path_exists (p : path) : M bool :=
  fun w => (inl (match stat p (disk w) with inl _ => true | inr _ => false end), w).

Definition os_mkdir (p : path) : M unit :=
  fun w =>
    match stat p (disk w) with
    | inl _ => (inr FileExistsError, w)
    | inr ENOTDIR => (inr NotADirectoryError, w)
    | inr ENOENT =>
      match put p (Dir []) (disk w) with
      | Some d => (inl tt, set_disk d w)
      | None => (inr FileNotFoundError, w)
      end
    end.

(** [os.makedirs(name)] with [exist_ok=False], by recursion on the
    segments of [name] taken from the last one: [tail] is the last segment
    and [head] the path before it.  For an absolute path [head] is never
    the empty string, and [tail] is never [.]. *)
Fixpoint makedirs_from_last (rname : list name) : M unit :=
  match rname with
  | [] => os_mkdir []
  | tail :: rhead =>
    head_exists <- os_path_exists (rev rhead) ;;
    (if negb head_exists
     then try_except_pass (makedirs_from_last rhead) FileExistsError
     else ret tt) ;;
    os_mkdir (rev rname)
  end.

Definition os_makedirs (p : path) : M unit := makedirs_from_last (rev p).

(** [with open(p, 'r', encoding='utf-8', errors=e) as f: f.read()]. *)
Definition open_read (p : path) (e : errors) : M pystr :=
  fun w =>
    match stat p (disk w) with
    | inr ENOENT => (inr FileNotFoundError, w)
    | inr ENOTDIR => (inr NotADirectoryError, w)
    | inl (Dir _) => (inr IsADirectoryError, w)
    | inl (File b) =>
      match read_text e b with
      | Some s => (inl s, w)
      | None => (inr UnicodeDecodeError, w)
      end
    end.

(** [open(p, 'w', encoding='utf-8')]: creates the file or truncates it. *)
Definition open_w (p : path) : M unit :=
  fun w =>
    match stat p (disk w) with
    | inl (Dir _) => (inr IsADirectoryError, w)
    | inr ENOTDIR => (inr NotADirectoryError, w)
    | _ =>
      match put p (File []) (disk w) with
      | Some d => (inl tt, mkWorld d (writes w ++ [p]) (log w))
      | None => (inr FileNotFoundError, w)
      end
    end.

(** [f.write(content)] on the file opened at [p]: [TypeError] for a value
    that is not a [str], [UnicodeEncodeError] for a surrogate. *)
Definition f_write (p : path) (content : value) : M unit :=
  match content with
  | VStr s =>
    match utf8_encode s with
    | Some b =>
      fun w =>
        match stat p (disk w), put p (File b) (disk w) with
        | inl (File _), Some d => (inl tt, set_disk d w)
        | _, _ => (inr FileNotFoundError, w)
        end
    | None => raise UnicodeEncodeError
    end
  | _ => raise TypeError
  end.

(** [with open(p, 'w', encoding='utf-8') as f: f.write(content)]. *)
Definition open_write (p : path) (content : value) : M unit :=
  open_w p ;; f_write p content.

(** [len(content.splitlines())]. *)
Definition count_lines (content : value) : M nat :=
  match content with
  | VStr s => ret (length (splitlines s))
  | _ => raise AttributeError
  end.

(** ** The script *)

(** [load_exclusions(file_path)].  The file is opened with the locale's
    encoding, taken to be UTF-8, and strict errors. *)
Definition load_exclusions (file_path : path) : M (list pystr) :=
  file_exists <- os_path_exists file_path ;;
  if negb file_exists then ret []
  else
    text <- open_read file_path Strict ;;
    let exclusions := splitlines text in
    ret exclusions.

Section Capture.

(** [fnmatch.fnmatch(name, pattern)], the shell-style matcher of the
    standard library. *)
Variable fnmatch : pystr -> pystr -> bool.

(** [should_exclude(item, exclusions)]. *)
Definition should_exclude (item : name) (exclusions : list pystr) : bool :=
  existsb (fun pattern => fnmatch item pattern) exclusions.

(** The value [directory_to_dict] stores for an entry: for a directory the
    dictionary built by the loop over its listing, for a file its text read
    with [errors='ignore']. *)
Fixpoint capture_node (exclusions : list pystr) (t : node) : res value :=
  match t with
  | File content =>
    match read_text Ignore content with
    | Some text => inl (VStr text)
    | None => inr UnicodeDecodeError
    end
  | Dir entries =>
    match
      fold_left
        (fun (acc : res (list (pystr * value))) (entry : name * node) =>
           match acc with
           | inr e => inr e
           | inl result =>
             if should_exclude (fst entry) exclusions then inl result
             else
               match capture_node exclusions (snd entry) with
               | inl v => inl (dict_set result (fst entry) v)
               | inr e => inr e
               end
           end)
        entries (inl [])
    with
    | inl result => inl (VDict result)
    | inr e => inr e
    end
  end.

(** [directory_to_dict(path, exclusions)] on the disk [fs]:
    [os.listdir(path)] raises when [path] is not a directory. *)
Definition directory_to_dict (fs : node) (path : path)
           (exclusions : list pystr) : res value :=
  match stat path fs with
  | inl (Dir entries) => capture_node exclusions (Dir entries)
  | inl (File _) => inr NotADirectoryError
  | inr ENOENT => inr FileNotFoundError
  | inr ENOTDIR => inr NotADirectoryError
  end.

(** [Path(item_path).suffix]: the part of the last segment from its last
    dot, when that dot is neither its first nor its last character. *)
Fixpoint rfind_dot (s : pystr) : option nat :=
  match s with
  | [] => None
  | c :: r =>
    match rfind_dot r with
    | Some i => Some (S i)
    | None => if c =? 46 then Some 0%nat else None
    end
  end.

Definition path_suffix (item_path : path) : pystr :=
  let name := last item_path [] in
  match rfind_dot name with
  | Some i =>
    if (0 <? i)%nat && (i <? length name - 1)%nat then skipn i name else []
  | None => []
  end.

(** The two f-strings of [directory_to_markdown]. *)
Definition fence : pystr := lit "```".

Definition file_section (item_path : path) (file_content : pystr) : pystr :=
  if str_eqb (path_suffix item_path) (lit ".py")
  then lit "### " ++ path_text item_path ++ [LF] ++ fence ++ lit "python"
       ++ [LF] ++ file_content ++ [LF] ++ fence ++ [LF]
  else lit "### " ++ path_text item_path ++ [LF] ++ fence
       ++ [LF] ++ file_content ++ [LF] ++ fence ++ [LF].

(** The string [directory_to_markdown] appends for the entry at
    [item_path]: for a directory the joined list built by the loop over
    its listing, for a file its section. *)
Fixpoint markdown_node (exclusions : list pystr) (item_path : path)
         (t : node) : res pystr :=
  match t with
  | File content =>
    match read_text Ignore content with
    | Some file_content => inl (file_section item_path file_content)
    | None => inr UnicodeDecodeError
    end
  | Dir entries =>
    match
      fold_left
        (fun (acc : res (list pystr)) (entry : name * node) =>
           match acc with
           | inr e => inr e
           | inl markdown_content =>
             if should_exclude (fst entry) exclusions
             then inl markdown_content
             else
               match markdown_node exclusions
                       (os_path_join item_path (fst entry)) (snd entry) with
               | inl text => inl (markdown_content ++ [text])
               | inr e => inr e
               end
           end)
        entries (inl [])
    with
    | inl markdown_content => inl (str_join [LF] markdown_content)
    | inr e => inr e
    end
  end.

(** [directory_to_markdown(path, exclusions)] on the disk [fs]. *)
Definition directory_to_markdown (fs : node) (path : path)
           (exclusions : list pystr) : res pystr :=
  match stat path fs with
  | inl (Dir entries) => markdown_node exclusions path (Dir entries)
  | inl (File _) => inr NotADirectoryError
  | inr ENOENT => inr FileNotFoundError
  | inr ENOTDIR => inr NotADirectoryError
  end.

End Capture.

(** [update_or_create_file(file_path, content)], the first closure of
    [update_files_from_json]. *)
Definition update_or_create_file (file_path : path) (content : value)
  : M unit :=
  let dir_name := os_path_dirname file_path in
  dir_exists <- os_path_exists dir_name ;;
  (if negb dir_exists
   then os_makedirs dir_name ;; logging_info (DirCreated dir_name)
   else ret tt) ;;
  file_exists <- os_path_exists file_path ;;
  if file_exists then
    old_content <- open_read file_path Strict ;;
    if py_ne old_content content then
      open_write file_path content ;;
      let old_lines := length (splitlines old_content) in
      new_lines <- count_lines content ;;
      logging_info (FileUpdated file_path old_lines new_lines)
    else ret tt
  else
    open_write file_path content ;;
    logging_info (FileCreated file_path).

(** [recurse_structure(structure, current_path)], the second closure:
    [structure.items()] raises [AttributeError] on anything but a mapping. *)
Fixpoint recurse_structure (structure : value) (current_path : path)
  : M unit :=
  match structure with
  | VDict items =>
    (fix loop (items : list (pystr * value)) : M unit :=
       match items with
       | [] => ret tt
       | (name, content) :: rest =>
         let item_path := os_path_join current_path name in
         match content with
         | VDict _ => recurse_structure content item_path
         | _ => update_or_create_file item_path content
         end ;;
         loop rest
       end) items
  | _ => raise AttributeError
  end.

(** [update_files_from_json(directory_path, json_path)], given what
    [json.load] makes of the file at [json_path]: [None] when it is not
    JSON text. *)
Definition update_files_from_json (directory_path : path)
           (loaded : option value) : M unit :=
  match loaded with
  | None => raise JSONDecodeError
  | Some new_structure => recurse_structure new_structure directory_path
  end.

(** * The document file and the command line *)

(** ** [json.dump(structure, f, ensure_ascii=False, indent=4)] *)

Definition QUOTE : Z := 34.

Definition BACKSLASH : Z := 92.

Definition SPACE : Z := 32.

(** A lower-case hexadecimal digit. *)
Definition hex_digit (n : Z) : Z := if n <? 10 then 48 + n else 87 + n.

(** The replacement of [ESCAPE_DCT] for a character of a string: the
    quote, the backslash and the characters below U+0020. *)
Definition escape_char (c : Z) : pystr :=
  if c =? QUOTE then [BACKSLASH; QUOTE]
  else if c =? BACKSLASH then [BACKSLASH; BACKSLASH]
  else if c =? 10 then [BACKSLASH; 110]
  else if c =? 13 then [BACKSLASH; 114]
  else if c =? 9 then [BACKSLASH; 116]
  else if c =? 8 then [BACKSLASH; 98]
  else if c =? 12 then [BACKSLASH; 102]
  else if (0 <=? c) && (c <? 32)
       then [BACKSLASH; 117; 48; 48; hex_digit (c / 16); hex_digit (c mod 16)]
       else [c].

(** [encode_basestring(s)]: the string between quotes, escaped. *)
Definition encode_basestring (s : pystr) : pystr :=
  [QUOTE] ++ flat_map escape_char s ++ [QUOTE].

(** ['\n' + ' ' * 4 * level]. *)
Definition newline_indent (level : nat) : pystr :=
  LF :: repeat SPACE (4 * level).

(** The one chunk of a value that is neither a list nor a mapping. *)
Definition scalar_chunk (o : value) : option pystr :=
  match o with
  | VStr s => Some (encode_basestring s)
  | VNone => Some (lit "null")
  | VBool true => Some (lit "true")
  | VBool false => Some (lit "false")
  | VNum literal => Some literal
  | VList _ | VDict _ => None
  end.

(** The chunks that [_iterencode(o, level)] yields, in order.  A number is
    written as its literal. *)
Fixpoint iterencode (o : value) (level : nat) : list pystr :=
  match o with
  | VList [] => [lit "[]"]
  | VList lst =>
    (fix each (first : bool) (lst : list value) : list pystr :=
       match lst with
       | [] => []
       | value :: rest =>
         let buf := if first then lit "[" ++ newline_indent (S level)
                    else lit "," ++ newline_indent (S level) in
         match scalar_chunk value with
         | Some text => [buf ++ text]
         | None => buf :: iterencode value (S level)
         end ++ each false rest
       end) true lst
    ++ [newline_indent level; lit "]"]
  | VDict [] => [lit "{}"]
  | VDict dct =>
    [lit "{"; newline_indent (S level)]
    ++ (fix each (first : bool) (items : list (pystr * value))
          : list pystr :=
          match items with
          | [] => []
          | (key, value) :: rest =>
            (if first then [] else [lit "," ++ newline_indent (S level)])
            ++ [encode_basestring key; lit ": "]
            ++ iterencode value (S level)
            ++ each false rest
          end) true dct
    ++ [newline_indent level; lit "}"]
  | VStr s => [encode_basestring s]
  | VNone => [lit "null"]
  | VBool true => [lit "true"]
  | VBool false => [lit "false"]
  | VNum literal => [literal]
  end.

(** [json.dumps(o, ensure_ascii=False, indent=4)]. *)
Definition json_dumps (o : value) : pystr := concat (iterencode o 0).

(** [f.write(chunk)] on the file opened at [p], after what is written. *)
Definition f_write_chunk (p : path) (chunk : pystr) : M unit :=
  match utf8_encode chunk with
  | Some b =>
    fun w =>
      match stat p (disk w) with
      | inl (File written) =>
        match put p (File (written ++ b)) (disk w) with
        | Some d => (inl tt, set_disk d w)
        | None => (inr FileNotFoundError, w)
        end
      | _ => (inr FileNotFoundError, w)
      end
  | None => raise UnicodeEncodeError
  end.

(** [for chunk in iterable: fp.write(chunk)]. *)
Fixpoint write_chunks (p : path) (chunks : list pystr) : M unit :=
  match chunks with
  | [] => ret tt
  | chunk :: rest => f_write_chunk p chunk ;; write_chunks p rest
  end.

(** [save_structure_to_json(structure, output_path)]. *)
Definition save_structure_to_json (structure : value) (output_path : path)
  : M unit :=
  open_w output_path ;;
  write_chunks output_path (iterencode structure 0).

(** ** [json.load(f)] *)

(** [WHITESPACE.match(s).end()]: what follows the blanks, tabs, line feeds
    and carriage returns at the start of [s]. *)
Definition is_ws (c : Z) : bool :=
  (c =? 32) || (c =? 9) || (c =? 10) || (c =? 13).

Fixpoint skip_ws (s : pystr) : pystr :=
  match s with
  | c :: r => if is_ws c then skip_ws r else s
  | [] => []
  end.

Definition hex_value (c : Z) : option Z :=
  if (48 <=? c) && (c <=? 57) then Some (c - 48)
  else if (97 <=? c) && (c <=? 102) then Some (c - 87)
  else if (65 <=? c) && (c <=? 70) then Some (c - 55)
  else None.

(** The four hexadecimal digits of a [\uXXXX] escape. *)
Definition hex4 (a b c d : Z) : option Z :=
  match hex_value a, hex_value b, hex_value c, hex_value d with
  | Some x, Some y, Some z, Some t => Some (((x * 16 + y) * 16 + z) * 16 + t)
  | _, _, _, _ => None
  end.

(** The table [BACKSLASH] of the one-letter escapes. *)
Definition unescape (esc : Z) : option Z :=
  if esc =? 34 then Some 34
  else if esc =? 92 then Some 92
  else if esc =? 47 then Some 47
  else if esc =? 98 then Some 8
  else if esc =? 102 then Some 12
  else if esc =? 110 then Some 10
  else if esc =? 114 then Some 13
  else if esc =? 116 then Some 9
  else None.

Definition push (c : Z) (k : option (pystr * pystr))
  : option (pystr * pystr) :=
  match k with
  | Some (str, rest) => Some (c :: str, rest)
  | None => None
  end.

(** [scanstring(s, end, strict=True)], from the character after the
    opening quote: the string and what follows its closing quote. *)
Fixpoint scanstring (s : pystr) : option (pystr * pystr) :=
  match s with
  | [] => None
  | c :: r =>
    if c =? QUOTE then Some ([], r)
    else if c =? BACKSLASH then
      match r with
      | [] => None
      | esc :: r1 =>
        if esc =? 117 then
          match r1 with
          | x1 :: x2 :: x3 :: x4 :: r2 =>
            match hex4 x1 x2 x3 x4 with
            | None => None
            | Some uni =>
              if (0xD800 <=? uni) && (uni <=? 0xDBFF) then
                match r2 with
                | b :: u :: r3 =>
                  if (b =? BACKSLASH) && (u =? 117) then
                    match r3 with
                    | y1 :: y2 :: y3 :: y4 :: r4 =>
                      match hex4 y1 y2 y3 y4 with
                      | None => None
                      | Some uni2 =>
                        if (0xDC00 <=? uni2) && (uni2 <=? 0xDFFF)
                        then push (0x10000 + ((uni - 0xD800) * 1024
                                              + (uni2 - 0xDC00)))
                                  (scanstring r4)
                        else push uni (scanstring r2)
                      end
                    | _ => None
                    end
                  else push uni (scanstring r2)
                | _ => push uni (scanstring r2)
                end
              else push uni (scanstring r2)
            end
          | _ => None
          end
        else
          match unescape esc with
          | Some char => push char (scanstring r1)
          | None => None
          end
      end
    else if c <? 32 then None
    else push c (scanstring r)
  end.

Definition is_digit (c : Z) : bool := (48 <=? c) && (c <=? 57).

(** The digits at the start of [s], and what follows them. *)
Fixpoint digits (s : pystr) : pystr * pystr :=
  match s with
  | c :: r =>
    if is_digit c then let (ds, rest) := digits r in (c :: ds, rest)
    else ([], s)
  | [] => ([], [])
  end.

(** [NUMBER_RE.match(s)]: the group [integer] and the groups [frac] and
    [exp], one after the other, of the number at the start of [s], and what
    follows it. *)
Definition match_number (s : pystr) : option (pystr * pystr * pystr) :=
  let (sign, s1) := match s with
                    | c :: r => if c =? 45 then ([c], r) else ([], s)
                    | [] => ([], [])
                    end in
  let integer :=
      match s1 with
      | c :: r =>
        if c =? 48 then Some ([c], r)
        else if is_digit c then let (ds, rest) := digits r in
                                Some (c :: ds, rest)
        else None
      | [] => None
      end in
  match integer with
  | None => None
  | Some (int_text, s2) =>
    let (frac, s3) :=
        match s2 with
        | c :: r =>
          if c =? 46 then
            match digits r with
            | ([], _) => ([], s2)
            | (ds, rest) => (c :: ds, rest)
            end
          else ([], s2)
        | [] => ([], s2)
        end in
    let (exp, s4) :=
        match s3 with
        | c :: r =>
          if (c =? 101) || (c =? 69) then
            let (esign, r1) :=
                match r with
                | g :: r' => if (g =? 45) || (g =? 43) then ([g], r')
                             else ([], r)
                | [] => ([], r)
                end in
            match digits r1 with
            | ([], _) => ([], s3)
            | (ds, rest) => (c :: esign ++ ds, rest)
            end
          else ([], s3)
        | [] => ([], s3)
        end in
    Some (sign ++ int_text, frac ++ exp, s4)
  end.

(** [sys.int_info.default_max_str_digits]. *)
Definition MAX_STR_DIGITS : Z := 4300.

(** [parse_float(integer + frac + exp)] when there is a fraction or an
    exponent, [parse_int(integer)] otherwise.  The number is kept as the
    text of its literal; [int] raises [ValueError] for a literal of more
    than [MAX_STR_DIGITS] digits. *)
Definition parse_number (integer frac_exp : pystr) : res value :=
  match frac_exp with
  | [] =>
    if MAX_STR_DIGITS <? Z.of_nat (length (filter is_digit integer))
    then inr ValueError
    else inl (VNum integer)
  | _ :: _ => inl (VNum (integer ++ frac_exp))
  end.

(** [s[idx:idx + len(word)] == word]: what follows [word] at the start
    of [s]. *)
Fixpoint after_word (word s : pystr) : option pystr :=
  match word, s with
  | [], _ => Some s
  | a :: word', c :: r => if a =? c then after_word word' r else None
  | _ :: _, [] => None
  end.

Section Containers.

(** The scanner for the values inside a mapping or a list. *)
Variable scan_once : pystr -> res (value * pystr).

(** The loop of [JSONObject], from the character after the opening quote
    of a key; [pairs] is the dictionary of the pairs read so far. *)
Fixpoint object_loop (n : nat) (s : pystr) (pairs : list (pystr * value))
  : res (value * pystr) :=
  match n with
  | O => inr JSONDecodeError
  | S n =>
    match scanstring s with
    | None => inr JSONDecodeError
    | Some (key, s1) =>
      match skip_ws s1 with
      | c :: s2 =>
        if c =? 58 then
          match scan_once (skip_ws s2) with
          | inr e => inr e
          | inl (value, s3) =>
            let pairs := dict_set pairs key value in
            match skip_ws s3 with
            | nextchar :: s4 =>
              if nextchar =? 125 then inl (VDict pairs, s4)
              else if nextchar =? 44 then
                match skip_ws s4 with
                | q :: s5 =>
                  if q =? QUOTE then object_loop n s5 pairs
                  else inr JSONDecodeError
                | [] => inr JSONDecodeError
                end
              else inr JSONDecodeError
            | [] => inr JSONDecodeError
            end
          end
        else inr JSONDecodeError
      | [] => inr JSONDecodeError
      end
    end
  end.

(** [JSONObject], from the character after the opening brace. *)
Definition JSONObject (n : nat) (s : pystr) : res (value * pystr) :=
  match skip_ws s with
  | c :: r =>
    if c =? QUOTE then object_loop n r []
    else if c =? 125 then inl (VDict [], r)
    else inr JSONDecodeError
  | [] => inr JSONDecodeError
  end.

(** The loop of [JSONArray], from the start of a value. *)
Fixpoint array_loop (n : nat) (s : pystr) (values : list value)
  : res (value * pystr) :=
  match n with
  | O => inr JSONDecodeError
  | S n =>
    match scan_once s with
    | inr e => inr e
    | inl (value, s1) =>
      let values := values ++ [value] in
      match skip_ws s1 with
      | nextchar :: s2 =>
        if nextchar =? 93 then inl (VList values, s2)
        else if nextchar =? 44 then array_loop n (skip_ws s2) values
        else inr JSONDecodeError
      | [] => inr JSONDecodeError
      end
    end
  end.

(** [JSONArray], from the character after the opening bracket. *)
Definition JSONArray (n : nat) (s : pystr) : res (value * pystr) :=
  match skip_ws s with
  | c :: r => if c =? 93 then inl (VList [], r) else array_loop n (c :: r) []
  | [] => array_loop n [] []
  end.

End Containers.

(** [scan_once(string, idx)] on what is left of the text: the value and
    what follows it, [JSONDecodeError] where the scanner stops, or the
    [ValueError] of [int].  [fuel] bounds the depth of nesting and the
    number of items of a container. *)
Fixpoint scan_once (fuel : nat) (s : pystr) : res (value * pystr) :=
  match fuel with
  | O => inr JSONDecodeError
  | S fuel =>
    match s with
    | [] => inr JSONDecodeError
    | nextchar :: r =>
      if nextchar =? QUOTE then
        match scanstring r with
        | Some (str, rest) => inl (VStr str, rest)
        | None => inr JSONDecodeError
        end
      else if nextchar =? 123 then JSONObject (scan_once fuel) (length s) r
      else if nextchar =? 91 then JSONArray (scan_once fuel) (length s) r
      else
        match after_word (lit "null") s, after_word (lit "true") s,
              after_word (lit "false") s with
        | Some rest, _, _ => inl (VNone, rest)
        | _, Some rest, _ => inl (VBool true, rest)
        | _, _, Some rest => inl (VBool false, rest)
        | None, None, None =>
          match match_number s with
          | Some (integer, frac_exp, rest) =>
            match parse_number integer frac_exp with
            | inl number => inl (number, rest)
            | inr e => inr e
            end
          | None =>
            match after_word (lit "NaN") s, after_word (lit "Infinity") s,
                  after_word (lit "-Infinity") s with
            | Some rest, _, _ => inl (VNum (lit "NaN"), rest)
            | _, Some rest, _ => inl (VNum (lit "Infinity"), rest)
            | _, _, Some rest => inl (VNum (lit "-Infinity"), rest)
            | None, None, None => inr JSONDecodeError
            end
          end
        end
    end
  end.

(** [json.loads(s)]: the value, [JSONDecodeError], or the [ValueError] of
    [int].  The fuel is above the length of the text, and the scanner
    never stops for lack of it ([scan_once_fuel], [object_loop_fuel],
    [array_loop_fuel]). *)
Definition json_loads (s : pystr) : res value :=
  match s with
  | 0xFEFF :: _ => inr JSONDecodeError
  | _ =>
    match scan_once (S (length s)) (skip_ws s) with
    | inl (obj, rest) =>
      match skip_ws rest with
      | [] => inl obj
      | _ :: _ => inr JSONDecodeError
      end
    | inr e => inr e
    end
  end.

(** [with open(json_path, 'r', encoding='utf-8') as f: json.load(f)]. *)
Definition json_load (json_path : path) : M value :=
  text <- open_read json_path Strict ;;
  fun w => (json_loads text, w).

(** [update_files_from_json(directory_path, json_path)] from the file at
    [json_path]. *)
Definition update_files_from_json_file (directory_path json_path : path)
  : M unit :=
  new_structure <- json_load json_path ;;
  update_files_from_json directory_path (Some new_structure).

(** ** [main] *)

(** What [parse_args] returns: [args_exclude] is the absolute path of the
    exclusion file; [args_update] is [None] without [--update] and for an
    empty string, which the test [if args.update] takes as false. *)
Record arguments := mkArguments {
  args_directory_path : path;
  args_exclude : path;
  args_markdown : bool;
  args_update : option path
}.

(** The two lines that [main] prints. *)
Inductive printed :=
| MarkdownSaved (output_path : path)
| StructureSaved (output_path : path).

(** A function of the disk, as a step of the script. *)
Definition on_disk {A} (f : node -> res A) : M A := fun w => (f (disk w), w).

Section Main.

Variable fnmatch : pystr -> pystr -> bool.

(** [main()], given the arguments of the command line; the result is what
    it prints. *)
Definition main (args : arguments) : M (list printed) :=
  exclusions <- load_exclusions (args_exclude args) ;;
  match args_update args with
  | Some json_path =>
    update_files_from_json_file (args_directory_path args) json_path ;;
    ret []
  | None =>
    if args_markdown args then
      markdown_content <-
        on_disk (fun fs => directory_to_markdown
                             fnmatch fs (args_directory_path args)
                             exclusions) ;;
      let output_path :=
          os_path_join (args_directory_path args)
                       (lit "directory_structure.md") in
      open_write output_path (VStr markdown_content) ;;
      ret [MarkdownSaved output_path]
    else
      structure <-
        on_disk (fun fs => directory_to_dict
                             fnmatch fs (args_directory_path args)
                             exclusions) ;;
      let output_path :=
          os_path_join (args_directory_path args)
                       (lit "directory_structure.json") in
      save_structure_to_json structure output_path ;;
      ret [StructureSaved output_path]
  end.

End Main.

(** * The vocabulary of the properties *)

(** ** Texts *)

Definition no_cr (s : pystr) : bool := forallb (fun c => negb (c =? CR)) s.

(** [subseq a b]: [a] is [b] with some elements left out. *)
Inductive subseq {A} : list A -> list A -> Prop :=
| subseq_nil : subseq [] []
| subseq_skip x a b : subseq a b -> subseq a (x :: b)
| subseq_keep x a b : subseq a b -> subseq (x :: a) (x :: b).

(** [decoded o bs]: the decoding [o] of [bs] succeeded, and encoding its
    text gives back [bs] with some bytes left out. *)
Definition decoded (o : option pystr) (bs : bytes) : Prop :=
  exists s b', o = Some s /\ utf8_encode s = Some b' /\ subseq b' bs.

(** A text that [utf8_encode] accepts: no surrogate, no integer outside
    the code space. *)
Definition encodable_char (c : Z) : bool :=
  match utf8_encode_char c with Some _ => true | None => false end.

Definition encodable (s : pystr) : bool := forallb encodable_char s.

(** A text that is written back and read again unchanged. *)
Definition clean (s : pystr) : bool := no_cr s && encodable s.

(** ** Paths *)

Fixpoint is_prefix (p q : path) : bool :=
  match p, q with
  | [], _ => true
  | n :: p', m :: q' => str_eqb n m && is_prefix p' q'
  | _ :: _, [] => false
  end.

(** ** Induction on documents and on disks *)

Section ValueInduction.

Variable P : value -> Prop.

Hypothesis P_leaf : forall v, (forall items, v <> VDict items) -> P v.

Hypothesis P_dict :
  forall items, Forall (fun item => P (snd item)) items -> P (VDict items).

Fixpoint value_nested_ind (v : value) : P v :=
  match v with
  | VDict items =>
    P_dict items
      ((fix all (l : list (pystr * value))
          : Forall (fun item => P (snd item)) l :=
          match l with
          | [] => Forall_nil _
          | item :: l' =>
            Forall_cons item (value_nested_ind (snd item)) (all l')
          end) items)
  | VNone => P_leaf VNone ltac:(discriminate)
  | VBool b => P_leaf (VBool b) ltac:(discriminate)
  | VNum n => P_leaf (VNum n) ltac:(discriminate)
  | VStr s => P_leaf (VStr s) ltac:(discriminate)
  | VList l => P_leaf (VList l) ltac:(discriminate)
  end.

End ValueInduction.

Section NodeInduction.

Variable P : node -> Prop.

Hypothesis P_file : forall b, P (File b).

Hypothesis P_dir :
  forall es, Forall (fun entry => P (snd entry)) es -> P (Dir es).

Fixpoint node_nested_ind (t : node) : P t :=
  match t with
  | File b => P_file b
  | Dir es =>
    P_dir es
      ((fix all (l : list (name * node))
          : Forall (fun entry => P (snd entry)) l :=
          match l with
          | [] => Forall_nil _
          | entry :: l' =>
            Forall_cons entry (node_nested_ind (snd entry)) (all l')
          end) es)
  end.

End NodeInduction.

(** ** The calls of the reconciler *)

(** The calls [update_or_create_file(item_path, content)] that
    [recurse_structure] makes on a mapping when none raises, in order: one
    for each value of the document that is not a mapping, at its path. *)
Fixpoint targets (structure : value) (current_path : path)
  : list (path * value) :=
  match structure with
  | VDict items =>
    flat_map
      (fun item : pystr * value =>
         let item_path := os_path_join current_path (fst item) in
         match snd item with
         | VDict _ => targets (snd item) item_path
         | content => [(item_path, content)]
         end)
      items
  | _ => []
  end.

Fixpoint update_all (calls : list (path * value)) : M unit :=
  match calls with
  | [] => ret tt
  | (file_path, content) :: rest =>
    update_or_create_file file_path content ;; update_all rest
  end.

(** ** Changes of the disk *)

Inductive change := Created | Rewritten.

(** One change at [p]: an entry is created where nothing was, or a file
    is replaced by a file. *)
Inductive step : change -> path -> node -> node -> Prop :=
| step_create p d d' (x : node) :
    stat p d = inr ENOENT -> put p x d = Some d' -> step Created p d d'
| step_rewrite p d d' (b b' : bytes) :
    stat p d = inl (File b) -> put p (File b') d = Some d' ->
    step Rewritten p d d'.

(** A sequence of changes, each of a kind and at a path that [P] allows. *)
Inductive steps (P : change -> path -> Prop) : node -> node -> Prop :=
| steps_refl d : steps P d d
| steps_cons k p d d1 d2 :
    P k p -> step k p d d1 -> steps P d1 d2 -> steps P d d2.

Definition is_file (q : path) (d : node) : Prop :=
  exists b, stat q d = inl (File b).

Definition is_dir (q : path) (d : node) : Prop :=
  exists es, stat q d = inl (Dir es).

(** [m] changes the disk only by steps that [P] allows. *)
Definition evolves (P : change -> path -> Prop) {A} (m : M A) : Prop :=
  forall w, steps P (disk w) (disk (snd (m w))).

(** The changes of a directory creation and of a file write at [p]. *)
Definition creates (p : path) (k : change) (p' : path) : Prop :=
  k = Created /\ p' = p.

Definition writes_to (p : path) (k : change) (p' : path) : Prop := p' = p.

(** Directories are created above [p] only. *)
Definition creates_above (p : path) (k : change) (p' : path) : Prop :=
  k = Created /\ is_prefix p' p = true.

(** A call for [p] creates at [p] and above it, and rewrites [p] only. *)
Definition call_changes (p : path) (k : change) (p' : path) : Prop :=
  match k with
  | Created => is_prefix p' p = true
  | Rewritten => p' = p
  end.

Definition calls_change (calls : list (path * value)) (k : change)
           (p' : path) : Prop :=
  exists call, In call calls /\ call_changes (fst call) k p'.

(** [q] is a file the calls name, or a directory above one. *)
Definition leads_to (calls : list (path * value)) (q : path) : Prop :=
  exists call, In call calls /\ is_prefix q (fst call) = true.

(** The paths of a document under [current_path]: every key, at every
    depth. *)
Fixpoint doc_paths (structure : value) (current_path : path) : list path :=
  match structure with
  | VDict items =>
    flat_map
      (fun item : pystr * value =>
         let item_path := os_path_join current_path (fst item) in
         item_path :: doc_paths (snd item) item_path)
      items
  | _ => []
  end.

(** The text of the file at [p] is [s]: stored as its encoding, or read
    back as [s]. *)
Definition holds_text (p : path) (s : pystr) (d : node) : Prop :=
  exists b, stat p d = inl (File b) /\
            (utf8_encode s = Some b \/ read_text Strict b = Some s).

(** ** Shapes of documents *)

(** Every key is one path segment. *)
Fixpoint valid_keys (structure : value) : bool :=
  match structure with
  | VDict items =>
    forallb (fun item : pystr * value =>
               valid_name (fst item) && valid_keys (snd item)) items
  | _ => true
  end.

Fixpoint distinct (l : list pystr) : bool :=
  match l with
  | [] => true
  | x :: r => negb (existsb (str_eqb x) r) && distinct r
  end.

(** No key occurs twice in a mapping, as in every Python [dict]. *)
Fixpoint unique_keys (structure : value) : bool :=
  match structure with
  | VDict items =>
    distinct (map fst items) &&
    forallb (fun item : pystr * value => unique_keys (snd item)) items
  | _ => true
  end.

(** The nested-mapping shape: a mapping whose values are strings or
    mappings of that shape. *)
Fixpoint well_shaped (structure : value) : bool :=
  match structure with
  | VDict items =>
    forallb (fun item : pystr * value =>
               match snd item with
               | VStr _ => true
               | VDict _ => well_shaped (snd item)
               | _ => false
               end) items
  | _ => false
  end.

(** The value is a leaf or a mapping with a leaf somewhere below. *)
Fixpoint has_leaf (structure : value) : bool :=
  match structure with
  | VDict items =>
    existsb (fun item : pystr * value => has_leaf (snd item)) items
  | _ => true
  end.

(** The mappings nested in a document, with their paths. *)
Fixpoint sub_dicts (structure : value) (current_path : path)
  : list (path * value) :=
  match structure with
  | VDict items =>
    flat_map
      (fun item : pystr * value =>
         let item_path := os_path_join current_path (fst item) in
         match snd item with
         | VDict _ => (item_path, snd item) :: sub_dicts (snd item) item_path
         | _ => []
         end)
      items
  | _ => []
  end.

(** No string of the document has a carriage return. *)
Fixpoint texts_without_cr (structure : value) : bool :=
  match structure with
  | VDict items =>
    forallb (fun item : pystr * value => texts_without_cr (snd item)) items
  | VStr s => no_cr s
  | _ => true
  end.

(** The exceptions of a document that is not of the nested-mapping shape,
    and of a file that [json.load] refuses. *)
Definition shape_error (e : exn) : bool :=
  match e with
  | TypeError | AttributeError | JSONDecodeError | ValueError => true
  | _ => false
  end.

(** ** Exceptions of a run *)

(** [m] raises only exceptions that [S] accepts. *)
Definition raises_only (S : exn -> bool) {A} (m : M A) : Prop :=
  forall w e, fst (m w) = inr e -> S e = true.

(** [m] never returns. *)
Definition never_returns {A} (m : M A) : Prop :=
  forall w a, fst (m w) <> inl a.

(** The exceptions of the file system and of the codec. *)
Definition io_error (e : exn) : bool := negb (shape_error e).

(** Every exception but the one of [.items()] on a value that is not a
    mapping, and the ones of [json.load]. *)
Definition leaf_error (e : exn) : bool :=
  match e with
  | AttributeError | JSONDecodeError | ValueError => false
  | _ => true
  end.

Definition is_str (c : value) : bool :=
  match c with VStr _ => true | _ => false end.

(** What a call can raise: for a string the exceptions of the file system
    and of the codec; for another value [TypeError] as well. *)
Definition call_error (c : value) (e : exn) : bool :=
  if is_str c then io_error e else leaf_error e.

(** ** Capture and its documents *)

Section CaptureLoop.

Variable fnmatch : pystr -> pystr -> bool.

(** The loop of [directory_to_dict] over a listing, from the dictionary
    built so far. *)
Definition capture_loop (exclusions : list pystr)
           (entries : list (name * node)) (acc : res (list (pystr * value)))
  : res (list (pystr * value)) :=
  fold_left
    (fun (acc : res (list (pystr * value))) (entry : name * node) =>
       match acc with
       | inr e => inr e
       | inl result =>
         if should_exclude fnmatch (fst entry) exclusions then inl result
         else
           match capture_node fnmatch exclusions (snd entry) with
           | inl v => inl (dict_set result (fst entry) v)
           | inr e => inr e
           end
       end)
    entries acc.

End CaptureLoop.

Definition no_linebreak (l : pystr) : bool :=
  forallb (fun c => negb (is_linebreak c)) l.

(** The text of a file of lines, each ended by a line feed. *)
Definition text_of_lines (lines : list pystr) : pystr :=
  concat (map (fun l => l ++ [LF]) lines).

(** [d.get(k)]. *)
Fixpoint dict_get (d : list (pystr * value)) (k : pystr) : option value :=
  match d with
  | [] => None
  | (k', v) :: d' => if str_eqb k' k then Some v else dict_get d' k
  end.

(** The value of a document at a path of keys. *)
Fixpoint doc_get (v : value) (r : path) : option value :=
  match r with
  | [] => Some v
  | n :: r' =>
    match v with
    | VDict items =>
      match dict_get items n with
      | Some c => doc_get c r'
      | None => None
      end
    | _ => None
    end
  end.

(** No name occurs twice in a directory, as on every disk. *)
Fixpoint unique_names (t : node) : bool :=
  match t with
  | File _ => true
  | Dir es =>
    distinct (map fst es) &&
    forallb (fun entry : name * node => unique_names (snd entry)) es
  end.

(** ** The flat document of the specification *)

(** The value is a string or a mapping with a string somewhere below. *)
Fixpoint has_file (v : value) : bool :=
  match v with
  | VStr _ => true
  | VDict items => existsb (fun item : pystr * value => has_file (snd item)) items
  | _ => false
  end.

(** Every mapping below the root has a string in it or below it: the
    captured tree has no directory without a file. *)
Fixpoint no_empty_dirs (v : value) : bool :=
  match v with
  | VDict items =>
    forallb (fun item : pystr * value =>
               has_file (snd item) && no_empty_dirs (snd item)) items
  | _ => true
  end.

(** The language tag of the specification: the fixed token for the one
    recognized source extension, nothing for every other file. *)
Definition language_tag (item_path : path) : pystr :=
  if str_eqb (path_suffix item_path) (lit ".py") then lit "python" else [].

(** A section of the specification: the heading line with the full path,
    then the fenced block with the raw content. *)
Definition section (item_path : path) (file_content : pystr) : pystr :=
  lit "### " ++ path_text item_path ++ [LF]
  ++ fence ++ language_tag item_path ++ [LF]
  ++ file_content ++ [LF]
  ++ fence ++ [LF].

(** The sections of a captured tree under [prefix], following the
    specification: one per file leaf, depth first, in the order of the
    tree; a directory adds nothing of its own. *)
Fixpoint leaf_sections (tree : value) (prefix : path) : list pystr :=
  match tree with
  | VDict items =>
    flat_map
      (fun item : pystr * value =>
         let item_path := os_path_join prefix (fst item) in
         match snd item with
         | VStr file_content => [section item_path file_content]
         | VDict _ => leaf_sections (snd item) item_path
         | _ => []
         end)
      items
  | _ => []
  end.

(** The flat document of the specification: the sections, joined so that
    one empty line stands between two of them. *)
Definition to_flat_document (tree : value) (prefix : path) : pystr :=
  str_join [LF] (leaf_sections tree prefix).

(** The sections of one entry of a captured tree. *)
Definition item_sections (v : value) (item_path : path) : list pystr :=
  match v with
  | VStr file_content => [section item_path file_content]
  | VDict _ => leaf_sections v item_path
  | _ => []
  end.

Section MarkdownLoop.

Variable fnmatch : pystr -> pystr -> bool.

(** The loop of [directory_to_markdown] over a listing, from the list
    built so far. *)
Definition markdown_loop (exclusions : list pystr) (path : path)
           (entries : list (name * node)) (acc : res (list pystr))
  : res (list pystr) :=
  fold_left
    (fun (acc : res (list pystr)) (entry : name * node) =>
       match acc with
       | inr e => inr e
       | inl markdown_content =>
         if should_exclude fnmatch (fst entry) exclusions
         then inl markdown_content
         else
           match markdown_node fnmatch exclusions
                   (os_path_join path (fst entry)) (snd entry) with
           | inl text => inl (markdown_content ++ [text])
           | inr e => inr e
           end
       end)
    entries acc.

(** The text of one entry of a captured tree in the flat document. *)
Definition item_text (p : path) (item : pystr * value) : pystr :=
  str_join [LF] (item_sections (snd item) (os_path_join p (fst item))).

(** What [directory_to_markdown] appends for an entry is the join of the
    sections of what [directory_to_dict] stores for it. *)
Definition renders (exclusions : list pystr) (t : node) : Prop :=
  forall p v,
    unique_names t = true ->
    capture_node fnmatch exclusions t = inl v ->
    no_empty_dirs v = true ->
    markdown_node fnmatch exclusions p t
    = inl (str_join [LF] (item_sections v p)).

End MarkdownLoop.

(** ** The round trip *)

(** A document that capture gives back from the disk it is written to:
    strings that are written back as they are read, under unique keys. *)
Fixpoint restorable (v : value) : bool :=
  match v with
  | VStr s => clean s
  | VDict items =>
    distinct (map fst items) &&
    forallb (fun item : pystr * value => restorable (snd item)) items
  | _ => false
  end.

(** The node that holds a document. *)
Fixpoint node_of (v : value) : node :=
  match v with
  | VStr s => File (match utf8_encode s with Some b => b | None => [] end)
  | VDict items =>
    Dir (map (fun item : pystr * value => (fst item, node_of (snd item)))
             items)
  | _ => File []
  end.

(** [x] at the end of the chain of directories [q]. *)
Fixpoint wrap (q : path) (x : node) : node :=
  match q with
  | [] => x
  | n :: q' => Dir [(n, wrap q' x)]
  end.

Definition node_item (item : pystr * value) : name * node :=
  (fst item, node_of (snd item)).

(** Reconciling a mapping at a path below a directory that has no entry of
    the first name stores the whole mapping there, in its order. *)
Definition stored_fresh (v : value) : Prop :=
  match v with
  | VDict _ =>
    forall w p0 es0 n1 q,
      stat p0 (disk w) = inl (Dir es0) -> find_entry n1 es0 = None ->
      restorable v = true -> has_file v = true -> no_empty_dirs v = true ->
      exists w',
        recurse_structure v (p0 ++ n1 :: q) w = (inl tt, w') /\
        put (p0 ++ [n1]) (wrap q (node_of v)) (disk w) = Some (disk w')
  | _ => True
  end.

(** ** Examples *)

(** A matcher for patterns without wildcards. *)
Definition literal_match (name pattern : pystr) : bool := str_eqb name pattern.

Definition src : name := lit "src".

Definition tgt : name := lit "tgt".

(** A source tree with a file at the top and one in a directory, beside
    an empty target. *)
Definition ex_disk : node :=
  Dir [(src, Dir [(lit "a.py", File (lit "x = 1" ++ [LF]));
                  (lit "docs", Dir [(lit "b.txt", File (lit "hi"))])]);
       (tgt, Dir [])].

Definition ex_world : world := mkWorld ex_disk [] [].

Definition ex_tree : value :=
  VDict [(lit "a.py", VStr (lit "x = 1" ++ [LF]));
         (lit "docs", VDict [(lit "b.txt", VStr (lit "hi"))])].

(** The same source tree with an empty directory between the files. *)
Definition ex_disk_empty_dir : node :=
  Dir [(src, Dir [(lit "a.txt", File (lit "A"));
                  (lit "d", Dir []);
                  (lit "b.txt", File (lit "B"))]);
       (tgt, Dir [])].

Definition ex_world_empty_dir : world := mkWorld ex_disk_empty_dir [] [].

Definition ex_tree_empty_dir : value :=
  VDict [(lit "a.txt", VStr (lit "A"));
         (lit "d", VDict []);
         (lit "b.txt", VStr (lit "B"))].

(** A target that already holds a file, a directory and a file that is
    not UTF-8. *)
Definition ex_disk_target : node :=
  Dir [(tgt, Dir [(lit "extra.txt", File (lit "keep"));
                  (lit "a", Dir []);
                  (lit "bin", File [0x61; 0xFF; 0x62]);
                  (lit "empty", File [])])].

Definition ex_world_target : world := mkWorld ex_disk_target [] [].

(** ** The primitives of the loops of the script *)

(** [os.listdir(p)], [os.path.isdir(p)] and reading a file, on a disk. *)
Definition os_listdir (fs : node) (p : path) : res (list name) :=
  match stat p fs with
  | inl (Dir entries) => inl (map fst entries)
  | inl (File _) => inr NotADirectoryError
  | inr ENOENT => inr FileNotFoundError
  | inr ENOTDIR => inr NotADirectoryError
  end.

Definition os_path_isdir (fs : node) (p : path) : bool :=
  match stat p fs with
  | inl (Dir _) => true
  | _ => false
  end.

Definition read_file (fs : node) (p : path) (e : errors) : res pystr :=
  match stat p fs with
  | inl (File b) =>
    match read_text e b with
    | Some text => inl text
    | None => inr UnicodeDecodeError
    end
  | inl (Dir _) => inr IsADirectoryError
  | inr ENOENT => inr FileNotFoundError
  | inr ENOTDIR => inr NotADirectoryError
  end.

(** ** The markdown text of a tree *)

(** The text [directory_to_markdown] gives for a captured value at
    [item_path]: the section of a string, the joined texts of the items of
    a mapping. *)
Fixpoint markdown_of (v : value) (item_path : path) : pystr :=
  match v with
  | VStr file_content => file_section item_path file_content
  | VDict items =>
    str_join [LF]
      (map (fun item : pystr * value =>
              markdown_of (snd item) (os_path_join item_path (fst item)))
           items)
  | _ => []
  end.

(** The two forms of a section. *)
Definition python_section (item_path : path) (file_content : pystr) : pystr :=
  lit "### " ++ path_text item_path ++ [LF] ++ lit "```python" ++ [LF]
  ++ file_content ++ [LF] ++ lit "```" ++ [LF].

Definition plain_section (item_path : path) (file_content : pystr) : pystr :=
  lit "### " ++ path_text item_path ++ [LF] ++ lit "```" ++ [LF]
  ++ file_content ++ [LF] ++ lit "```" ++ [LF].

Definition DOT : Z := 46.

(** A name on the way is excluded. *)
Definition excluded (fnmatch : pystr -> pystr -> bool)
           (exclusions : list pystr) (r : path) : bool :=
  existsb (fun n => should_exclude fnmatch n exclusions) r.

(** ** Writes and their records *)

(** The file a record reports as written. *)
Definition written (r : record) : list path :=
  match r with
  | DirCreated _ => []
  | FileUpdated file_path _ _ => [file_path]
  | FileCreated file_path => [file_path]
  end.

(** [m] opens [ws] for writing and logs [l], whatever it returns. *)
Definition traces {A} (m : M A) (w : world) (ws : list path)
           (l : list record) : Prop :=
  writes (snd (m w)) = writes w ++ ws /\ log (snd (m w)) = log w ++ l.

(** The exception of a content that cannot be written. *)
Definition write_error (content : value) : exn :=
  match content with
  | VStr _ => UnicodeEncodeError
  | _ => TypeError
  end.

Definition writable (content : value) : bool :=
  match content with
  | VStr s => encodable s
  | _ => false
  end.

(** ** Files that decode *)

(** Every file of [t] that is not below a name that [skip] takes is valid
    UTF-8. *)
Fixpoint decodable (skip : name -> bool) (t : node) : bool :=
  match t with
  | File b =>
    match utf8_decode Strict b with Some _ => true | None => false end
  | Dir es =>
    forallb (fun entry : name * node =>
               skip (fst entry) || decodable skip (snd entry)) es
  end.

(** ** Lines and their endings *)

(** The line endings of [str.splitlines]: one of its line boundaries, or a
    carriage return with a line feed. *)
Definition line_end (e : pystr) : bool :=
  match e with
  | [c] => is_linebreak c
  | [c; d] => (c =? CR) && (d =? LF)
  | _ => false
  end.

Definition starts_with_lf (s : pystr) : bool :=
  match s with
  | d :: _ => d =? LF
  | [] => false
  end.

(** The text of lines given with their endings, before a last line [tail]
    that has no ending. *)
Fixpoint text_of_ended (items : list (pystr * pystr)) (tail : pystr)
  : pystr :=
  match items with
  | [] => tail
  | (l, e) :: rest => l ++ e ++ text_of_ended rest tail
  end.

(** Lines with no line boundary in them, each with a line ending; a lone
    carriage return does not stand before a line feed, with which it would
    be one ending. *)
Fixpoint ended_lines (items : list (pystr * pystr)) (tail : pystr) : bool :=
  match items with
  | [] => no_linebreak tail
  | (l, e) :: rest =>
    no_linebreak l && line_end e &&
    negb (str_eqb e [CR] && starts_with_lf (text_of_ended rest tail)) &&
    ended_lines rest tail
  end.

(** The lines of such a text: the last one counts when it is not empty. *)
Definition lines_of_ended (items : list (pystr * pystr)) (tail : pystr)
  : list pystr :=
  map fst items ++ match tail with [] => [] | _ :: _ => [tail] end.

(** ** The text of a document *)

(** Every element is a code point: not negative. *)
Definition code_points (s : pystr) : bool := forallb (fun c => 0 <=? c) s.

(** A document without numbers, whose mappings have no key twice. *)
Fixpoint serializable (v : value) : bool :=
  match v with
  | VStr s => code_points s
  | VDict items =>
    distinct (map fst items) &&
    forallb (fun item : pystr * value =>
               code_points (fst item) && serializable (snd item)) items
  | VList elements => forallb serializable elements
  | VNone | VBool _ => true
  | VNum _ => false
  end.

(** The text of a value at a level of nesting. *)
Definition text_at (level : nat) (v : value) : pystr :=
  concat (iterencode v level).

(** The text of an item of a mapping. *)
Definition member_text (level : nat) (item : pystr * value) : pystr :=
  encode_basestring (fst item) ++ lit ": " ++ text_at (S level) (snd item).

(** The separator of the items of a container at a level of nesting. *)
Definition separator (level : nat) : pystr :=
  lit "," ++ newline_indent (S level).

(** ** Documents that can be saved *)

(** Every key of the document is a text that [utf8_encode] accepts. *)
Fixpoint encodable_keys (v : value) : bool :=
  match v with
  | VDict items =>
    forallb (fun item : pystr * value =>
               encodable (fst item) && encodable_keys (snd item)) items
  | _ => true
  end.

(** A character that is written and read back as it is. *)
Definition clean_char (c : Z) : bool := encodable_char c && negb (c =? CR).

(** [output_path] can be opened for writing: it is a file, or it is
    missing from a directory. *)
Definition can_write (output_path : path) (d : node) : Prop :=
  is_file output_path d \/
  (stat output_path d = inr ENOENT /\ is_dir (os_path_dirname output_path) d).

(** ** The files [main] writes *)

Definition json_name : name := lit "directory_structure.json".

Definition markdown_name : name := lit "directory_structure.md".

(** ** Scanners *)

(** A scanner that returns less than it was given. *)
Definition consumes (scan : pystr -> res (value * pystr)) : Prop :=
  forall s v rest, scan s = inl (v, rest) -> (length rest < length s)%nat.

(** ** Examples of runs of [main] *)

(** The default exclusion file of the command line, in the root. *)
Definition exclude_name : name := lit "config.exclude".

(** [main] on the source of the example, for the document and for the
    markdown text. *)
Definition ex_args : arguments := mkArguments [src] [exclude_name] false None.

Definition ex_args_markdown : arguments :=
  mkArguments [src] [exclude_name] true None.

(** The example with an exclusion file whose lines end in a carriage
    return and a line feed. *)
Definition ex_disk_exclude : node :=
  Dir [(src, Dir [(lit "a.py", File (lit "x = 1" ++ [LF]));
                  (lit "docs", Dir [(lit "b.txt", File (lit "hi"))])]);
       (exclude_name, File (lit "docs" ++ [CR; LF] ++ lit "tmp" ++ [CR; LF]))].

Definition ex_world_exclude : world := mkWorld ex_disk_exclude [] [].

(** A document with a key that is a lone surrogate, as [os.listdir] gives
    for a name that is not UTF-8. *)
Definition ex_tree_surrogate : value :=
  VDict [(lit "a", VStr (lit "x")); ([0xDC80], VStr [])].

(** A JSON text with a key twice, and a disk with a file of that text
    beside the empty target. *)
Definition ex_text_key_twice : pystr :=
  lit "{" ++ encode_basestring (lit "a") ++ lit ": "
  ++ encode_basestring (lit "1") ++ lit ", "
  ++ encode_basestring (lit "a") ++ lit ": "
  ++ encode_basestring (lit "2") ++ lit "}".

Definition ex_world_document : world :=
  mkWorld (Dir [(tgt, Dir []); (lit "doc.json", File ex_text_key_twice)])
          [] [].

(** A JSON text that is an integer of 4301 digits, and a disk with a file
    of that text beside the empty target. *)
Definition ex_long_integer : pystr := 55 :: repeat 55 (Z.to_nat 4300).

Definition ex_world_long_integer : world :=
  mkWorld (Dir [(tgt, Dir []); (lit "doc.json", File ex_long_integer)])
          [] [].

(** * Tactics *)

(** Decide the integer comparisons of the goal one at a time, dropping
    the branches that contradict the hypotheses. *)
Ltac zcase :=
  repeat match goal with
  | |- context [?a <? ?b] =>
    destruct (Z.ltb_spec a b); try (exfalso; lia); cbv iota
  | |- context [?a <=? ?b] =>
    destruct (Z.leb_spec a b); try (exfalso; lia); cbv iota
  | |- context [?a =? ?b] =>
    destruct (Z.eqb_spec a b); try (exfalso; lia); cbv iota
  end.

Ltac unfold_decode :=
  cbn [utf8_decode]; unfold second_of_3, second_of_4, is_continuation;
  cbn [andb negb].

Ltac divmod := Z.div_mod_to_equations; lia.

Ltac some_inv :=
  match goal with
  | |- Some ?x = Some ?y -> _ =>
    let H := fresh in
    let H' := fresh in
    intros H; assert (H' : x = y) by congruence; clear H; subst y
  end.

(** * Properties *)

(** ** Strings *)

Lemma str_eqb_eq (a b : pystr) : str_eqb a b = true <-> a = b.
Proof.
  revert b; induction a as [|x a IH]; intros [|y b]; simpl; split;
    try congruence; try reflexivity.
  - intros H. apply andb_true_iff in H as [H1 H2].
    apply Z.eqb_eq in H1. apply IH in H2. congruence.
  - intros H. injection H as -> ->. rewrite Z.eqb_refl. simpl.
    now apply IH.
Qed.

Lemma str_eqb_refl (a : pystr) : str_eqb a a = true.
Proof. now apply str_eqb_eq. Qed.

Lemma str_eqb_neq (a b : pystr) : str_eqb a b = false <-> a <> b.
Proof.
  split.
  - intros H E. apply str_eqb_eq in E. congruence.
  - intros H. destruct (str_eqb a b) eqn:E; [|reflexivity].
    apply str_eqb_eq in E. contradiction.
Qed.

(** ** The codec *)

Lemma decode_1 e b rest :
  0 <= b < 0x80 ->
  utf8_decode e (b :: rest) = emit b (utf8_decode e rest).
Proof. intros H. unfold_decode. zcase. reflexivity. Qed.

Lemma decode_2 e b0 b1 rest :
  0xC2 <= b0 < 0xE0 -> 0x80 <= b1 <= 0xBF ->
  utf8_decode e (b0 :: b1 :: rest)
  = emit ((b0 - 0xC0) * 64 + (b1 - 0x80)) (utf8_decode e rest).
Proof. intros H0 H1. unfold_decode. zcase. reflexivity. Qed.

Lemma decode_3 e b0 b1 b2 rest :
  0xE0 <= b0 < 0xF0 -> 0x80 <= b1 <= 0xBF -> 0x80 <= b2 <= 0xBF ->
  (b0 = 0xE0 -> 0xA0 <= b1) -> (b0 = 0xED -> b1 < 0xA0) ->
  utf8_decode e (b0 :: b1 :: b2 :: rest)
  = emit ((b0 - 0xE0) * 4096 + (b1 - 0x80) * 64 + (b2 - 0x80))
         (utf8_decode e rest).
Proof.
  intros H0 H1 H2 H3 H4. unfold_decode. zcase; cbn [andb negb]; zcase;
    reflexivity.
Qed.

Lemma decode_4 e b0 b1 b2 b3 rest :
  0xF0 <= b0 < 0xF5 -> 0x80 <= b1 <= 0xBF -> 0x80 <= b2 <= 0xBF ->
  0x80 <= b3 <= 0xBF ->
  (b0 = 0xF0 -> 0x90 <= b1) -> (b0 = 0xF4 -> b1 < 0x90) ->
  utf8_decode e (b0 :: b1 :: b2 :: b3 :: rest)
  = emit ((b0 - 0xF0) * 262144 + (b1 - 0x80) * 4096 + (b2 - 0x80) * 64
          + (b3 - 0x80))
         (utf8_decode e rest).
Proof.
  intros H0 H1 H2 H3 H4 H5. unfold_decode. zcase; cbn [andb negb]; zcase;
    reflexivity.
Qed.

Lemma decode_encode_char (e : errors) (c : Z) (bs rest : bytes) :
  utf8_encode_char c = Some bs ->
  utf8_decode e (bs ++ rest) = emit c (utf8_decode e rest).
Proof.
  unfold utf8_encode_char.
  destruct (Z.ltb_spec c 0); [discriminate|].
  destruct (Z.ltb_spec c 0x80).
  { some_inv. cbn [app]. apply decode_1. lia. }
  destruct (Z.ltb_spec c 0x800).
  { some_inv. cbn [app]. rewrite decode_2 by divmod. f_equal. divmod. }
  destruct (Z.ltb_spec c 0x10000).
  { destruct (Z.leb_spec 0xD800 c); destruct (Z.leb_spec c 0xDFFF);
      cbn [andb]; try discriminate; some_inv; cbn [app];
      rewrite decode_3 by divmod; f_equal; divmod. }
  destruct (Z.ltb_spec c 0x110000); [|discriminate].
  some_inv. cbn [app]. rewrite decode_4 by divmod. f_equal. divmod.
Qed.

Lemma decode_encode (e : errors) (s : pystr) (b : bytes) :
  utf8_encode s = Some b -> utf8_decode e b = Some s.
Proof.
  revert b; induction s as [|c s IH]; intros b; cbn [utf8_encode].
  - intros [= <-]. reflexivity.
  - destruct (utf8_encode_char c) as [a|] eqn:Ec; [|discriminate].
    destruct (utf8_encode s) as [b'|] eqn:Es; [|discriminate].
    intros [= <-]. rewrite (decode_encode_char e c a b' Ec).
    rewrite (IH b' eq_refl). reflexivity.
Qed.

Lemma translate_no_cr (s : pystr) :
  no_cr s = true -> translate_newlines s = s.
Proof.
  induction s as [|c s IH]; cbn [no_cr forallb translate_newlines];
    [reflexivity|].
  intros H. apply andb_true_iff in H as [H1 H2].
  destruct (c =? CR); [discriminate|]. f_equal. now apply IH.
Qed.

(** What was written is what is read back, for a text without carriage
    returns. *)
Lemma read_written (e : errors) (s : pystr) (b : bytes) :
  utf8_encode s = Some b -> no_cr s = true -> read_text e b = Some s.
Proof.
  intros Hb Hs. unfold read_text. rewrite (decode_encode e s b Hb).
  cbn. now rewrite translate_no_cr.
Qed.

Lemma list_length_ind {A} (P : list A -> Prop) :
  (forall l, (forall l', (length l' < length l)%nat -> P l') -> P l) ->
  forall l, P l.
Proof.
  intros H l.
  assert (G : forall n l', (length l' < n)%nat -> P l').
  { induction n as [|n IH]; intros l' Hl; [lia|].
    apply H. intros l'' Hl''. apply IH. lia. }
  apply (G (S (length l))). lia.
Qed.

Lemma subseq_nil_l {A} (b : list A) : subseq [] b.
Proof. induction b; constructor; assumption. Qed.

Lemma encode_char_1 b :
  0 <= b < 0x80 -> utf8_encode_char b = Some [b].
Proof. intros H. unfold utf8_encode_char. zcase. reflexivity. Qed.

Lemma encode_char_2 b0 b1 :
  0xC2 <= b0 < 0xE0 -> 0x80 <= b1 <= 0xBF ->
  utf8_encode_char ((b0 - 0xC0) * 64 + (b1 - 0x80)) = Some [b0; b1].
Proof.
  intros H0 H1. unfold utf8_encode_char. zcase.
  f_equal. f_equal; [|f_equal]; divmod.
Qed.

Lemma encode_char_3 b0 b1 b2 :
  0xE0 <= b0 < 0xF0 -> 0x80 <= b1 <= 0xBF -> 0x80 <= b2 <= 0xBF ->
  (b0 = 0xE0 -> 0xA0 <= b1) -> (b0 = 0xED -> b1 < 0xA0) ->
  utf8_encode_char ((b0 - 0xE0) * 4096 + (b1 - 0x80) * 64 + (b2 - 0x80))
  = Some [b0; b1; b2].
Proof.
  intros H0 H1 H2 H3 H4. unfold utf8_encode_char.
  assert (b0 = 0xE0 \/ b0 = 0xED \/ (b0 <> 0xE0 /\ b0 <> 0xED)) as Hc by lia.
  zcase; cbn [andb]; try (exfalso; lia);
    (f_equal; f_equal; [|f_equal; [|f_equal]]; divmod).
Qed.

Lemma encode_char_4 b0 b1 b2 b3 :
  0xF0 <= b0 < 0xF5 -> 0x80 <= b1 <= 0xBF -> 0x80 <= b2 <= 0xBF ->
  0x80 <= b3 <= 0xBF ->
  (b0 = 0xF0 -> 0x90 <= b1) -> (b0 = 0xF4 -> b1 < 0x90) ->
  utf8_encode_char ((b0 - 0xF0) * 262144 + (b1 - 0x80) * 4096
                    + (b2 - 0x80) * 64 + (b3 - 0x80))
  = Some [b0; b1; b2; b3].
Proof.
  intros H0 H1 H2 H3 H4 H5. unfold utf8_encode_char.
  zcase. f_equal. f_equal; [|f_equal; [|f_equal; [|f_equal]]]; divmod.
Qed.

Lemma decoded_end (bs : bytes) : decoded (on_error Ignore (Some [])) bs.
Proof. exists [], []. repeat split. apply subseq_nil_l. Qed.

Lemma decoded_skip (pre r : bytes) (o : option pystr) :
  decoded o r -> decoded (on_error Ignore o) (pre ++ r).
Proof.
  intros (s & b' & -> & Hs & Hb). exists s, b'. repeat split; [assumption|].
  induction pre; simpl; [assumption|now apply subseq_skip].
Qed.

Lemma decoded_keep (c : Z) (cb r : bytes) (o : option pystr) :
  utf8_encode_char c = Some cb -> decoded o r -> decoded (emit c o) (cb ++ r).
Proof.
  intros Hc (s & b' & -> & Hs & Hb). exists (c :: s), (cb ++ b').
  repeat split.
  - cbn [utf8_encode]. now rewrite Hc, Hs.
  - clear Hc. induction cb; simpl; [assumption|now apply subseq_keep].
Qed.

Lemma decode_ignore_decoded (bs : bytes) : decoded (utf8_decode Ignore bs) bs.
Proof.
  induction bs as [bs IH] using list_length_ind.
  destruct bs as [|b0 r1].
  { exists [], []. repeat split. constructor. }
  assert (S1 : decoded (on_error Ignore (utf8_decode Ignore r1)) (b0 :: r1)).
  { apply (decoded_skip [b0]). apply IH. simpl. lia. }
  cbn [utf8_decode].
  destruct (Z.ltb_spec b0 0); [exact S1|].
  destruct (Z.ltb_spec b0 0x80).
  { apply (decoded_keep b0 [b0]); [apply encode_char_1; lia|].
    apply IH. simpl. lia. }
  destruct (Z.ltb_spec b0 0xC2); [exact S1|].
  destruct (Z.ltb_spec b0 0xE0).
  { destruct r1 as [|b1 r2]; [apply decoded_end|].
    unfold is_continuation.
    destruct (Z.leb_spec 0x80 b1); [|exact S1].
    destruct (Z.leb_spec b1 0xBF); [|exact S1]. cbn [andb].
    apply (decoded_keep _ [b0; b1]); [apply encode_char_2; lia|].
    apply IH. simpl. lia. }
  destruct (Z.ltb_spec b0 0xF0).
  { destruct r1 as [|b1 r2]; [apply decoded_end|].
    destruct (second_of_3 b0 b1) eqn:E2; [|exact S1].
    destruct r2 as [|b2 r3]; [apply decoded_end|].
    assert (S2 : decoded (on_error Ignore (utf8_decode Ignore (b2 :: r3)))
                         (b0 :: b1 :: b2 :: r3)).
    { apply (decoded_skip [b0; b1]). apply IH. simpl. lia. }
    revert E2. unfold second_of_3, is_continuation.
    destruct (Z.leb_spec 0x80 b1); [|discriminate].
    destruct (Z.leb_spec b1 0xBF); [|discriminate]. cbn [andb].
    intros E2.
    destruct (Z.leb_spec 0x80 b2); [|exact S2].
    destruct (Z.leb_spec b2 0xBF); [|exact S2]. cbn [andb].
    apply (decoded_keep _ [b0; b1; b2]); [|apply IH; simpl; lia].
    apply encode_char_3; try lia; intros ->; revert E2;
      destruct (Z.ltb_spec b1 0xA0); cbn; try discriminate; lia. }
  destruct (Z.ltb_spec b0 0xF5); [|exact S1].
  destruct r1 as [|b1 r2]; [apply decoded_end|].
  destruct (second_of_4 b0 b1) eqn:E2; [|exact S1].
  destruct r2 as [|b2 r3]; [apply decoded_end|].
  assert (S2 : decoded (on_error Ignore (utf8_decode Ignore (b2 :: r3)))
                       (b0 :: b1 :: b2 :: r3)).
  { apply (decoded_skip [b0; b1]). apply IH. simpl. lia. }
  revert E2. unfold second_of_4, is_continuation.
  destruct (Z.leb_spec 0x80 b1); [|discriminate].
  destruct (Z.leb_spec b1 0xBF); [|discriminate]. cbn [andb].
  intros E2.
  destruct (Z.leb_spec 0x80 b2); [|exact S2].
  destruct (Z.leb_spec b2 0xBF); [|exact S2]. cbn [andb].
  destruct r3 as [|b3 r4]; [apply decoded_end|].
  assert (S3 : decoded (on_error Ignore (utf8_decode Ignore (b3 :: r4)))
                       (b0 :: b1 :: b2 :: b3 :: r4)).
  { apply (decoded_skip [b0; b1; b2]). apply IH. simpl. lia. }
  destruct (Z.leb_spec 0x80 b3); [|exact S3].
  destruct (Z.leb_spec b3 0xBF); [|exact S3]. cbn [andb].
  apply (decoded_keep _ [b0; b1; b2; b3]); [|apply IH; simpl; lia].
  apply encode_char_4; try lia; intros ->; revert E2;
    destruct (Z.ltb_spec b1 0x90); cbn; try discriminate; lia.
Qed.

Lemma encodable_iff (s : pystr) :
  encodable s = true <-> exists b, utf8_encode s = Some b.
Proof.
  induction s as [|c s IH]; cbn [encodable forallb utf8_encode].
  - split; eauto.
  - unfold encodable_char at 1. fold (encodable s).
    destruct (utf8_encode_char c) as [a|]; cbn [andb].
    + rewrite IH. split; intros [b Hb].
      * rewrite Hb. eauto.
      * destruct (utf8_encode s); [eauto|discriminate].
    + split; [discriminate|intros [b Hb]; discriminate].
Qed.

Lemma translate_newlines_clean (s : pystr) :
  no_cr (translate_newlines s) = true /\
  (encodable s = true -> encodable (translate_newlines s) = true).
Proof.
  induction s as [s IH] using list_length_ind.
  destruct s as [|c r]; [split; reflexivity|].
  assert (Hr : (length r < length (c :: r))%nat) by (simpl; lia).
  cbn [translate_newlines].
  destruct (Z.eqb_spec c CR) as [->|Hc].
  - destruct r as [|d r'].
    + split; reflexivity.
    + destruct (d =? LF).
      * destruct (IH r') as [H1 H2]; [simpl; lia|].
        split; [exact H1|].
        cbn [encodable forallb]. intros H.
        apply andb_true_iff in H as [_ H]. apply andb_true_iff in H as [_ H].
        cbn. now apply H2.
      * destruct (IH _ Hr) as [H1 H2]. split; [exact H1|].
        cbn [encodable forallb]. intros H.
        apply andb_true_iff in H as [_ H]. cbn. now apply H2.
  - destruct (IH _ Hr) as [H1 H2]. split.
    + cbn [no_cr forallb]. fold (no_cr (translate_newlines r)).
      rewrite H1. destruct (Z.eqb_spec c CR); [contradiction|reflexivity].
    + cbn [encodable forallb]. intros H.
      apply andb_true_iff in H as [Hc' H]. rewrite Hc'. cbn. now apply H2.
Qed.

(** Reading with [errors='ignore'] never fails, and gives a clean text. *)
Lemma read_ignore_clean (b : bytes) :
  exists t, read_text Ignore b = Some t /\ clean t = true.
Proof.
  destruct (decode_ignore_decoded b) as (s & b' & Hd & He & _).
  exists (translate_newlines s). unfold read_text. rewrite Hd. split.
  - reflexivity.
  - destruct (translate_newlines_clean s) as [H1 H2]. unfold clean.
    rewrite H1, H2; [reflexivity|]. apply encodable_iff. eauto.
Qed.

Lemma clean_read_written (e : errors) (s : pystr) :
  clean s = true ->
  exists b, utf8_encode s = Some b /\ read_text e b = Some s.
Proof.
  unfold clean. intros H. apply andb_true_iff in H as [H1 H2].
  apply encodable_iff in H2 as [b Hb]. exists b. split; [assumption|].
  now apply read_written.
Qed.

(** ** The disk *)

Lemma find_entry_set_same n x es : find_entry n (set_entry n x es) = Some x.
Proof.
  induction es as [|[m y] es IH]; cbn [set_entry find_entry].
  - now rewrite str_eqb_refl.
  - destruct (str_eqb m n) eqn:E; cbn [find_entry]; rewrite E;
      [reflexivity|assumption].
Qed.

Lemma find_entry_set_other m n x es :
  m <> n -> find_entry m (set_entry n x es) = find_entry m es.
Proof.
  intros Hmn. induction es as [|[k y] es IH]; cbn [set_entry find_entry].
  - assert (str_eqb n m = false) as -> by (apply str_eqb_neq; congruence).
    reflexivity.
  - destruct (str_eqb k n) eqn:E; cbn [find_entry].
    + apply str_eqb_eq in E. subst k.
      assert (str_eqb n m = false) as -> by (apply str_eqb_neq; congruence).
      reflexivity.
    + destruct (str_eqb k m); [reflexivity|assumption].
Qed.

Lemma find_entry_app m es es' :
  find_entry m (es ++ es')
  = match find_entry m es with Some y => Some y | None => find_entry m es' end.
Proof.
  induction es as [|[k y] es IH]; cbn [app find_entry]; [reflexivity|].
  destruct (str_eqb k m); [reflexivity|assumption].
Qed.

Lemma set_entry_new n x es :
  find_entry n es = None -> set_entry n x es = es ++ [(n, x)].
Proof.
  induction es as [|[k y] es IH]; cbn [set_entry find_entry app];
    [reflexivity|].
  destruct (str_eqb k n); [discriminate|]. intros H. f_equal. now apply IH.
Qed.

Lemma set_entry_twice n x y es :
  set_entry n y (set_entry n x es) = set_entry n y es.
Proof.
  induction es as [|[k z] es IH]; cbn [set_entry].
  - now rewrite str_eqb_refl.
  - destruct (str_eqb k n) eqn:E; cbn [set_entry]; rewrite E;
      [reflexivity|now f_equal].
Qed.

Lemma is_prefix_iff (p q : path) :
  is_prefix p q = true <-> exists r, q = p ++ r.
Proof.
  revert q; induction p as [|n p IH]; intros q; cbn [is_prefix].
  - split; [intros _; exists q|]; reflexivity.
  - destruct q as [|m q].
    + split; [discriminate|intros [r Hr]; discriminate].
    + rewrite andb_true_iff, str_eqb_eq, IH. split.
      * intros [-> [r ->]]. exists r. reflexivity.
      * intros [r Hr]. cbn in Hr. injection Hr as -> ->. eauto.
Qed.

Lemma is_prefix_app (p r : path) : is_prefix p (p ++ r) = true.
Proof. apply is_prefix_iff. eauto. Qed.

Lemma is_prefix_refl (p : path) : is_prefix p p = true.
Proof. apply is_prefix_iff. exists []. now rewrite app_nil_r. Qed.

Lemma is_prefix_trans (p q r : path) :
  is_prefix p q = true -> is_prefix q r = true -> is_prefix p r = true.
Proof.
  rewrite !is_prefix_iff. intros [a ->] [b ->]. exists (a ++ b).
  now rewrite app_assoc.
Qed.

Lemma stat_app (p r : path) (t : node) :
  stat (p ++ r) t
  = match stat p t with inl y => stat r y | inr e => inr e end.
Proof.
  revert t; induction p as [|n p IH]; intros t; cbn [app stat];
    [reflexivity|].
  destruct t as [b|es]; [reflexivity|].
  destruct (find_entry n es); [apply IH|reflexivity].
Qed.

Lemma put_stat_same (p : path) (x t t' : node) :
  put p x t = Some t' -> stat p t' = inl x.
Proof.
  revert t t'; induction p as [|n p IH]; intros t t'; cbn [put stat].
  - now intros [= ->].
  - destruct t as [b|es]; [discriminate|].
    destruct (find_entry n es) as [c|] eqn:E.
    + destruct (put p x c) as [c'|] eqn:Ec; [|discriminate].
      intros [= <-]. rewrite find_entry_set_same. now apply (IH c).
    + destruct p; [|discriminate]. intros [= <-].
      rewrite find_entry_app, E. cbn [find_entry].
      now rewrite str_eqb_refl.
Qed.

Lemma put_stat_other (p q : path) (x t t' : node) :
  put p x t = Some t' ->
  is_prefix p q = false -> is_prefix q p = false ->
  stat q t' = stat q t.
Proof.
  revert q t t'; induction p as [|n p IH]; intros q t t';
    cbn [put is_prefix]; [discriminate|].
  destruct t as [b|es]; [discriminate|].
  destruct q as [|m q]; [discriminate|]. cbn [is_prefix stat].
  destruct (str_eqb n m) eqn:Enm.
  - apply str_eqb_eq in Enm. subst m. rewrite str_eqb_refl. cbn [andb].
    destruct (find_entry n es) as [c|] eqn:E.
    + destruct (put p x c) as [c'|] eqn:Ec; [|discriminate].
      intros [= <-] H1 H2. rewrite find_entry_set_same. now apply (IH q c).
    + destruct p; [|discriminate]. discriminate.
  - intros Hput _ _.
    assert (Hmn : m <> n) by (apply str_eqb_neq in Enm; congruence).
    destruct (find_entry n es) as [c|] eqn:E.
    + destruct (put p x c) as [c'|]; [|discriminate].
      injection Hput as <-. now rewrite find_entry_set_other.
    + destruct p; [|discriminate]. injection Hput as <-.
      rewrite find_entry_app. cbn [find_entry]. rewrite Enm.
      now destruct (find_entry m es).
Qed.

Lemma put_exists (p : path) (x y t : node) :
  stat p t = inl y -> exists t', put p x t = Some t'.
Proof.
  revert t; induction p as [|n p IH]; intros t; cbn [put stat]; [eauto|].
  destruct t as [b|es]; [discriminate|].
  destruct (find_entry n es) as [c|]; [|discriminate].
  intros H. destruct (IH c H) as [c' ->]. eauto.
Qed.

Lemma put_app (p r : path) (x y t : node) :
  stat p t = inl y ->
  put (p ++ r) x t
  = match put r x y with Some y' => put p y' t | None => None end.
Proof.
  revert t; induction p as [|n p IH]; intros t; cbn [app put stat].
  - intros [= ->]. now destruct (put r x y).
  - destruct t as [b|es]; [discriminate|].
    destruct (find_entry n es) as [c|]; [|discriminate].
    intros H. rewrite (IH c H). now destruct (put r x y).
Qed.

Lemma put_twice (p : path) (x y t t1 : node) :
  put p x t = Some t1 -> put p y t1 = put p y t.
Proof.
  revert t t1; induction p as [|n p IH]; intros t t1; cbn [put].
  - reflexivity.
  - destruct t as [b|es]; [discriminate|].
    destruct (find_entry n es) as [c|] eqn:E.
    + destruct (put p x c) as [c'|] eqn:Ec; [|discriminate].
      intros [= <-]. cbn [put]. rewrite find_entry_set_same.
      rewrite (IH c c' Ec). destruct (put p y c); [|reflexivity].
      now rewrite set_entry_twice.
    + destruct p; [|discriminate]. intros [= <-]. cbn [put].
      rewrite find_entry_app, E. cbn [find_entry]. rewrite str_eqb_refl.
      rewrite <- (set_entry_new n x es E), set_entry_twice.
      now rewrite set_entry_new.
Qed.

(** ** Documents *)

Lemma update_all_app (a b : list (path * value)) (w : world) :
  update_all (a ++ b) w = (update_all a ;; update_all b) w.
Proof.
  revert w; induction a as [|[p c] a IH]; intros w; cbn [app update_all].
  - reflexivity.
  - unfold bind. destruct (update_or_create_file p c w) as [[[]|e] w1].
    + rewrite IH. reflexivity.
    + reflexivity.
Qed.

Lemma recurse_structure_cons (n : pystr) (c : value)
      (rest : list (pystr * value)) (p : path) :
  recurse_structure (VDict ((n, c) :: rest)) p
  = (match c with
     | VDict _ => recurse_structure c (os_path_join p n)
     | _ => update_or_create_file (os_path_join p n) c
     end ;; recurse_structure (VDict rest) p).
Proof. reflexivity. Qed.

Lemma targets_cons (n : pystr) (c : value) (rest : list (pystr * value))
      (p : path) :
  targets (VDict ((n, c) :: rest)) p
  = match c with
    | VDict _ => targets c (os_path_join p n)
    | _ => [(os_path_join p n, c)]
    end ++ targets (VDict rest) p.
Proof. destruct c; reflexivity. Qed.

(** On a mapping, [recurse_structure] is the sequence of its calls. *)
Lemma recurse_structure_calls (items : list (pystr * value)) (p : path)
      (w : world) :
  recurse_structure (VDict items) p w
  = update_all (targets (VDict items) p) w.
Proof.
  revert p w.
  enough (H : forall v, match v with
                        | VDict _ => forall p w,
                            recurse_structure v p w
                            = update_all (targets v p) w
                        | _ => True
                        end) by exact (H (VDict items)).
  induction v as [v Hv|its IH] using value_nested_ind.
  { destruct v; try exact I. exfalso. now apply (Hv items0). }
  induction its as [|[n c] rest IHrest]; intros p w; [reflexivity|].
  rewrite recurse_structure_cons, targets_cons, update_all_app.
  inversion IH as [|? ? Hc Hrest]; subst.
  specialize (IHrest Hrest). cbn [snd] in Hc.
  unfold bind.
  destruct c.
  6: { rewrite Hc.
       destruct (update_all _ w) as [[[]|e] w1]; [apply IHrest|reflexivity]. }
  all: cbn [update_all]; unfold bind;
    destruct (update_or_create_file _ _ w) as [[[]|e] w1];
    [apply IHrest|reflexivity].
Qed.

(** ** How the reconciler changes the disk *)

Lemma steps_trans P d1 d2 d3 :
  steps P d1 d2 -> steps P d2 d3 -> steps P d1 d3.
Proof.
  induction 1 as [|k p d d1 d2 Hp Hs _ IH]; [auto|].
  intros H3. eapply steps_cons; eauto.
Qed.

Lemma steps_weaken (P Q : change -> path -> Prop) d d' :
  (forall k p, P k p -> Q k p) -> steps P d d' -> steps Q d d'.
Proof.
  intros HPQ. induction 1 as [|k p d d1 d2 Hp Hs _ IH]; [constructor|].
  eapply steps_cons; eauto.
Qed.

Lemma steps_one (P : change -> path -> Prop) k p d d' :
  P k p -> step k p d d' -> steps P d d'.
Proof. intros Hp Hs. eapply steps_cons; eauto. constructor. Qed.

Lemma path_eq_dec (p q : path) : {p = q} + {p <> q}.
Proof. apply list_eq_dec. apply list_eq_dec. apply Z.eq_dec. Qed.

(** What exists beside the changed path is not touched. *)
Lemma step_frame k p q d d' y :
  step k p d d' -> stat q d = inl y -> is_prefix q p = false ->
  stat q d' = inl y.
Proof.
  intros Hs Hq Hqp.
  assert (Hp : stat p d = inr ENOENT \/ exists b, stat p d = inl (File b)).
  { destruct Hs; eauto. }
  assert (Hput : exists x, put p x d = Some d').
  { destruct Hs; eauto. }
  clear Hs. destruct Hput as [x Hput].
  assert (Hpq : is_prefix p q = false).
  { destruct (is_prefix p q) eqn:E; [|reflexivity].
    apply is_prefix_iff in E as [r ->]. rewrite stat_app in Hq.
    destruct Hp as [Hp|[b Hp]]; rewrite Hp in Hq; [discriminate|].
    destruct r; [|discriminate].
    rewrite app_nil_r, is_prefix_refl in Hqp. discriminate. }
  rewrite (put_stat_other _ _ _ _ _ Hput Hpq Hqp); assumption.
Qed.

(** A file is touched only when it is rewritten. *)
Lemma step_file k p q d d' b0 :
  step k p d d' -> stat q d = inl (File b0) ->
  (k = Rewritten -> q <> p) ->
  stat q d' = inl (File b0).
Proof.
  intros Hs Hq Hne. apply (step_frame k p q d d'); try assumption.
  destruct (is_prefix q p) eqn:E; [|reflexivity].
  apply is_prefix_iff in E as [r Hr].
  assert (Hp : stat p d = inr ENOENT \/
               (k = Rewritten /\ exists b, stat p d = inl (File b))).
  { destruct Hs; eauto. }
  subst p. rewrite stat_app, Hq in Hp.
  destruct r as [|n r].
  - rewrite app_nil_r in Hne.
    destruct Hp as [Hp|[Hk _]]; [discriminate|now destruct Hne].
  - destruct Hp as [Hp|[_ [b Hp]]]; discriminate.
Qed.

(** A file stays a file. *)
Lemma step_is_file k p q d d' :
  step k p d d' -> is_file q d -> is_file q d'.
Proof.
  intros Hs [b0 Hq]. destruct (path_eq_dec q p) as [->|Hne].
  - destruct Hs as [p d d' x Hp _|p d d' b b' _ Hput].
    + rewrite Hp in Hq. discriminate.
    + exists b'. now apply (put_stat_same _ _ d).
  - exists b0. apply (step_file k p q d d'); auto.
Qed.

Lemma steps_frame (P : change -> path -> Prop) q d d' y :
  steps P d d' -> (forall k p, P k p -> is_prefix q p = false) ->
  stat q d = inl y -> stat q d' = inl y.
Proof.
  intros Hs HP. induction Hs as [|k p d d1 d2 Hp Hs _ IH]; [auto|].
  intros Hq. apply IH. apply (step_frame k p q d d1); eauto.
Qed.

Lemma steps_file (P : change -> path -> Prop) q d d' b0 :
  steps P d d' -> (forall p, P Rewritten p -> q <> p) ->
  stat q d = inl (File b0) -> stat q d' = inl (File b0).
Proof.
  intros Hs HP. induction Hs as [|k p d d1 d2 Hp Hs _ IH]; [auto|].
  intros Hq. apply IH. apply (step_file k p q d d1); auto.
  intros ->. auto.
Qed.

Lemma steps_is_file (P : change -> path -> Prop) q d d' :
  steps P d d' -> is_file q d -> is_file q d'.
Proof.
  induction 1 as [|k p d d1 d2 Hp Hs _ IH]; [auto|].
  intros Hq. apply IH. now apply (step_is_file k p q d d1).
Qed.

Lemma evolves_ret P {A} (a : A) : evolves P (ret a).
Proof. intros w. constructor. Qed.

Lemma evolves_bind P {A B} (m : M A) (k : A -> M B) :
  evolves P m -> (forall a, evolves P (k a)) -> evolves P (bind m k).
Proof.
  intros Hm Hk w. unfold bind. specialize (Hm w).
  destruct (m w) as [[a|e] w1]; cbn [snd] in *; [|assumption].
  eapply steps_trans; [exact Hm|apply Hk].
Qed.

Lemma evolves_try P (m : M unit) (e : exn) :
  evolves P m -> evolves P (try_except_pass m e).
Proof.
  intros Hm w. unfold try_except_pass. specialize (Hm w).
  destruct (m w) as [[a|e'] w1]; cbn [snd] in *; [assumption|].
  destruct (exn_eqb e e'); assumption.
Qed.

Lemma evolves_weaken (P Q : change -> path -> Prop) {A} (m : M A) :
  (forall k p, P k p -> Q k p) -> evolves P m -> evolves Q m.
Proof. intros HPQ Hm w. eapply steps_weaken; eauto. Qed.

Lemma evolves_exists P p : evolves P (os_path_exists p).
Proof. intros w. constructor. Qed.

Lemma evolves_logging P r : evolves P (logging_info r).
Proof. intros w. constructor. Qed.

Lemma evolves_read P p e : evolves P (open_read p e).
Proof.
  intros w. unfold open_read.
  destruct (stat p (disk w)) as [[b|es]|[]]; try constructor.
  destruct (read_text e b); constructor.
Qed.

Lemma evolves_count_lines P c : evolves P (count_lines c).
Proof. intros w. destruct c; constructor. Qed.

Lemma evolves_mkdir p : evolves (creates p) (os_mkdir p).
Proof.
  intros w. unfold os_mkdir.
  destruct (stat p (disk w)) as [y|[]] eqn:E; try constructor.
  destruct (put p (Dir []) (disk w)) as [d|] eqn:Ep; [|constructor].
  apply (steps_one _ Created p); [now split|].
  now apply (step_create _ _ _ (Dir [])).
Qed.

Lemma evolves_open_w p : evolves (writes_to p) (open_w p).
Proof.
  intros w. unfold open_w.
  destruct (stat p (disk w)) as [[b|es]|[]] eqn:E; try constructor;
    (destruct (put p (File []) (disk w)) as [d|] eqn:Ep; [|constructor]).
  - apply (steps_one _ Rewritten p); [reflexivity|].
    now apply (step_rewrite _ _ _ b []).
  - apply (steps_one _ Created p); [reflexivity|].
    now apply (step_create _ _ _ (File [])).
Qed.

Lemma evolves_f_write p c : evolves (writes_to p) (f_write p c).
Proof.
  intros w. unfold f_write. destruct c; try constructor.
  destruct (utf8_encode s) as [b|]; [|constructor].
  destruct (stat p (disk w)) as [[b0|es]|[]] eqn:E; try constructor.
  destruct (put p (File b) (disk w)) as [d|] eqn:Ep; [|constructor].
  apply (steps_one _ Rewritten p); [reflexivity|].
  now apply (step_rewrite _ _ _ b0 b).
Qed.

Lemma evolves_write p c : evolves (writes_to p) (open_write p c).
Proof.
  apply evolves_bind; [apply evolves_open_w|intros; apply evolves_f_write].
Qed.

Lemma is_prefix_dirname (p : path) : is_prefix (os_path_dirname p) p = true.
Proof.
  unfold os_path_dirname. destruct p as [|n p]; [reflexivity|].
  apply is_prefix_iff. exists [last (n :: p) []].
  apply app_removelast_last. discriminate.
Qed.

Lemma evolves_makedirs_from_last (rname : list name) :
  evolves (creates_above (rev rname)) (makedirs_from_last rname).
Proof.
  induction rname as [|tail rhead IH]; cbn [makedirs_from_last].
  - eapply evolves_weaken; [|apply evolves_mkdir].
    intros k p [-> ->]. now split.
  - apply evolves_bind; [apply evolves_exists|intros head_exists].
    apply evolves_bind.
    + destruct (negb head_exists); [|apply evolves_ret].
      apply evolves_try. eapply evolves_weaken; [|exact IH].
      intros k p [-> Hp]. split; [reflexivity|]. cbn [rev].
      eapply is_prefix_trans; [exact Hp|]. apply is_prefix_app.
    + intros _. eapply evolves_weaken; [|apply evolves_mkdir].
      intros k p [-> ->]. split; [reflexivity|apply is_prefix_refl].
Qed.

Lemma evolves_makedirs (p : path) :
  evolves (creates_above p) (os_makedirs p).
Proof.
  unfold os_makedirs. generalize (evolves_makedirs_from_last (rev p)).
  now rewrite rev_involutive.
Qed.

Lemma evolves_update_or_create_file (p : path) (c : value) :
  evolves (call_changes p) (update_or_create_file p c).
Proof.
  assert (Hw : evolves (call_changes p) (open_write p c)).
  { eapply evolves_weaken; [|apply evolves_write].
    intros [] p' ->; cbn; [apply is_prefix_refl|reflexivity]. }
  unfold update_or_create_file.
  apply evolves_bind; [apply evolves_exists|intros dir_exists].
  apply evolves_bind.
  { destruct (negb dir_exists); [|apply evolves_ret].
    apply evolves_bind; [|intros; apply evolves_logging].
    eapply evolves_weaken; [|apply evolves_makedirs].
    intros k p' [-> Hp']. cbn. eapply is_prefix_trans; [exact Hp'|].
    apply is_prefix_dirname. }
  intros _. apply evolves_bind; [apply evolves_exists|intros file_exists].
  destruct file_exists.
  - apply evolves_bind; [apply evolves_read|intros old_content].
    destruct (py_ne old_content c); [|apply evolves_ret].
    apply evolves_bind; [exact Hw|intros _].
    apply evolves_bind; [apply evolves_count_lines|intros].
    apply evolves_logging.
  - apply evolves_bind; [exact Hw|intros; apply evolves_logging].
Qed.

Lemma calls_change_leads_to calls k p' :
  calls_change calls k p' -> leads_to calls p'.
Proof.
  intros (call & Hin & H). exists call. split; [assumption|].
  destruct k; cbn in H; [assumption|]. subst. apply is_prefix_refl.
Qed.

Lemma evolves_update_all (calls : list (path * value)) :
  evolves (calls_change calls) (update_all calls).
Proof.
  induction calls as [|[p c] rest IH]; cbn [update_all];
    [apply evolves_ret|].
  apply evolves_bind.
  - eapply evolves_weaken; [|apply evolves_update_or_create_file].
    intros k p' Hp'. exists (p, c). split; [now left|assumption].
  - intros _. eapply evolves_weaken; [|exact IH].
    intros k p' (call & Hin & Hp'). exists call.
    split; [now right|assumption].
Qed.

(** Above a file that the document names there are only paths of the
    document and the way to the root it is applied to. *)
Lemma leads_to_doc_paths (doc : value) (root q : path) :
  leads_to (targets doc root) q ->
  is_prefix q root = true \/ In q (doc_paths doc root).
Proof.
  revert root q.
  induction doc as [v Hv|items IH] using value_nested_ind; intros root q.
  { destruct v; try (intros (call & [] & _)). exfalso. now apply (Hv items). }
  intros (call & Hin & Hq). cbn [targets doc_paths] in *.
  apply in_flat_map in Hin as ([n c] & Hitem & Hcall). cbn [fst snd] in Hcall.
  rewrite Forall_forall in IH. specialize (IH _ Hitem). cbn [snd] in IH.
  assert (Hstep : is_prefix q (os_path_join root n) = true ->
                  is_prefix q root = true \/ q = os_path_join root n).
  { unfold os_path_join. rewrite !is_prefix_iff. intros [r Hr].
    destruct r as [|m r] using rev_ind.
    - right. now rewrite app_nil_r in Hr.
    - left. rewrite app_assoc in Hr. apply app_inj_tail in Hr as [-> _].
      eauto. }
  assert (Hhere : is_prefix q (os_path_join root n) = true ->
                  is_prefix q root = true \/
                  In q (flat_map
                          (fun item : pystr * value =>
                             os_path_join root (fst item)
                             :: doc_paths (snd item)
                                  (os_path_join root (fst item))) items)).
  { intros H. destruct (Hstep H) as [H1| ->]; [now left|right].
    apply in_flat_map. exists (n, c). split; [assumption|now left]. }
  destruct c;
    try (destruct Hcall as [<-|[]]; cbn [fst] in Hq; now apply Hhere).
  destruct (IH (os_path_join root n) q) as [H|H].
  - exists call. split; assumption.
  - now apply Hhere.
  - right. apply in_flat_map. exists (n, VDict items0).
    split; [assumption|now right].
Qed.

(** ** Successful calls *)

Lemma bind_ok {A B} (m : M A) (k : A -> M B) w b w' :
  bind m k w = (inl b, w') ->
  exists a w1, m w = (inl a, w1) /\ k a w1 = (inl b, w').
Proof.
  unfold bind. destruct (m w) as [[a|e] w1]; [eauto|discriminate].
Qed.

Lemma exists_ok (p : path) w (b : bool) w' :
  os_path_exists p w = (inl b, w') ->
  w' = w /\ b = match stat p (disk w) with inl _ => true | inr _ => false end.
Proof. unfold os_path_exists. intros [= <- <-]. split; reflexivity. Qed.

Lemma open_read_ok (p : path) (e : errors) w s w' :
  open_read p e w = (inl s, w') ->
  w' = w /\ exists b, stat p (disk w) = inl (File b) /\ read_text e b = Some s.
Proof.
  unfold open_read. destruct (stat p (disk w)) as [[b|es]|[]];
    try discriminate.
  destruct (read_text e b) as [t|] eqn:E; [|discriminate].
  intros [= <- <-]. eauto.
Qed.

Lemma open_w_ok (p : path) w w' :
  open_w p w = (inl tt, w') ->
  stat p (disk w') = inl (File []) /\
  put p (File []) (disk w) = Some (disk w') /\
  writes w' = writes w ++ [p] /\ log w' = log w.
Proof.
  unfold open_w.
  destruct (stat p (disk w)) as [[b|es]|[]]; try discriminate;
    (destruct (put p (File []) (disk w)) as [d|] eqn:E; [|discriminate]);
    intros [= <-]; cbn; repeat split; now apply (put_stat_same _ _ (disk w)).
Qed.

Lemma f_write_ok (p : path) (c : value) w w' :
  f_write p c w = (inl tt, w') ->
  exists s b, c = VStr s /\ utf8_encode s = Some b /\
              stat p (disk w') = inl (File b) /\
              put p (File b) (disk w) = Some (disk w') /\
              writes w' = writes w /\ log w' = log w.
Proof.
  unfold f_write. destruct c; try discriminate.
  destruct (utf8_encode s) as [b|] eqn:Eb; [|discriminate].
  destruct (stat p (disk w)) as [[b0|es]|[]]; try discriminate.
  destruct (put p (File b) (disk w)) as [d|] eqn:E; [|discriminate].
  intros [= <-]. exists s, b. cbn. repeat split; try assumption.
  now apply (put_stat_same _ _ (disk w)).
Qed.

Lemma open_write_ok (p : path) (c : value) w w' :
  open_write p c w = (inl tt, w') ->
  exists s b, c = VStr s /\ utf8_encode s = Some b /\
              stat p (disk w') = inl (File b) /\
              put p (File b) (disk w) = Some (disk w') /\
              writes w' = writes w ++ [p] /\ log w' = log w.
Proof.
  unfold open_write. intros H. apply bind_ok in H as ([] & w1 & H1 & H2).
  apply open_w_ok in H1 as (_ & Hp1 & Hw1 & Hl1).
  apply f_write_ok in H2 as (s & b & -> & Hb & Hs & Hp2 & Hw2 & Hl2).
  exists s, b. repeat split; try assumption; try congruence.
  now rewrite <- (put_twice _ _ _ _ _ Hp1).
Qed.

Lemma logging_info_ok (r : record) w w' :
  logging_info r w = (inl tt, w') ->
  disk w' = disk w /\ writes w' = writes w /\ log w' = log w ++ [r].
Proof. unfold logging_info. intros [= <-]. repeat split. Qed.

Lemma py_ne_false (old : pystr) (c : value) :
  py_ne old c = false -> c = VStr old.
Proof.
  destruct c; try discriminate. cbn. intros H.
  apply negb_false_iff, str_eqb_eq in H. congruence.
Qed.

(** A call that returns leaves the file in place with the given text. *)
Lemma update_or_create_file_ok (p : path) (c : value) w w' :
  update_or_create_file p c w = (inl tt, w') ->
  exists s, c = VStr s /\ holds_text p s (disk w').
Proof.
  unfold update_or_create_file. intros H.
  apply bind_ok in H as (dir_exists & w1 & _ & H).
  apply bind_ok in H as ([] & w2 & _ & H).
  apply bind_ok in H as (file_exists & w3 & He & H).
  apply exists_ok in He as [-> ->].
  destruct (stat p (disk w2)) as [y|e] eqn:Ep.
  - apply bind_ok in H as (old & w4 & Hr & H).
    apply open_read_ok in Hr as (-> & b0 & Hb0 & Hold).
    destruct (py_ne old c) eqn:Ene.
    + apply bind_ok in H as ([] & w5 & Hw & H).
      apply open_write_ok in Hw as (s & b & -> & Hb & Hs & _).
      apply bind_ok in H as (n & w6 & Hn & H).
      cbn in Hn. injection Hn as <- <-.
      apply logging_info_ok in H as (Hd & _).
      exists s. split; [reflexivity|]. exists b. rewrite Hd. auto.
    + injection H as <-. apply py_ne_false in Ene as ->.
      exists old. split; [reflexivity|]. exists b0. auto.
  - apply bind_ok in H as ([] & w5 & Hw & H).
    apply open_write_ok in Hw as (s & b & -> & Hb & Hs & _).
    apply logging_info_ok in H as (Hd & _).
    exists s. split; [reflexivity|]. exists b. rewrite Hd. auto.
Qed.

Lemma holds_text_is_file p s d : holds_text p s d -> is_file p d.
Proof. intros (b & Hb & _). now exists b. Qed.

(** After a run of calls that returns, every file they name exists. *)
Lemma update_all_ok_files (calls : list (path * value)) w w' :
  update_all calls w = (inl tt, w') ->
  forall call, In call calls -> is_file (fst call) (disk w').
Proof.
  revert w; induction calls as [|[p c] rest IH]; intros w H call;
    [intros []|].
  cbn [update_all] in H. apply bind_ok in H as ([] & w1 & H1 & H2).
  intros [<-|Hin]; [|now apply (IH w1)].
  apply update_or_create_file_ok in H1 as (s & _ & Hs).
  apply holds_text_is_file in Hs. cbn [fst].
  generalize (evolves_update_all rest w1). rewrite H2. cbn [snd].
  intros Hsteps. now apply (steps_is_file _ _ _ _ Hsteps).
Qed.

Lemma is_file_below_is_dir (p r : path) (n : name) (d : node) :
  is_file (p ++ n :: r) d -> is_dir p d.
Proof.
  intros [b Hb]. rewrite stat_app in Hb. unfold is_dir.
  destruct (stat p d) as [[b0|es]|e]; cbn in Hb; try discriminate.
  now exists es.
Qed.

(** ** Shapes of documents *)

(** ** C4: what the document does not name *)

(** C4.  Reconciliation never deletes or modifies what the
    document does not name.  Take any entry [q] of the disk, file or
    directory, that is not on the way to the target root and whose path is
    not a path of the document, whose keys are entry names.  After
    [update_files_from_json], whether it returned or raised, [q] is still
    there with the same content: the same bytes for a file, the same
    entries at every depth for a directory. *)
Theorem reconcile_keeps_unnamed_entries
        (directory_path : path) (new_structure : value) (w : world)
        (q : path) (y : node) :
  valid_keys new_structure = true ->
  stat q (disk w) = inl y ->
  is_prefix q directory_path = false ->
  ~ In q (doc_paths new_structure directory_path) ->
  stat q (disk (snd (update_files_from_json directory_path
                       (Some new_structure) w))) = inl y.
Proof.
  intros _ Hq Hroot Hdoc. cbn [update_files_from_json].
  destruct new_structure as [| | | | |items];
    try (cbn [recurse_structure]; exact Hq).
  rewrite recurse_structure_calls.
  generalize (evolves_update_all (targets (VDict items) directory_path) w).
  intros Hsteps. apply (steps_frame _ _ _ _ _ Hsteps); [|exact Hq].
  intros k p Hp. apply calls_change_leads_to in Hp.
  destruct (is_prefix q p) eqn:E; [|reflexivity]. exfalso.
  destruct Hp as (call & Hin & Hp).
  destruct (leads_to_doc_paths (VDict items) directory_path q) as [H|H].
  - exists call. split; [assumption|].
    eapply is_prefix_trans; [exact E|exact Hp].
  - congruence.
  - contradiction.
Qed.

(** ** C2: directories of the document *)

Lemma targets_below (items : list (pystr * value)) (p : path)
      (call : path * value) :
  In call (targets (VDict items) p) -> exists n r, fst call = p ++ n :: r.
Proof.
  revert p call.
  enough (H : forall v p call, In call (targets v p) ->
                               exists n r, fst call = p ++ n :: r)
    by (intros p call; apply H).
  induction v as [v Hv|its IH] using value_nested_ind; intros p call.
  { destruct v; try (intros []). exfalso. now apply (Hv items0). }
  cbn [targets]. intros Hin.
  apply in_flat_map in Hin as ([n c] & Hitem & Hcall). cbn [fst snd] in Hcall.
  rewrite Forall_forall in IH. specialize (IH _ Hitem). cbn [snd] in IH.
  destruct c; try (destruct Hcall as [<-|[]]; exists n, []; reflexivity).
  destruct (IH _ _ Hcall) as (m & r & ->). exists n, (m :: r).
  unfold os_path_join. now rewrite <- app_assoc.
Qed.

Lemma has_leaf_targets (items : list (pystr * value)) (p : path) :
  has_leaf (VDict items) = true ->
  exists call, In call (targets (VDict items) p).
Proof.
  revert p.
  enough (H : forall v, match v with
                        | VDict _ => forall p, has_leaf v = true ->
                                               exists call, In call (targets v p)
                        | _ => True
                        end) by exact (H (VDict items)).
  induction v as [v Hv|its IH] using value_nested_ind.
  { destruct v; try exact I. exfalso. now apply (Hv items0). }
  intros p. cbn [has_leaf targets]. intros H.
  apply existsb_exists in H as ([n c] & Hitem & Hc). cbn [snd] in Hc.
  rewrite Forall_forall in IH. specialize (IH _ Hitem). cbn [snd] in IH.
  destruct c.
  6: { destruct (IH (os_path_join p n) Hc) as [call Hcall]. exists call.
       apply in_flat_map. exists (n, VDict items0). split; assumption. }
  all: eexists; apply in_flat_map; eexists (n, _);
    (split; [exact Hitem|left; reflexivity]).
Qed.

Lemma sub_dicts_targets (doc : value) (root q : path) (sub : value) :
  In (q, sub) (sub_dicts doc root) ->
  (exists items, sub = VDict items) /\
  forall call, In call (targets sub q) -> In call (targets doc root).
Proof.
  revert root q sub.
  induction doc as [v Hv|its IH] using value_nested_ind; intros root q sub.
  { destruct v; try (intros []). exfalso. now apply (Hv items). }
  cbn [sub_dicts targets]. intros Hin.
  apply in_flat_map in Hin as ([n c] & Hitem & Hsub). cbn [fst snd] in Hsub.
  rewrite Forall_forall in IH. specialize (IH _ Hitem). cbn [snd] in IH.
  destruct c; try (destruct Hsub).
  - injection H as <- <-. split; [eauto|]. intros call Hcall.
    apply in_flat_map. exists (n, VDict items). split; assumption.
  - destruct (IH _ _ _ H) as [Hd Ht]. split; [assumption|].
    intros call Hcall. apply in_flat_map. exists (n, VDict items).
    split; [assumption|]. cbn [fst snd]. now apply Ht.
Qed.

(** C2 (amended).  For every mapping of the document, nested at any
    depth, that has a string somewhere below it, the directory at its path
    exists once [update_files_from_json] has returned, whatever was missing
    before, and so does every file the document names below it.  The keys
    are entry names.  (A mapping with no string below it creates nothing.) *)
Theorem reconcile_makes_directories_with_files
        (directory_path : path) (new_structure : value) (w w' : world)
        (q : path) (sub : value) :
  valid_keys new_structure = true ->
  update_files_from_json directory_path (Some new_structure) w
  = (inl tt, w') ->
  In (q, sub) (sub_dicts new_structure directory_path) ->
  has_leaf sub = true ->
  is_dir q (disk w') /\
  forall call, In call (targets sub q) -> is_file (fst call) (disk w').
Proof.
  intros _ Hrun Hsub Hleaf. cbn [update_files_from_json] in Hrun.
  destruct (sub_dicts_targets _ _ _ _ Hsub) as [[items ->] Hcalls].
  destruct new_structure as [| | | | |doc_items]; try discriminate.
  rewrite recurse_structure_calls in Hrun.
  assert (Hfiles : forall call, In call (targets (VDict items) q) ->
                                is_file (fst call) (disk w')).
  { intros call Hcall.
    apply (update_all_ok_files _ _ _ Hrun). now apply Hcalls. }
  split; [|exact Hfiles].
  destruct (has_leaf_targets items q Hleaf) as [call Hcall].
  destruct (targets_below _ _ _ Hcall) as (n & r & Hp).
  specialize (Hfiles _ Hcall). rewrite Hp in Hfiles.
  now apply is_file_below_is_dir in Hfiles.
Qed.

(** ** C3: running twice *)

Lemma stat_dirname (p : path) (d y : node) :
  stat p d = inl y -> exists z, stat (os_path_dirname p) d = inl z.
Proof.
  unfold os_path_dirname. destruct p as [|n p]; [eauto|].
  rewrite (app_removelast_last [] (l := n :: p)) at 1 by discriminate.
  rewrite stat_app.
  destruct (stat (removelast (n :: p)) d) as [z|e]; [eauto|discriminate].
Qed.

(** A file whose text is already the content is left alone: nothing is
    written, nothing is logged. *)
Lemma update_or_create_file_same (p : path) (s : pystr) (b : bytes)
      (w : world) :
  stat p (disk w) = inl (File b) -> read_text Strict b = Some s ->
  update_or_create_file p (VStr s) w = (inl tt, w).
Proof.
  intros Hp Hs. destruct (stat_dirname _ _ _ Hp) as [z Hz].
  unfold update_or_create_file, bind, os_path_exists.
  rewrite Hz. cbn [negb ret]. rewrite Hp.
  unfold open_read. rewrite Hp, Hs. cbn [py_ne].
  now rewrite str_eqb_refl.
Qed.

Lemma item_targets_below (root : path) (n : pystr) (c : value)
      (call : path * value) :
  In call (match c with
           | VDict _ => targets c (os_path_join root n)
           | _ => [(os_path_join root n, c)]
           end) ->
  exists r, fst call = root ++ n :: r.
Proof.
  destruct c; try (intros [<-|[]]; exists []; reflexivity).
  intros H. apply targets_below in H as (m & r & ->).
  exists (m :: r). unfold os_path_join. now rewrite <- app_assoc.
Qed.

Lemma unique_keys_targets (doc : value) (root : path) :
  unique_keys doc = true -> NoDup (map fst (targets doc root)).
Proof.
  revert root.
  induction doc as [v Hv|items IH] using value_nested_ind; intros root.
  { destruct v; try (intros _; constructor). exfalso. now apply (Hv items). }
  induction items as [|[n c] rest IHrest]; [intros _; constructor|].
  rewrite targets_cons, map_app. cbn [unique_keys map fst distinct forallb snd].
  intros H. apply andb_true_iff in H as [H Hall].
  apply andb_true_iff in H as [Hn Hrest].
  apply andb_true_iff in Hall as [Hc Hall].
  inversion IH as [|? ? IHc IHr]; subst. cbn [snd] in IHc.
  apply NoDup_app.
  - destruct c; try (repeat constructor; intros []). now apply IHc.
  - apply IHrest; [assumption|]. cbn [unique_keys].
    now rewrite Hrest, Hall.
  - intros p Hp Hp'.
    apply in_map_iff in Hp as (call & <- & Hcall).
    apply in_map_iff in Hp' as (call' & Heq & Hcall').
    apply item_targets_below in Hcall as [r Hr].
    cbn [targets] in Hcall'.
    apply in_flat_map in Hcall' as ([m c'] & Hitem & Hcall').
    assert (Hm : exists r', fst call' = root ++ m :: r').
    { apply (item_targets_below root m c'). cbn [fst snd] in Hcall'.
      destruct c'; exact Hcall'. }
    destruct Hm as [r' Hr']. rewrite Hr, Hr' in Heq.
    apply app_inv_head in Heq. injection Heq as -> _.
    apply negb_true_iff in Hn.
    assert (existsb (str_eqb n) (map fst rest) = true); [|congruence].
    apply existsb_exists. exists n. split; [|apply str_eqb_refl].
    apply in_map_iff. now exists (n, c').
Qed.

(** After a run of calls on distinct paths that returns, every content is
    a string and every file holds its text. *)
Lemma update_all_ok_texts (calls : list (path * value)) w w' :
  update_all calls w = (inl tt, w') ->
  NoDup (map fst calls) ->
  forall call, In call calls ->
               exists s, snd call = VStr s /\ holds_text (fst call) s (disk w').
Proof.
  revert w; induction calls as [|[p c] rest IH]; intros w H Hnd call;
    [intros []|].
  cbn [update_all] in H. apply bind_ok in H as ([] & w1 & H1 & H2).
  cbn [map fst] in Hnd. apply NoDup_cons_iff in Hnd as [Hp Hnd].
  intros [<-|Hin]; [|now apply (IH w1)].
  apply update_or_create_file_ok in H1 as (s & -> & b & Hb & Hs).
  exists s. split; [reflexivity|]. exists b. split; [|exact Hs]. cbn [fst].
  generalize (evolves_update_all rest w1). rewrite H2. cbn [snd].
  intros Hsteps. apply (steps_file _ _ _ _ _ Hsteps); [|exact Hb].
  intros p' (call & Hin & Hp') ->. cbn in Hp'. subst p'.
  apply Hp. apply in_map_iff. now exists call.
Qed.

Lemma update_all_same (calls : list (path * value)) (w : world) :
  (forall call, In call calls ->
                exists s b, snd call = VStr s /\
                            stat (fst call) (disk w) = inl (File b) /\
                            read_text Strict b = Some s) ->
  update_all calls w = (inl tt, w).
Proof.
  induction calls as [|[p c] rest IH]; intros H; [reflexivity|].
  cbn [update_all]. unfold bind.
  destruct (H (p, c)) as (s & b & Hc & Hp & Hs); [now left|].
  cbn [fst snd] in *. subst c.
  rewrite (update_or_create_file_same p s b w Hp Hs).
  apply IH. intros call Hin. apply H. now right.
Qed.

Lemma texts_without_cr_targets (doc : value) (root : path)
      (call : path * value) (s : pystr) :
  texts_without_cr doc = true -> In call (targets doc root) ->
  snd call = VStr s -> no_cr s = true.
Proof.
  revert root call s.
  induction doc as [v Hv|items IH] using value_nested_ind;
    intros root call s.
  { destruct v; try (intros _ []). exfalso. now apply (Hv items). }
  cbn [texts_without_cr targets]. intros Hall Hin Hs.
  apply in_flat_map in Hin as ([n c] & Hitem & Hcall). cbn [fst snd] in Hcall.
  rewrite Forall_forall in IH. specialize (IH _ Hitem). cbn [snd] in IH.
  rewrite forallb_forall in Hall. specialize (Hall _ Hitem). cbn [snd] in Hall.
  destruct c; try (destruct Hcall as [<-|[]]; cbn [snd] in Hs;
                   try discriminate).
  - injection Hs as <-. exact Hall.
  - now apply (IH (os_path_join root n) call s).
Qed.

(** C3 (amended).  A file whose decoded text is already the content is
    not written and nothing is logged for it.  For a document with unique
    keys that are entry names and without carriage returns in its strings,
    once [update_files_from_json] has returned, running it again with the
    same document and target returns too and leaves the world as the first
    run left it: the same disk, no file opened for writing, no record
    logged. *)
Theorem reconcile_twice
        (directory_path : path) (new_structure : value) (w w1 : world) :
  valid_keys new_structure = true ->
  unique_keys new_structure = true ->
  texts_without_cr new_structure = true ->
  update_files_from_json directory_path (Some new_structure) w
  = (inl tt, w1) ->
  (forall p s b w0,
      stat p (disk w0) = inl (File b) -> read_text Strict b = Some s ->
      update_or_create_file p (VStr s) w0 = (inl tt, w0)) /\
  update_files_from_json directory_path (Some new_structure) w1
  = (inl tt, w1).
Proof.
  intros _ Hkeys Hcr Hrun.
  split; [intros p s b w0; apply update_or_create_file_same|].
  cbn [update_files_from_json] in *.
  destruct new_structure as [| | | | |items]; try discriminate.
  rewrite recurse_structure_calls in *.
  apply update_all_same. intros call Hin.
  destruct (update_all_ok_texts _ _ _ Hrun
              (unique_keys_targets _ directory_path Hkeys) call Hin)
    as (s & Hs & b & Hb & Htext).
  exists s, b. repeat split; try assumption.
  destruct Htext as [Henc|Hread]; [|assumption].
  apply read_written; [assumption|].
  now apply (texts_without_cr_targets _ _ _ _ Hcr Hin).
Qed.

(** ** C8: documents of another shape *)

Lemma raises_only_ret S {A} (a : A) : raises_only S (ret a).
Proof. intros w e. discriminate. Qed.

Lemma raises_only_bind S {A B} (m : M A) (k : A -> M B) :
  raises_only S m -> (forall a, raises_only S (k a)) ->
  raises_only S (bind m k).
Proof.
  intros Hm Hk w e. unfold bind. specialize (Hm w).
  destruct (m w) as [[a|e'] w1]; cbn [fst] in *; [apply Hk|].
  intros [= <-]. now apply Hm.
Qed.

Lemma raises_only_bind_never S {A B} (m : M A) (k : A -> M B) :
  raises_only S m -> never_returns m -> raises_only S (bind m k).
Proof.
  intros Hm Hn w e. unfold bind. specialize (Hm w). specialize (Hn w).
  destruct (m w) as [[a|e'] w1]; cbn [fst] in *.
  - now destruct (Hn a).
  - intros [= <-]. now apply Hm.
Qed.

Lemma raises_only_try S (m : M unit) (e : exn) :
  raises_only S m -> raises_only S (try_except_pass m e).
Proof.
  intros Hm w e'. unfold try_except_pass. specialize (Hm w).
  destruct (m w) as [[a|e''] w1]; cbn [fst] in *; [discriminate|].
  destruct (exn_eqb e e''); [discriminate|]. intros [= <-]. now apply Hm.
Qed.

Lemma raises_only_weaken (S T : exn -> bool) {A} (m : M A) :
  (forall e, S e = true -> T e = true) -> raises_only S m ->
  raises_only T m.
Proof. intros HST Hm w e He. apply HST. now apply (Hm w). Qed.

Lemma raises_exists S p : raises_only S (os_path_exists p).
Proof. intros w e. discriminate. Qed.

Lemma raises_logging S r : raises_only S (logging_info r).
Proof. intros w e. discriminate. Qed.

Lemma raises_mkdir p : raises_only io_error (os_mkdir p).
Proof.
  intros w e. unfold os_mkdir.
  destruct (stat p (disk w)) as [y|[]]; cbn [fst];
    try (intros [= <-]; reflexivity).
  destruct (put p (Dir []) (disk w)); cbn [fst];
    [discriminate|intros [= <-]; reflexivity].
Qed.

Lemma raises_makedirs p : raises_only io_error (os_makedirs p).
Proof.
  unfold os_makedirs. generalize (rev p) as rname.
  induction rname as [|tail rhead IH]; cbn [makedirs_from_last].
  - apply raises_mkdir.
  - apply raises_only_bind; [apply raises_exists|intros head_exists].
    apply raises_only_bind; [|intros; apply raises_mkdir].
    destruct (negb head_exists); [|apply raises_only_ret].
    now apply raises_only_try.
Qed.

Lemma raises_read p e : raises_only io_error (open_read p e).
Proof.
  intros w e'. unfold open_read.
  destruct (stat p (disk w)) as [[b|es]|[]]; cbn [fst];
    try (intros [= <-]; reflexivity).
  destruct (read_text e b); cbn [fst];
    [discriminate|intros [= <-]; reflexivity].
Qed.

Lemma raises_open_w p : raises_only io_error (open_w p).
Proof.
  intros w e. unfold open_w.
  destruct (stat p (disk w)) as [[b|es]|[]]; cbn [fst];
    try (intros [= <-]; reflexivity);
    (destruct (put p (File []) (disk w)); cbn [fst];
     [discriminate|intros [= <-]; reflexivity]).
Qed.

Lemma raises_f_write p c : raises_only (call_error c) (f_write p c).
Proof.
  intros w e. unfold f_write, call_error.
  destruct c; cbn; try (intros [= <-]; reflexivity).
  destruct (utf8_encode s) as [b|]; cbn; [|intros [= <-]; reflexivity].
  destruct (stat p (disk w)) as [[b0|es]|[]]; cbn;
    try (intros [= <-]; reflexivity).
  destruct (put p (File b) (disk w)); cbn;
    [discriminate|intros [= <-]; reflexivity].
Qed.

Lemma io_error_call_error c e : io_error e = true -> call_error c e = true.
Proof. unfold call_error. destruct c; cbn; try auto; now destruct e. Qed.

Lemma raises_write p c : raises_only (call_error c) (open_write p c).
Proof.
  apply raises_only_bind; [|intros; apply raises_f_write].
  eapply raises_only_weaken; [apply io_error_call_error|apply raises_open_w].
Qed.

Lemma write_never_returns p c :
  is_str c = false -> never_returns (open_write p c).
Proof.
  intros Hc w [] H. destruct (open_write p c w) as [r w'] eqn:E.
  cbn [fst] in H. subst r.
  apply open_write_ok in E as (s & b & -> & _). discriminate.
Qed.

Lemma raises_update_or_create_file p c :
  raises_only (call_error c) (update_or_create_file p c).
Proof.
  assert (Hio : forall A (m : M A), raises_only io_error m ->
                                    raises_only (call_error c) m).
  { intros A m. apply raises_only_weaken. apply io_error_call_error. }
  assert (Hlog : forall r, raises_only (call_error c) (logging_info r))
    by (intros; apply raises_logging).
  unfold update_or_create_file.
  apply raises_only_bind; [apply raises_exists|intros dir_exists].
  apply raises_only_bind.
  { destruct (negb dir_exists); [|apply raises_only_ret].
    apply raises_only_bind; [|intros; apply Hlog].
    apply Hio, raises_makedirs. }
  intros _. apply raises_only_bind; [apply raises_exists|intros file_exists].
  destruct file_exists.
  - apply raises_only_bind; [apply Hio, raises_read|intros old_content].
    destruct (py_ne old_content c); [|apply raises_only_ret].
    destruct (is_str c) eqn:Ec.
    + apply raises_only_bind; [apply raises_write|intros _].
      apply raises_only_bind; [|intros; apply Hlog].
      destruct c; discriminate.
    + apply raises_only_bind_never;
        [apply raises_write|now apply write_never_returns].
  - apply raises_only_bind; [apply raises_write|intros; apply Hlog].
Qed.

Lemma raises_update_all_strings (calls : list (path * value)) :
  (forall call, In call calls -> is_str (snd call) = true) ->
  raises_only io_error (update_all calls).
Proof.
  induction calls as [|[p c] rest IH]; intros H; cbn [update_all].
  - apply raises_only_ret.
  - apply raises_only_bind.
    + generalize (raises_update_or_create_file p c). unfold call_error.
      generalize (H (p, c) (or_introl eq_refl)). cbn [snd].
      now intros ->.
    + intros _. apply IH. intros call Hin. apply H. now right.
Qed.


Lemma update_all_ok_strings (calls : list (path * value)) w w' :
  update_all calls w = (inl tt, w') ->
  forall call, In call calls -> is_str (snd call) = true.
Proof.
  revert w; induction calls as [|[p c] rest IH]; intros w H call;
    [intros []|].
  cbn [update_all] in H. apply bind_ok in H as ([] & w1 & H1 & H2).
  intros [<-|Hin]; [|now apply (IH w1)].
  now apply update_or_create_file_ok in H1 as (s & -> & _).
Qed.

Lemma well_shaped_targets (doc : value) (root : path) :
  well_shaped doc = true ->
  forall call, In call (targets doc root) -> is_str (snd call) = true.
Proof.
  revert root.
  induction doc as [v Hv|items IH] using value_nested_ind; intros root.
  { destruct v; try (intros _ call []). exfalso. now apply (Hv items). }
  cbn [well_shaped targets]. intros Hall call Hin.
  apply in_flat_map in Hin as ([n c] & Hitem & Hcall). cbn [fst snd] in Hcall.
  rewrite Forall_forall in IH. specialize (IH _ Hitem). cbn [snd] in IH.
  rewrite forallb_forall in Hall. specialize (Hall _ Hitem). cbn [snd] in Hall.
  destruct c; try discriminate.
  - destruct Hcall as [<-|[]]. reflexivity.
  - now apply (IH (os_path_join root n)).
Qed.

Lemma targets_strings_well_shaped (items : list (pystr * value))
      (root : path) :
  (forall call, In call (targets (VDict items) root) ->
                is_str (snd call) = true) ->
  well_shaped (VDict items) = true.
Proof.
  revert root.
  enough (H : forall v,
             match v with
             | VDict _ => forall root,
                 (forall call, In call (targets v root) ->
                               is_str (snd call) = true) ->
                 well_shaped v = true
             | _ => True
             end) by exact (H (VDict items)).
  induction v as [v Hv|its IH] using value_nested_ind.
  { destruct v; try exact I. exfalso. now apply (Hv items0). }
  intros root H. cbn [well_shaped]. apply forallb_forall.
  intros [n c] Hitem. cbn [snd].
  rewrite Forall_forall in IH. specialize (IH _ Hitem). cbn [snd] in IH.
  assert (G : forall call,
             In call (match c with
                      | VDict _ => targets c (os_path_join root n)
                      | _ => [(os_path_join root n, c)]
                      end) -> is_str (snd call) = true).
  { intros call Hcall. apply H. cbn [targets]. apply in_flat_map.
    exists (n, c). split; [assumption|]. cbn [fst snd].
    destruct c; exact Hcall. }
  destruct c; try reflexivity;
    try (specialize (G _ (or_introl eq_refl)); discriminate).
  now apply (IH (os_path_join root n)).
Qed.


(** ** Capture *)

Section CaptureProperties.

Variable fnmatch : pystr -> pystr -> bool.

Lemma capture_node_dir exclusions entries :
  capture_node fnmatch exclusions (Dir entries)
  = match capture_loop fnmatch exclusions entries (inl []) with
    | inl result => inl (VDict result)
    | inr e => inr e
    end.
Proof. reflexivity. Qed.

Lemma capture_loop_cons exclusions item child entries result :
  capture_loop fnmatch exclusions ((item, child) :: entries) (inl result)
  = if should_exclude fnmatch item exclusions
    then capture_loop fnmatch exclusions entries (inl result)
    else match capture_node fnmatch exclusions child with
         | inl v =>
           capture_loop fnmatch exclusions entries (inl (dict_set result item v))
         | inr e => inr e
         end.
Proof.
  unfold capture_loop. cbn [fold_left fst snd].
  destruct (should_exclude fnmatch item exclusions); [reflexivity|].
  destruct (capture_node fnmatch exclusions child); [reflexivity|].
  induction entries; [reflexivity|assumption].
Qed.

(** Capture of a node never raises: no file fails to decode. *)
Lemma capture_node_total exclusions (t : node) :
  exists v, capture_node fnmatch exclusions t = inl v.
Proof.
  induction t as [b|es IH] using node_nested_ind.
  - cbn [capture_node]. destruct (read_ignore_clean b) as (s & -> & _). eauto.
  - rewrite capture_node_dir.
    enough (H : forall result, exists result',
                 capture_loop fnmatch exclusions es (inl result) = inl result').
    { destruct (H []) as [result' ->]. eauto. }
    induction es as [|[item child] es IHes]; intros result; [cbn; eauto|].
    inversion IH as [|? ? Hc Hes]; subst. cbn [snd] in Hc.
    rewrite capture_loop_cons.
    destruct (should_exclude fnmatch item exclusions); [now apply IHes|].
    destruct Hc as [v ->]. now apply IHes.
Qed.

Lemma directory_to_dict_total (fs : node) (path : path) exclusions es :
  stat path fs = inl (Dir es) ->
  exists v, directory_to_dict fnmatch fs path exclusions = inl v.
Proof.
  intros H. unfold directory_to_dict. rewrite H. apply capture_node_total.
Qed.

End CaptureProperties.

(** ** C9: strict reading during reconciliation *)

Lemma update_or_create_file_undecodable (p : path) (c : value) (b : bytes)
      (w : world) :
  stat p (disk w) = inl (File b) -> utf8_decode Strict b = None ->
  update_or_create_file p c w = (inr UnicodeDecodeError, w).
Proof.
  intros Hp Hb. destruct (stat_dirname _ _ _ Hp) as [z Hz].
  unfold update_or_create_file, bind, os_path_exists.
  rewrite Hz. cbn [negb ret]. rewrite Hp.
  unfold open_read, read_text. now rewrite Hp, Hb.
Qed.

Lemma update_all_undecodable (calls : list (path * value)) (p : path)
      (c : value) (b : bytes) (w : world) :
  NoDup (map fst calls) -> In (p, c) calls ->
  stat p (disk w) = inl (File b) -> utf8_decode Strict b = None ->
  exists e, fst (update_all calls w) = inr e.
Proof.
  revert w; induction calls as [|[p' c'] rest IH]; intros w Hnd Hin Hp Hb;
    [destruct Hin|].
  cbn [map fst] in Hnd. apply NoDup_cons_iff in Hnd as [Hp' Hnd].
  cbn [update_all]. unfold bind.
  destruct Hin as [[= -> ->]|Hin].
  - rewrite (update_or_create_file_undecodable p c b w Hp Hb). cbn. eauto.
  - generalize (evolves_update_or_create_file p' c' w).
    destruct (update_or_create_file p' c' w) as [[[]|e] w1];
      [|cbn; eauto].
    cbn [snd fst]. intros Hsteps. apply (IH w1); try assumption.
    apply (steps_file _ _ _ _ _ Hsteps); [|exact Hp].
    intros q Hq <-. cbn in Hq. subst. apply Hp'.
    apply in_map_iff. now exists (p', c).
Qed.

(** C9.  A file that exists at the path of a string of the
    document is read with strict decoding.  When its bytes are not valid
    UTF-8 the call for it raises [UnicodeDecodeError] and changes nothing,
    so [update_files_from_json] does not return for a document, with
    unique keys that are entry names, that names this file; whereas
    [directory_to_dict] on the same disk returns for every directory. *)
Theorem reconcile_fails_on_undecodable_file
        (fnmatch : pystr -> pystr -> bool)
        (directory_path : path) (new_structure : value) (w : world)
        (p : path) (c : value) (b : bytes) :
  valid_keys new_structure = true ->
  unique_keys new_structure = true ->
  In (p, c) (targets new_structure directory_path) ->
  stat p (disk w) = inl (File b) ->
  utf8_decode Strict b = None ->
  update_or_create_file p c w = (inr UnicodeDecodeError, w) /\
  (exists e,
      fst (update_files_from_json directory_path (Some new_structure) w)
      = inr e) /\
  (forall path exclusions es,
      stat path (disk w) = inl (Dir es) ->
      exists v, directory_to_dict fnmatch (disk w) path exclusions = inl v).
Proof.
  intros _ Hkeys Hin Hp Hb. split; [|split].
  - now apply (update_or_create_file_undecodable p c b).
  - cbn [update_files_from_json].
    destruct new_structure as [| | | | |items]; try destruct Hin.
    rewrite recurse_structure_calls.
    apply (update_all_undecodable _ p c b); try assumption.
    now apply unique_keys_targets.
  - intros path exclusions es. apply directory_to_dict_total.
Qed.

(** ** C10: line counts *)

Lemma utf8_encode_app (a b : pystr) :
  utf8_encode (a ++ b)
  = match utf8_encode a, utf8_encode b with
    | Some x, Some y => Some (x ++ y)
    | _, _ => None
    end.
Proof.
  induction a as [|c a IH]; cbn [app utf8_encode].
  - now destruct (utf8_encode b).
  - rewrite IH. destruct (utf8_encode_char c) as [x|]; [|reflexivity].
    destruct (utf8_encode a) as [y|]; [|reflexivity].
    destruct (utf8_encode b) as [z|]; [|reflexivity].
    now rewrite app_assoc.
Qed.

Lemma no_cr_app (a b : pystr) : no_cr (a ++ b) = no_cr a && no_cr b.
Proof. apply forallb_app. Qed.

(** A final line feed after a character that is not a line break ends the
    last line and starts none. *)
Lemma splitlines_final_newline (c : pystr) :
  c <> [] -> is_linebreak (last c 0) = false ->
  splitlines (c ++ [LF]) = splitlines c.
Proof.
  induction c as [c IH] using list_length_ind. intros Hne Hlast.
  destruct c as [|x r]; [contradiction|].
  destruct r as [|y r'].
  { cbn [last] in Hlast. cbn [app splitlines]. rewrite Hlast. reflexivity. }
  assert (Hr : splitlines ((y :: r') ++ [LF]) = splitlines (y :: r')).
  { apply IH; [simpl; lia|discriminate|exact Hlast]. }
  change ((x :: y :: r') ++ [LF]) with (x :: (y :: r') ++ [LF]).
  cbn [splitlines].
  destruct (is_linebreak x); [|now rewrite Hr].
  f_equal. destruct (x =? CR); [|exact Hr].
  cbn [app]. destruct (Z.eqb_spec y LF) as [->|Hy]; [|exact Hr].
  destruct r' as [|z r''].
  - cbn in Hlast. discriminate.
  - apply IH; [simpl; lia|discriminate|exact Hlast].
Qed.

(** A file whose text differs from the content is rewritten, and the
    record carries the line counts of the old and of the new text. *)
Lemma update_or_create_file_differs (p : path) (old s : pystr)
      (b0 b : bytes) (w : world) :
  stat p (disk w) = inl (File b0) -> read_text Strict b0 = Some old ->
  old <> s -> utf8_encode s = Some b ->
  exists d, put p (File b) (disk w) = Some d /\
            update_or_create_file p (VStr s) w
            = (inl tt,
               mkWorld d (writes w ++ [p])
                       (log w ++ [FileUpdated p (length (splitlines old))
                                              (length (splitlines s))])).
Proof.
  intros Hp Hold Hne Hb. destruct (stat_dirname _ _ _ Hp) as [z Hz].
  destruct (put_exists p (File []) _ _ Hp) as [d0 Hd0].
  assert (Hp0 : stat p d0 = inl (File [])) by now apply (put_stat_same _ _ (disk w)).
  destruct (put_exists p (File b) _ _ Hp0) as [d Hd].
  exists d. split; [now rewrite <- (put_twice _ _ _ _ _ Hd0)|].
  unfold update_or_create_file, bind, os_path_exists.
  rewrite Hz. cbn [negb ret]. rewrite Hp.
  unfold open_read. rewrite Hp, Hold. cbn [py_ne].
  assert (str_eqb old s = false) as -> by now apply str_eqb_neq.
  cbn [negb]. unfold open_write, bind, open_w. rewrite Hp, Hd0.
  unfold f_write. rewrite Hb. cbn [disk]. rewrite Hp0, Hd.
  reflexivity.
Qed.

(** C10 (amended).  The counts of a [FileUpdated] record are the lengths
    of [splitlines] of the old and of the new text, so a final line feed
    after a character that is not a line break is not counted.  Take a
    text [c] that is not empty, does not end in a line break and is
    written back as it is read.  When the file holds [c] and the document
    gives [c] with one more line feed, or the other way round, the file is
    rewritten and the record carries the same count twice. *)
Theorem update_counts_ignore_final_newline
        (p : path) (c : pystr) (b : bytes) (w : world) :
  c <> [] ->
  is_linebreak (last c 0) = false ->
  no_cr c = true ->
  utf8_encode c = Some b ->
  let n := length (splitlines c) in
  (stat p (disk w) = inl (File b) ->
   exists d, put p (File (b ++ [LF])) (disk w) = Some d /\
             update_or_create_file p (VStr (c ++ [LF])) w
             = (inl tt,
                mkWorld d (writes w ++ [p]) (log w ++ [FileUpdated p n n])))
  /\
  (stat p (disk w) = inl (File (b ++ [LF])) ->
   exists d, put p (File b) (disk w) = Some d /\
             update_or_create_file p (VStr c) w
             = (inl tt,
                mkWorld d (writes w ++ [p]) (log w ++ [FileUpdated p n n]))).
Proof.
  intros Hne Hlast Hcr Hb n.
  assert (Hb' : utf8_encode (c ++ [LF]) = Some (b ++ [LF])).
  { rewrite utf8_encode_app, Hb. reflexivity. }
  assert (Hcr' : no_cr (c ++ [LF]) = true).
  { rewrite no_cr_app, Hcr. reflexivity. }
  assert (Hdiff : c <> c ++ [LF]).
  { intros H. apply (f_equal (@length Z)) in H. rewrite length_app in H.
    cbn in H. lia. }
  split; intros Hp.
  - destruct (update_or_create_file_differs p c (c ++ [LF]) b (b ++ [LF]) w)
      as (d & Hd & Hrun); try assumption.
    { now apply read_written. }
    exists d. split; [assumption|]. rewrite Hrun.
    now rewrite (splitlines_final_newline c Hne Hlast).
  - destruct (update_or_create_file_differs p (c ++ [LF]) c (b ++ [LF]) b w)
      as (d & Hd & Hrun); try assumption.
    { now apply read_written. }
    { congruence. }
    exists d. split; [assumption|]. rewrite Hrun.
    now rewrite (splitlines_final_newline c Hne Hlast).
Qed.

(** ** C6: the exclusion file *)

Lemma splitlines_line (l rest : pystr) :
  no_linebreak l = true ->
  splitlines (l ++ [LF] ++ rest) = l :: splitlines rest.
Proof.
  induction l as [|x l IH]; intros H.
  - reflexivity.
  - cbn [no_linebreak forallb] in H. apply andb_true_iff in H as [Hx Hl].
    apply negb_true_iff in Hx. cbn [app splitlines]. rewrite Hx.
    change (l ++ LF :: rest) with (l ++ [LF] ++ rest).
    now rewrite (IH Hl).
Qed.

Lemma splitlines_text_of_lines (lines : list pystr) :
  forallb no_linebreak lines = true ->
  splitlines (text_of_lines lines) = lines.
Proof.
  induction lines as [|l lines IH]; intros H; [reflexivity|].
  cbn [forallb] in H. apply andb_true_iff in H as [Hl Hlines].
  unfold text_of_lines. cbn [map concat]. rewrite <- app_assoc.
  rewrite (splitlines_line _ _ Hl). f_equal. now apply IH.
Qed.

Lemma no_linebreak_no_cr (l : pystr) : no_linebreak l = true -> no_cr l = true.
Proof.
  unfold no_linebreak, no_cr. rewrite !forallb_forall. intros H c Hc.
  specialize (H c Hc). apply negb_true_iff in H. apply negb_true_iff.
  unfold is_linebreak in H. destruct (Z.eqb_spec c CR) as [->|]; [|reflexivity].
  discriminate.
Qed.

Lemma text_of_lines_no_cr (lines : list pystr) :
  forallb no_linebreak lines = true -> no_cr (text_of_lines lines) = true.
Proof.
  induction lines as [|l lines IH]; intros H; [reflexivity|].
  cbn [forallb] in H. apply andb_true_iff in H as [Hl Hlines].
  unfold text_of_lines. cbn [map concat]. rewrite !no_cr_app.
  rewrite (no_linebreak_no_cr l Hl). cbn. now apply IH.
Qed.

(** ** C5: files that do not decode *)

Lemma dict_get_set_same d k v : dict_get (dict_set d k v) k = Some v.
Proof.
  induction d as [|[k' v'] d IH]; cbn [dict_set dict_get].
  - now rewrite str_eqb_refl.
  - destruct (str_eqb k' k) eqn:E; cbn [dict_get]; rewrite E;
      [reflexivity|assumption].
Qed.

Lemma dict_get_set_other d k k' v :
  k' <> k -> dict_get (dict_set d k v) k' = dict_get d k'.
Proof.
  intros Hne. induction d as [|[k0 v0] d IH]; cbn [dict_set dict_get].
  - assert (str_eqb k k' = false) as -> by (apply str_eqb_neq; congruence).
    reflexivity.
  - destruct (str_eqb k0 k) eqn:E; cbn [dict_get].
    + apply str_eqb_eq in E. subst k0.
      assert (str_eqb k k' = false) as -> by (apply str_eqb_neq; congruence).
      reflexivity.
    + destruct (str_eqb k0 k'); [reflexivity|assumption].
Qed.

Lemma find_entry_In n es c : find_entry n es = Some c -> In (n, c) es.
Proof.
  induction es as [|[m y] es IH]; cbn [find_entry]; [discriminate|].
  destruct (str_eqb m n) eqn:E.
  - apply str_eqb_eq in E. intros [= ->]. subst. now left.
  - intros H. right. now apply IH.
Qed.

Lemma distinct_not_in (x : pystr) (l : list pystr) :
  negb (existsb (str_eqb x) l) = true -> ~ In x l.
Proof.
  intros H Hin. apply negb_true_iff in H.
  assert (existsb (str_eqb x) l = true); [|congruence].
  apply existsb_exists. exists x. split; [assumption|apply str_eqb_refl].
Qed.

Lemma unique_names_stat (p : path) (t y : node) :
  unique_names t = true -> stat p t = inl y -> unique_names y = true.
Proof.
  revert t; induction p as [|n p IH]; intros t Ht; cbn [stat].
  - now intros [= <-].
  - destruct t as [b|es]; [discriminate|].
    destruct (find_entry n es) as [c|] eqn:E; [|discriminate].
    apply IH. cbn [unique_names] in Ht.
    apply andb_true_iff in Ht as [_ Ht]. rewrite forallb_forall in Ht.
    apply (Ht (n, c)). now apply find_entry_In.
Qed.

Lemma decode_strict_any (e : errors) (b : bytes) (s : pystr) :
  utf8_decode Strict b = Some s -> utf8_decode e b = Some s.
Proof.
  revert s. induction b as [b IH] using list_length_ind. intros s.
  assert (K : forall c r s,
             (length r < length b)%nat ->
             emit c (utf8_decode Strict r) = Some s ->
             emit c (utf8_decode e r) = Some s).
  { intros c r s0 Hr. unfold emit.
    destruct (utf8_decode Strict r) as [s'|] eqn:E; [|discriminate].
    now rewrite (IH r Hr s' E). }
  destruct b as [|b0 r1]; [intros H; exact H|]. cbn [utf8_decode].
  repeat match goal with
         | |- context [if ?c then _ else _] => destruct c; cbv beta iota
         | |- context [match ?r with [] => _ | _ :: _ => _ end] =>
           is_var r; destruct r; cbv beta iota
         end;
    cbn [on_error]; try discriminate; apply K; simpl; lia.
Qed.

Section CaptureLookup.

Variable fnmatch : pystr -> pystr -> bool.

Lemma capture_loop_ok_inv exclusions item child entries result result' :
  capture_loop fnmatch exclusions ((item, child) :: entries) (inl result)
  = inl result' ->
  if should_exclude fnmatch item exclusions
  then capture_loop fnmatch exclusions entries (inl result) = inl result'
  else exists v,
      capture_node fnmatch exclusions child = inl v /\
      capture_loop fnmatch exclusions entries (inl (dict_set result item v))
      = inl result'.
Proof.
  rewrite capture_loop_cons.
  destruct (should_exclude fnmatch item exclusions); [auto|].
  destruct (capture_node fnmatch exclusions child) as [v|e];
    [eauto|discriminate].
Qed.

Lemma capture_loop_keeps exclusions entries result result' item :
  ~ In item (map fst entries) ->
  capture_loop fnmatch exclusions entries (inl result) = inl result' ->
  dict_get result' item = dict_get result item.
Proof.
  revert result; induction entries as [|[n c] rest IH]; intros result Hn H.
  - cbn in H. now injection H as <-.
  - cbn [map fst] in Hn. apply capture_loop_ok_inv in H.
    destruct (should_exclude fnmatch n exclusions).
    + apply IH; [|assumption]. intros Hin. apply Hn. now right.
    + destruct H as (v & _ & H).
      assert (Hrest : ~ In item (map fst rest))
        by (intros Hin; apply Hn; now right).
      rewrite (IH _ Hrest H).
      apply dict_get_set_other. intros ->. apply Hn. now left.
Qed.

Lemma capture_loop_get exclusions entries result result' item child :
  distinct (map fst entries) = true ->
  capture_loop fnmatch exclusions entries (inl result) = inl result' ->
  find_entry item entries = Some child ->
  should_exclude fnmatch item exclusions = false ->
  exists v, capture_node fnmatch exclusions child = inl v /\
            dict_get result' item = Some v.
Proof.
  revert result; induction entries as [|[n c] rest IH];
    intros result Hd H Hfind Hex; [discriminate|].
  cbn [map fst distinct] in Hd. apply andb_true_iff in Hd as [Hn Hd].
  apply distinct_not_in in Hn.
  apply capture_loop_ok_inv in H. cbn [find_entry] in Hfind.
  destruct (str_eqb n item) eqn:E.
  - apply str_eqb_eq in E. subst n. injection Hfind as ->.
    rewrite Hex in H. destruct H as (v & Hv & H). exists v.
    split; [assumption|].
    rewrite (capture_loop_keeps _ _ _ _ item Hn H).
    apply dict_get_set_same.
  - destruct (should_exclude fnmatch n exclusions).
    + now apply (IH result).
    + destruct H as (v & _ & H). now apply (IH (dict_set result n v)).
Qed.

(** The document holds, at the path of every captured file, the text read
    from that file with [errors='ignore']. *)
Lemma capture_node_get exclusions (r : path) (t : node) (v : value)
      (b : bytes) :
  unique_names t = true ->
  capture_node fnmatch exclusions t = inl v ->
  stat r t = inl (File b) ->
  existsb (fun n => should_exclude fnmatch n exclusions) r = false ->
  exists text, read_text Ignore b = Some text /\
               doc_get v r = Some (VStr text).
Proof.
  revert t v; induction r as [|n r IH]; intros t v Ht Hv Hb Hex.
  - cbn in Hb. injection Hb as ->. cbn [capture_node] in Hv.
    destruct (read_text Ignore b) as [text|]; [|discriminate].
    injection Hv as <-. eauto.
  - cbn [existsb] in Hex. apply orb_false_iff in Hex as [Hn Hex].
    destruct t as [b0|es]; [discriminate|]. cbn [stat] in Hb.
    destruct (find_entry n es) as [child|] eqn:E; [|discriminate].
    rewrite capture_node_dir in Hv.
    destruct (capture_loop fnmatch exclusions es (inl [])) as [result|e]
      eqn:El; [|discriminate].
    injection Hv as <-. cbn [unique_names] in Ht.
    apply andb_true_iff in Ht as [Hd Hall].
    destruct (capture_loop_get _ _ _ _ _ _ Hd El E Hn) as (vc & Hvc & Hget).
    cbn [doc_get]. rewrite Hget. apply (IH child); try assumption.
    rewrite forallb_forall in Hall. apply (Hall (n, child)).
    now apply find_entry_In.
Qed.

End CaptureLookup.

(** C5 (amended).  [directory_to_dict] returns for every directory: no
    file makes it raise by failing to decode.  On a disk without repeated
    names the document holds, at the path of every file that no exclusion
    covers, the text decoded with [errors='ignore'] and universal
    newlines: the bytes that do not decode are left out and nothing is put
    in their place, so the encoding of the decoded text is the file with
    bytes left out, and a file that decodes strictly is decoded as it
    is. *)
Theorem capture_drops_undecodable_bytes
        (fnmatch : pystr -> pystr -> bool)
        (fs : node) (path : path) (exclusions : list pystr)
        (es : list (name * node)) :
  unique_names fs = true ->
  stat path fs = inl (Dir es) ->
  exists v,
    directory_to_dict fnmatch fs path exclusions = inl v /\
    forall r b,
      stat (path ++ r) fs = inl (File b) ->
      existsb (fun n => should_exclude fnmatch n exclusions) r = false ->
      exists s b',
        utf8_decode Ignore b = Some s /\
        utf8_encode s = Some b' /\ subseq b' b /\
        (forall s0, utf8_decode Strict b = Some s0 -> s = s0) /\
        doc_get v r = Some (VStr (translate_newlines s)).
Proof.
  intros Hu Hp.
  destruct (directory_to_dict_total fnmatch fs path exclusions es Hp)
    as [v Hv].
  exists v. split; [assumption|]. intros r b Hb Hex.
  unfold directory_to_dict in Hv. rewrite Hp in Hv.
  rewrite stat_app, Hp in Hb.
  destruct (capture_node_get fnmatch exclusions r (Dir es) v b)
    as (text & Htext & Hget); try assumption.
  { now apply (unique_names_stat path fs). }
  destruct (decode_ignore_decoded b) as (s & b' & Hs & Hb' & Hsub).
  exists s, b'. repeat split; try assumption.
  - intros s0 Hs0. apply (decode_strict_any Ignore) in Hs0. congruence.
  - unfold read_text in Htext. rewrite Hs in Htext. cbn in Htext.
    congruence.
Qed.

(** ** C7: the flat document *)

Lemma str_join_app (sep : pystr) (a b : list pystr) :
  a <> [] -> b <> [] ->
  str_join sep (a ++ b) = str_join sep a ++ sep ++ str_join sep b.
Proof.
  intros Ha Hb. induction a as [|x a IH]; [contradiction|].
  destruct a as [|y a].
  - cbn [app str_join]. destruct b; [contradiction|reflexivity].
  - change ((x :: y :: a) ++ b) with (x :: (y :: a) ++ b).
    cbn [str_join]. cbn [app]. cbn [app] in IH.
    rewrite IH by discriminate. now rewrite <- !app_assoc.
Qed.

Lemma str_join_concat (sep : pystr) (groups : list (list pystr)) :
  Forall (fun g => g <> []) groups ->
  str_join sep (map (str_join sep) groups) = str_join sep (concat groups).
Proof.
  induction 1 as [|g gs Hg Hgs IH]; [reflexivity|].
  cbn [map concat]. destruct gs as [|g' gs].
  - cbn. now rewrite app_nil_r.
  - rewrite str_join_app; [|assumption|].
    + rewrite <- IH. reflexivity.
    + inversion Hgs; subst. cbn [concat]. destruct g'; [contradiction|].
      discriminate.
Qed.

Lemma dict_set_new (d : list (pystr * value)) (k : pystr) (v : value) :
  ~ In k (map fst d) -> dict_set d k v = d ++ [(k, v)].
Proof.
  induction d as [|[k' v'] d IH]; intros Hk; [reflexivity|].
  cbn [dict_set app]. cbn [map fst] in Hk.
  assert (str_eqb k' k = false) as ->.
  { apply str_eqb_neq. intros ->. apply Hk. now left. }
  f_equal. apply IH. intros H. apply Hk. now right.
Qed.

Lemma file_section_section (item_path : path) (file_content : pystr) :
  file_section item_path file_content = section item_path file_content.
Proof.
  unfold file_section, section, language_tag.
  destruct (str_eqb (path_suffix item_path) (lit ".py"));
    now rewrite <- ?app_assoc.
Qed.

Lemma leaf_sections_items (items : list (pystr * value)) (p : path) :
  leaf_sections (VDict items) p
  = concat (map (fun item : pystr * value =>
                   item_sections (snd item) (os_path_join p (fst item)))
                items).
Proof.
  cbn [leaf_sections]. now rewrite flat_map_concat_map.
Qed.

Lemma has_file_sections (v : value) (p : path) :
  has_file v = true -> item_sections v p <> [].
Proof.
  revert p. induction v as [v Hv|items IH] using value_nested_ind; intros p.
  { destruct v; try discriminate. exfalso. now apply (Hv items). }
  cbn [has_file item_sections]. intros H.
  apply existsb_exists in H as ([n c] & Hitem & Hc). cbn [snd] in Hc.
  rewrite Forall_forall in IH. specialize (IH _ Hitem). cbn [snd] in IH.
  specialize (IH (os_path_join p n) Hc).
  rewrite leaf_sections_items. intros Hnil. apply IH.
  apply concat_nil_Forall in Hnil. rewrite Forall_forall in Hnil.
  apply (Hnil (item_sections c (os_path_join p n))).
  apply in_map_iff. now exists (n, c).
Qed.

Section Markdown.

Variable fnmatch : pystr -> pystr -> bool.

Lemma markdown_node_dir exclusions path entries :
  markdown_node fnmatch exclusions path (Dir entries)
  = match markdown_loop fnmatch exclusions path entries (inl []) with
    | inl markdown_content => inl (str_join [LF] markdown_content)
    | inr e => inr e
    end.
Proof. reflexivity. Qed.

Lemma markdown_loop_cons exclusions path item child entries mc :
  markdown_loop fnmatch exclusions path ((item, child) :: entries) (inl mc)
  = if should_exclude fnmatch item exclusions
    then markdown_loop fnmatch exclusions path entries (inl mc)
    else match markdown_node fnmatch exclusions (os_path_join path item)
                 child with
         | inl text => markdown_loop fnmatch exclusions path entries
                                     (inl (mc ++ [text]))
         | inr e => inr e
         end.
Proof.
  unfold markdown_loop. cbn [fold_left fst snd].
  destruct (should_exclude fnmatch item exclusions); [reflexivity|].
  destruct (markdown_node fnmatch exclusions (os_path_join path item) child);
    [reflexivity|].
  induction entries; [reflexivity|assumption].
Qed.

Lemma loops_agree exclusions (p : path) (es : list (name * node)) :
  Forall (fun entry => renders fnmatch exclusions (snd entry)) es ->
  forall result mc result',
    distinct (map fst es) = true ->
    forallb (fun entry : name * node => unique_names (snd entry)) es = true ->
    (forall n, In n (map fst es) -> ~ In n (map fst result)) ->
    capture_loop fnmatch exclusions es (inl result) = inl result' ->
    exists added,
      result' = result ++ added /\
      (forallb (fun item : pystr * value =>
                  has_file (snd item) && no_empty_dirs (snd item)) added
       = true ->
       markdown_loop fnmatch exclusions p es (inl mc)
       = inl (mc ++ map (item_text p) added)).
Proof.
  induction 1 as [|[n c] rest Hc _ IH]; intros result mc result' Hd Hu Hnew H.
  - cbn in H. injection H as <-. exists []. split.
    + now rewrite app_nil_r.
    + intros _. cbn. now rewrite app_nil_r.
  - cbn [map fst distinct forallb snd] in Hd, Hu, Hc.
    apply andb_true_iff in Hd as [Hn Hd]. apply distinct_not_in in Hn.
    apply andb_true_iff in Hu as [Huc Hu].
    apply capture_loop_ok_inv in H. rewrite markdown_loop_cons.
    destruct (should_exclude fnmatch n exclusions).
    { apply (IH result mc result'); try assumption.
      intros m Hm. apply Hnew. now right. }
    destruct H as (v & Hv & H).
    assert (Hset : dict_set result n v = result ++ [(n, v)]).
    { apply dict_set_new. apply Hnew. now left. }
    rewrite Hset in H.
    destruct (IH (result ++ [(n, v)]) (mc ++ [item_text p (n, v)]) result')
      as (added & Hres & Hmd); try assumption.
    { intros m Hm. rewrite map_app, in_app_iff. cbn [map fst].
      intros [Hin|[->|[]]]; [|contradiction].
      apply (Hnew m); [now right|assumption]. }
    exists ((n, v) :: added). split.
    + now rewrite Hres, <- app_assoc.
    + cbn [forallb snd]. intros Hall.
      apply andb_true_iff in Hall as [Hv' Hall].
      apply andb_true_iff in Hv' as [_ Hned].
      rewrite (Hc (os_path_join p n) v Huc Hv Hned).
      change (str_join [LF] (item_sections v (os_path_join p n)))
        with (item_text p (n, v)).
      rewrite (Hmd Hall), <- app_assoc. reflexivity.
Qed.

Lemma markdown_renders exclusions (t : node) : renders fnmatch exclusions t.
Proof.
  induction t as [b|es IH] using node_nested_ind; intros p v Hu Hv Hned.
  - cbn [capture_node markdown_node] in *.
    destruct (read_text Ignore b) as [text|]; [|discriminate].
    injection Hv as <-. cbn [item_sections str_join].
    now rewrite file_section_section.
  - rewrite capture_node_dir in Hv. rewrite markdown_node_dir.
    destruct (capture_loop fnmatch exclusions es (inl [])) as [result|e]
      eqn:El; [|discriminate].
    injection Hv as <-. cbn [unique_names] in Hu.
    apply andb_true_iff in Hu as [Hd Hu].
    destruct (loops_agree exclusions p es IH [] [] result Hd Hu)
      as (added & Hres & Hmd); [intros n _ []|assumption|].
    cbn [app] in Hres. subst added. cbn [no_empty_dirs] in Hned.
    rewrite (Hmd Hned). cbn [app item_sections]. f_equal.
    rewrite leaf_sections_items.
    unfold item_text.
    rewrite <- (map_map (fun item : pystr * value =>
                           item_sections (snd item)
                                         (os_path_join p (fst item)))
                        (str_join [LF])).
    apply str_join_concat. rewrite Forall_map, Forall_forall.
    intros [n c] Hitem. cbn [fst snd]. apply has_file_sections.
    rewrite forallb_forall in Hned. specialize (Hned _ Hitem).
    cbn [snd] in Hned. now apply andb_true_iff in Hned as [Hf _].
Qed.

End Markdown.

(** C7 (amended).  On a disk without repeated names, when every
    directory of the captured tree below the root has a file in it or
    below it, [directory_to_markdown] returns the flat document of the
    captured tree: one section per file leaf, depth first in capture
    order, each a heading line with the full path and a fenced block
    tagged [python] exactly for a [.py] suffix, with one empty line between
    two sections and nothing from the directories. *)
Theorem markdown_is_flat_document
        (fnmatch : pystr -> pystr -> bool)
        (fs : node) (path : path) (exclusions : list pystr) (tree : value) :
  unique_names fs = true ->
  directory_to_dict fnmatch fs path exclusions = inl tree ->
  no_empty_dirs tree = true ->
  directory_to_markdown fnmatch fs path exclusions
  = inl (to_flat_document tree path).
Proof.
  intros Hu Hv Hned. unfold directory_to_dict, directory_to_markdown in *.
  destruct (stat path fs) as [[b|es]|[]] eqn:Hp; try discriminate.
  assert (Hes : unique_names (Dir es) = true)
    by now apply (unique_names_stat path fs).
  rewrite (markdown_renders fnmatch exclusions (Dir es) path tree Hes Hv Hned).
  unfold to_flat_document. f_equal.
  rewrite capture_node_dir in Hv.
  destruct (capture_loop fnmatch exclusions es (inl [])); [|discriminate].
  now injection Hv as <-.
Qed.

(** ** C1: the round trip *)

Lemma existsb_str_in (x : pystr) (l : list pystr) :
  existsb (str_eqb x) l = true <-> In x l.
Proof.
  rewrite existsb_exists. split.
  - intros (y & Hy & E). apply str_eqb_eq in E. now subst.
  - intros H. exists x. split; [assumption|apply str_eqb_refl].
Qed.

Lemma keys_dict_set (d : list (pystr * value)) (k x : pystr) (v : value) :
  In x (map fst (dict_set d k v)) -> x = k \/ In x (map fst d).
Proof.
  induction d as [|[k' v'] d IH]; cbn [dict_set map fst].
  - intros [<-|[]]. now left.
  - destruct (str_eqb k' k); cbn [map fst In].
    + intros [<-|H]; right; [now left|now right].
    + intros [<-|H]; [right; now left|].
      destruct (IH H); [now left|right; now right].
Qed.

Lemma distinct_dict_set (d : list (pystr * value)) (k : pystr) (v : value) :
  distinct (map fst d) = true -> distinct (map fst (dict_set d k v)) = true.
Proof.
  induction d as [|[k' v'] d IH]; cbn [dict_set map fst distinct];
    [reflexivity|].
  intros H. apply andb_true_iff in H as [Hk Hd].
  destruct (str_eqb k' k) eqn:E; cbn [map fst distinct].
  - now rewrite Hk, Hd.
  - rewrite (IH Hd), andb_true_r. apply negb_true_iff.
    destruct (existsb (str_eqb k') (map fst (dict_set d k v))) eqn:Ex;
      [|reflexivity].
    apply existsb_str_in, keys_dict_set in Ex as [->|Hin].
    + now rewrite str_eqb_refl in E.
    + apply distinct_not_in in Hk. contradiction.
Qed.

Lemma forallb_dict_set (P : pystr * value -> bool)
      (d : list (pystr * value)) (k : pystr) (v : value) :
  (forall k', P (k', v) = true) ->
  forallb P d = true -> forallb P (dict_set d k v) = true.
Proof.
  intros Hv. induction d as [|[k' v'] d IH]; cbn [dict_set forallb].
  - now rewrite Hv.
  - intros H. apply andb_true_iff in H as [H1 H2].
    destruct (str_eqb k' k); cbn [forallb].
    + now rewrite Hv, H2.
    + now rewrite H1, IH.
Qed.

Section RoundTripCapture.

Variable fnmatch : pystr -> pystr -> bool.

Lemma capture_node_restorable exclusions (t : node) (v : value) :
  capture_node fnmatch exclusions t = inl v -> restorable v = true.
Proof.
  revert v. induction t as [b|es IH] using node_nested_ind; intros v.
  - cbn [capture_node]. destruct (read_ignore_clean b) as (s & -> & Hs).
    now intros [= <-].
  - rewrite capture_node_dir.
    destruct (capture_loop fnmatch exclusions es (inl [])) as [result|e]
      eqn:El; [|discriminate].
    intros [= <-].
    enough (H : forall result0,
               restorable (VDict result0) = true ->
               capture_loop fnmatch exclusions es (inl result0) = inl result ->
               restorable (VDict result) = true) by now apply (H []).
    clear El. induction es as [|[n c] rest IHrest]; intros result0 H0 H.
    + cbn in H. now injection H as <-.
    + inversion IH as [|? ? Hc Hrest]; subst. cbn [snd] in Hc.
      apply capture_loop_ok_inv in H.
      destruct (should_exclude fnmatch n exclusions);
        [now apply (IHrest Hrest result0)|].
      destruct H as (v & Hv & H).
      apply (IHrest Hrest (dict_set result0 n v)); [|assumption].
      cbn [restorable] in *. apply andb_true_iff in H0 as [Hd Hall].
      rewrite distinct_dict_set by assumption.
      rewrite forallb_dict_set; try assumption; [reflexivity|].
      intros k'. cbn [snd]. now apply Hc.
Qed.

Lemma capture_node_of (v : value) :
  restorable v = true -> capture_node fnmatch [] (node_of v) = inl v.
Proof.
  induction v as [v Hv|items IH] using value_nested_ind.
  { destruct v; try discriminate.
    - cbn [restorable node_of capture_node]. intros Hs.
      destruct (clean_read_written Ignore s Hs) as (b & -> & ->).
      reflexivity.
    - exfalso. now apply (Hv items). }
  cbn [restorable node_of]. intros H. apply andb_true_iff in H as [Hd Hall].
  rewrite capture_node_dir.
  enough (G : forall result,
             (forall n, In n (map fst items) -> ~ In n (map fst result)) ->
             capture_loop fnmatch []
               (map (fun item : pystr * value =>
                       (fst item, node_of (snd item))) items)
               (inl result)
             = inl (result ++ items)).
  { rewrite (G []); [reflexivity|intros n _ []]. }
  induction items as [|[n c] rest IHrest]; intros result Hnew.
  - cbn. now rewrite app_nil_r.
  - inversion IH as [|? ? Hc Hrest]; subst. cbn [snd] in Hc.
    cbn [map fst snd distinct forallb] in *.
    apply andb_true_iff in Hd as [Hn Hd]. apply distinct_not_in in Hn.
    apply andb_true_iff in Hall as [Hrc Hall].
    rewrite capture_loop_cons. cbn [should_exclude existsb].
    rewrite (Hc Hrc), dict_set_new by (apply Hnew; now left).
    rewrite (IHrest Hrest Hd Hall).
    + now rewrite <- app_assoc.
    + intros m Hm. rewrite map_app, in_app_iff. cbn [map fst].
      intros [Hin|[->|[]]]; [|contradiction].
      apply (Hnew m); [now right|assumption].
Qed.

End RoundTripCapture.

Lemma stat_wrap (q : path) (x : node) : stat q (wrap q x) = inl x.
Proof.
  induction q as [|n q IH]; cbn [wrap stat find_entry]; [reflexivity|].
  now rewrite str_eqb_refl.
Qed.

Lemma wrap_app (q : path) (n : name) (x : node) :
  wrap (q ++ [n]) x = wrap q (Dir [(n, x)]).
Proof. induction q as [|m q IH]; cbn [app wrap]; [reflexivity|now rewrite IH]. Qed.

Lemma put_wrap (q : path) (x y : node) : put q x (wrap q y) = Some (wrap q x).
Proof.
  induction q as [|n q IH]; cbn [wrap put find_entry set_entry];
    [reflexivity|].
  rewrite str_eqb_refl, IH. cbn [set_entry]. now rewrite ?str_eqb_refl.
Qed.

(** A new last entry of a directory. *)
Lemma put_new_child (p : path) (n : name) (x : node) (d : node)
      (es : list (name * node)) :
  stat p d = inl (Dir es) -> find_entry n es = None ->
  put (p ++ [n]) x d = put p (Dir (es ++ [(n, x)])) d /\
  stat (p ++ [n]) d = inr ENOENT /\
  exists d', put (p ++ [n]) x d = Some d'.
Proof.
  intros Hp Hn. rewrite (put_app p [n] x _ d Hp), stat_app, Hp.
  cbn [put stat]. rewrite Hn. repeat split.
  apply (put_exists p _ _ d Hp).
Qed.

(** Replacing what was stored below a path that was stored before. *)
Lemma put_below (p q : path) (y z : node) (d d1 : node) :
  put p (wrap q y) d = Some d1 ->
  put (p ++ q) z d1 = put p (wrap q z) d.
Proof.
  intros H. rewrite (put_app p q z (wrap q y) d1).
  - rewrite put_wrap. apply (put_twice _ _ _ _ _ H).
  - apply (put_stat_same _ _ _ _ H).
Qed.

Lemma put_some_any (p : path) (x y : node) (d d' : node) :
  put p x d = Some d' -> exists d'', put p y d = Some d''.
Proof.
  revert d d'; induction p as [|n p IH]; intros d d'; cbn [put]; [eauto|].
  destruct d as [b|es]; [discriminate|].
  destruct (find_entry n es) as [c|].
  - destruct (put p x c) as [c'|] eqn:E; [|discriminate].
    destruct (IH _ _ E) as [c'' ->]. eauto.
  - destruct p; [eauto|discriminate].
Qed.

(** A new entry below a chain of directories that was stored before. *)
Lemma put_new_below (p q : path) (m : name) (x : node)
      (es : list (name * node)) (d d1 : node) :
  put p (wrap q (Dir es)) d = Some d1 -> find_entry m es = None ->
  stat (p ++ q) d1 = inl (Dir es) /\
  stat ((p ++ q) ++ [m]) d1 = inr ENOENT /\
  put ((p ++ q) ++ [m]) x d1 = put p (wrap q (Dir (es ++ [(m, x)]))) d.
Proof.
  intros Hd1 Hm.
  assert (Hq : stat (p ++ q) d1 = inl (Dir es)).
  { rewrite stat_app, (put_stat_same _ _ _ _ Hd1). apply stat_wrap. }
  destruct (put_new_child (p ++ q) m x d1 es Hq Hm) as (Hput & Hstat & _).
  repeat split; try assumption.
  rewrite Hput. apply (put_below _ _ _ _ _ _ Hd1).
Qed.

Lemma open_write_new (p : path) (s : pystr) (b : bytes) (d : node)
      (w : world) :
  stat p (disk w) = inr ENOENT -> put p (File b) (disk w) = Some d ->
  utf8_encode s = Some b ->
  open_write p (VStr s) w = (inl tt, mkWorld d (writes w ++ [p]) (log w)).
Proof.
  intros Hp Hd Hb.
  destruct (put_some_any p (File b) (File []) _ _ Hd) as [d0 Hd0].
  unfold open_write, bind, open_w. rewrite Hp, Hd0.
  unfold f_write. rewrite Hb. cbn [disk].
  rewrite (put_stat_same _ _ _ _ Hd0), (put_twice _ _ _ _ _ Hd0), Hd.
  reflexivity.
Qed.

Lemma dirname_join (p : path) (n : name) :
  os_path_dirname (os_path_join p n) = p.
Proof. apply removelast_last. Qed.

(** A new file in a directory that exists. *)
Lemma update_or_create_file_new (p : path) (n : name) (s : pystr)
      (b : bytes) (y d : node) (w : world) :
  stat p (disk w) = inl y ->
  stat (os_path_join p n) (disk w) = inr ENOENT ->
  put (os_path_join p n) (File b) (disk w) = Some d ->
  utf8_encode s = Some b ->
  update_or_create_file (os_path_join p n) (VStr s) w
  = (inl tt,
     mkWorld d (writes w ++ [os_path_join p n])
             (log w ++ [FileCreated (os_path_join p n)])).
Proof.
  intros Hp Hf Hd Hb.
  unfold update_or_create_file. rewrite dirname_join.
  unfold bind at 1. unfold os_path_exists at 1. rewrite Hp. cbn [negb].
  unfold bind at 1. cbn [ret].
  unfold bind at 1. unfold os_path_exists at 1. rewrite Hf.
  unfold bind. now rewrite (open_write_new _ s b d w Hf Hd Hb).
Qed.

(** A new file below directories that [os.makedirs] creates. *)
Lemma update_or_create_file_new_dirs (p : path) (n : name) (s : pystr)
      (b : bytes) (d1 d : node) (w : world) :
  stat p (disk w) = inr ENOENT ->
  os_makedirs p w = (inl tt, set_disk d1 w) ->
  stat (os_path_join p n) d1 = inr ENOENT ->
  put (os_path_join p n) (File b) d1 = Some d ->
  utf8_encode s = Some b ->
  update_or_create_file (os_path_join p n) (VStr s) w
  = (inl tt,
     mkWorld d (writes w ++ [os_path_join p n])
             (log w ++ [DirCreated p; FileCreated (os_path_join p n)])).
Proof.
  intros Hp Hmk Hf Hd Hb.
  unfold update_or_create_file. rewrite dirname_join.
  unfold bind at 1. unfold os_path_exists at 1. rewrite Hp. cbn [negb].
  unfold bind at 1. unfold bind at 1. rewrite Hmk.
  unfold logging_info at 1. cbn [disk writes log set_disk].
  unfold bind at 1. unfold os_path_exists at 1. cbn [disk]. rewrite Hf.
  unfold bind.
  rewrite (open_write_new _ s b d
             (mkWorld d1 (writes w) (log w ++ [DirCreated p])) Hf Hd Hb).
  unfold logging_info. cbn [disk writes log]. now rewrite <- app_assoc.
Qed.

(** [os.makedirs] below a directory that has no entry of the first name:
    it creates the whole chain. *)
Lemma makedirs_fresh (p0 : path) (n1 : name) (q : path)
      (es0 : list (name * node)) (w : world) :
  stat p0 (disk w) = inl (Dir es0) -> find_entry n1 es0 = None ->
  exists d, put (p0 ++ [n1]) (wrap q (Dir [])) (disk w) = Some d /\
            os_makedirs (p0 ++ n1 :: q) w = (inl tt, set_disk d w).
Proof.
  intros Hp0 Hn1.
  assert (Habsent : forall r, stat (p0 ++ n1 :: r) (disk w) = inr ENOENT).
  { intros r. rewrite stat_app, Hp0. cbn [stat]. now rewrite Hn1. }
  induction q as [|m q IH] using rev_ind.
  - destruct (put_new_child p0 n1 (Dir []) (disk w) es0 Hp0 Hn1)
      as (_ & Hstat & d & Hd).
    exists d. split; [exact Hd|].
    unfold os_makedirs. rewrite rev_unit. cbn [makedirs_from_last].
    unfold bind, os_path_exists. rewrite rev_involutive, Hp0. cbn [negb ret].
    cbn [rev]. rewrite rev_involutive. unfold os_mkdir.
    now rewrite Hstat, Hd.
  - destruct IH as (d1 & Hd1 & Hmk).
    destruct (put_new_below (p0 ++ [n1]) q m (Dir []) [] (disk w) d1 Hd1
                eq_refl) as (_ & Hstat & Hput).
    cbn [app] in Hput. rewrite <- wrap_app in Hput.
    assert (Hpath : (p0 ++ [n1]) ++ q = p0 ++ n1 :: q)
      by now rewrite <- app_assoc.
    rewrite Hpath in Hstat, Hput.
    destruct (put_new_child p0 n1 (wrap (q ++ [m]) (Dir [])) (disk w) es0
                Hp0 Hn1) as (_ & _ & d & Hd).
    exists d. split; [exact Hd|].
    unfold os_makedirs in *.
    replace (p0 ++ n1 :: q ++ [m]) with ((p0 ++ n1 :: q) ++ [m])
      by now rewrite <- app_assoc.
    rewrite rev_unit. cbn [makedirs_from_last].
    unfold bind, os_path_exists. rewrite rev_involutive, Habsent.
    cbn [negb]. unfold try_except_pass. rewrite Hmk. cbn [rev].
    rewrite rev_involutive. unfold os_mkdir. cbn [disk set_disk].
    rewrite Hstat, Hput, Hd. reflexivity.
Qed.

Lemma set_entry_same (n : name) (c : node) (es : list (name * node)) :
  find_entry n es = Some c -> set_entry n c es = es.
Proof.
  induction es as [|[m y] es IH]; cbn [find_entry set_entry]; [discriminate|].
  destruct (str_eqb m n); [now intros [= ->]|].
  intros H. now rewrite IH.
Qed.

Lemma put_same (p : path) (y d : node) :
  stat p d = inl y -> put p y d = Some d.
Proof.
  revert d; induction p as [|n p IH]; intros d; cbn [stat put].
  - now intros [= ->].
  - destruct d as [b|es]; [discriminate|].
    destruct (find_entry n es) as [c|] eqn:E; [|discriminate].
    intros H. rewrite (IH c H). now rewrite set_entry_same.
Qed.

Lemma path_cons_app (p0 : path) (n1 : name) (q : path) :
  (p0 ++ [n1]) ++ q = p0 ++ n1 :: q.
Proof. now rewrite <- app_assoc. Qed.

(** Reconciling items in a directory that has none of their names adds
    them after its entries, in their order. *)
Lemma stored_after (items : list (pystr * value)) :
  Forall (fun item => stored_fresh (snd item)) items ->
  forall w p es,
    stat p (disk w) = inl (Dir es) ->
    (forall item, In item items -> find_entry (fst item) es = None) ->
    restorable (VDict items) = true -> no_empty_dirs (VDict items) = true ->
    exists w',
      recurse_structure (VDict items) p w = (inl tt, w') /\
      put p (Dir (es ++ map node_item items)) (disk w) = Some (disk w').
Proof.
  induction 1 as [|[n c] rest Hc _ IH]; intros w p es Hp Hnew Hres Hned.
  { exists w. split; [reflexivity|]. cbn [map]. rewrite app_nil_r.
    now apply put_same. }
  cbn [restorable no_empty_dirs map fst snd distinct forallb] in Hres, Hned.
  apply andb_true_iff in Hres as [Hd Hres].
  apply andb_true_iff in Hd as [Hn Hd]. apply distinct_not_in in Hn.
  apply andb_true_iff in Hres as [Hrc Hres].
  apply andb_true_iff in Hned as [Hc' Hned].
  apply andb_true_iff in Hc' as [Hfc Hnc].
  assert (Hnn : find_entry n es = None) by (apply (Hnew (n, c)); now left).
  destruct (put_new_child p n (node_of c) (disk w) es Hp Hnn)
    as (Hput & Hstat & d & Hd1).
  assert (Hitem : exists w1,
             match c with
             | VDict _ => recurse_structure c (os_path_join p n)
             | _ => update_or_create_file (os_path_join p n) c
             end w = (inl tt, w1) /\
             put (p ++ [n]) (node_of c) (disk w) = Some (disk w1)).
  { destruct c; try discriminate.
    - destruct (clean_read_written Strict s Hrc) as (b & Hb & _).
      cbn [node_of] in *. rewrite Hb in *.
      eexists. split;
        [now apply (update_or_create_file_new p n s b (Dir es) d)
        |exact Hd1].
    - cbn [snd stored_fresh] in Hc.
      apply (Hc w p es n [] Hp Hnn Hrc Hfc Hnc). }
  destruct Hitem as (w1 & Hrun1 & Hw1).
  assert (Hw1' : put p (Dir (es ++ [(n, node_of c)])) (disk w)
                 = Some (disk w1))
    by exact (eq_trans (eq_sym Hput) Hw1).
  assert (Hp1 : stat p (disk w1) = inl (Dir (es ++ [(n, node_of c)])))
    by now apply (put_stat_same _ _ _ _ Hw1').
  destruct (IH w1 p (es ++ [(n, node_of c)]) Hp1) as (w' & Hrun & Hw').
  { intros item Hin. rewrite find_entry_app, (Hnew item) by now right.
    cbn [find_entry].
    assert (str_eqb n (fst item) = false) as ->; [|reflexivity].
    apply str_eqb_neq. intros ->. apply Hn. now apply in_map. }
  { cbn [restorable]. now rewrite Hd, Hres. }
  { exact Hned. }
  exists w'. split.
  - rewrite recurse_structure_cons. unfold bind. now rewrite Hrun1.
  - rewrite (put_twice _ _ _ _ _ Hw1') in Hw'.
    cbn [map]. now rewrite <- app_assoc in Hw'.
Qed.

Lemma stored_fresh_all (v : value) : stored_fresh v.
Proof.
  induction v as [v Hv|items IH] using value_nested_ind.
  { destruct v; try exact I. exfalso. now apply (Hv items). }
  cbn [stored_fresh]. intros w p0 es0 n1 q Hp0 Hn1 Hres Hfile Hned.
  destruct items as [|[n c] rest]; [discriminate|].
  inversion IH as [|? ? Hc Hrest]; subst. cbn [snd] in Hc.
  pose proof Hres as Hres0. pose proof Hned as Hned0.
  cbn [restorable no_empty_dirs map fst snd distinct forallb] in Hres, Hned.
  apply andb_true_iff in Hres as [Hd Hres].
  apply andb_true_iff in Hd as [Hn Hd]. apply distinct_not_in in Hn.
  apply andb_true_iff in Hres as [Hrc Hres].
  apply andb_true_iff in Hned as [Hc' Hned].
  apply andb_true_iff in Hc' as [Hfc Hnc].
  assert (Habsent : stat (p0 ++ n1 :: q) (disk w) = inr ENOENT).
  { rewrite stat_app, Hp0. cbn [stat]. now rewrite Hn1. }
  assert (Hitem : exists w1,
             match c with
             | VDict _ => recurse_structure c (os_path_join (p0 ++ n1 :: q) n)
             | _ => update_or_create_file (os_path_join (p0 ++ n1 :: q) n) c
             end w = (inl tt, w1) /\
             put (p0 ++ [n1]) (wrap q (Dir [(n, node_of c)])) (disk w)
             = Some (disk w1)).
  { destruct c; try discriminate.
    - destruct (clean_read_written Strict s Hrc) as (b & Hb & _).
      cbn [node_of]. rewrite Hb.
      destruct (makedirs_fresh p0 n1 q es0 w Hp0 Hn1) as (d1 & Hd1 & Hmk).
      destruct (put_new_below (p0 ++ [n1]) q n (File b) [] (disk w) d1 Hd1
                  eq_refl) as (_ & Hstat & Hput).
      rewrite path_cons_app in Hstat, Hput. cbn [app] in Hput.
      destruct (put_new_child p0 n1 (wrap q (Dir [(n, File b)])) (disk w)
                  es0 Hp0 Hn1) as (_ & _ & d & Hd2).
      pose proof (eq_trans Hput Hd2) as Hput'. eexists. split;
        [now apply (update_or_create_file_new_dirs _ n s b d1 d w)
        |exact Hd2].
    - cbn [stored_fresh] in Hc.
      destruct (Hc w p0 es0 n1 (q ++ [n]) Hp0 Hn1 Hrc Hfc Hnc)
        as (w1 & Hrun1 & Hw1).
      exists w1. split.
      + unfold os_path_join. now rewrite <- app_assoc.
      + now rewrite <- wrap_app. }
  destruct Hitem as (w1 & Hrun1 & Hw1).
  assert (Hp1 : stat (p0 ++ n1 :: q) (disk w1) = inl (Dir [(n, node_of c)])).
  { rewrite <- path_cons_app, stat_app, (put_stat_same _ _ _ _ Hw1).
    apply stat_wrap. }
  destruct (stored_after rest Hrest w1 (p0 ++ n1 :: q) [(n, node_of c)] Hp1)
    as (w' & Hrun & Hw').
  { intros item Hin. cbn [find_entry].
    assert (str_eqb n (fst item) = false) as ->; [|reflexivity].
    apply str_eqb_neq. intros ->. apply Hn. now apply in_map. }
  { cbn [restorable]. now rewrite Hd, Hres. }
  { exact Hned. }
  exists w'. split.
  - rewrite recurse_structure_cons. unfold bind. now rewrite Hrun1.
  - rewrite <- path_cons_app in Hw'.
    rewrite (put_below _ _ _ _ _ _ Hw1) in Hw'. exact Hw'.
Qed.

(** ** The loops of the script, call by call *)

Lemma fold_left_map_ext {A B C} (f : A -> B -> A) (g : A -> C -> A)
      (h : C -> B) (l : list C) (a : A) :
  (forall a x, In x l -> g a x = f a (h x)) ->
  fold_left g l a = fold_left f (map h l) a.
Proof.
  revert a; induction l as [|x l IH]; intros a H; [reflexivity|].
  cbn [map fold_left]. rewrite (H a x) by now left.
  apply IH. intros a' x' Hx'. apply H. now right.
Qed.

Lemma distinct_find_entry (n : name) (c : node) (es : list (name * node)) :
  distinct (map fst es) = true -> In (n, c) es -> find_entry n es = Some c.
Proof.
  induction es as [|[m y] es IH]; intros Hd Hin; [destruct Hin|].
  cbn [map fst distinct] in Hd. apply andb_true_iff in Hd as [Hm Hd].
  apply distinct_not_in in Hm. cbn [find_entry].
  destruct Hin as [[= -> ->]|Hin].
  - now rewrite str_eqb_refl.
  - assert (str_eqb m n = false) as ->.
    { apply str_eqb_neq. intros ->. apply Hm.
      apply in_map_iff. now exists (n, c). }
    now apply IH.
Qed.

Section Equations.

Variable fnmatch : pystr -> pystr -> bool.

(** [directory_to_dict] satisfies the recursive equation of the script:
    the loop over [os.listdir(path)] that skips the excluded names, calls
    itself on the directories and reads the files. *)
Lemma directory_to_dict_equation (fs : node) (path : path)
      (exclusions : list pystr) :
  unique_names fs = true ->
  directory_to_dict fnmatch fs path exclusions
  = match os_listdir fs path with
    | inr e => inr e
    | inl listing =>
      match
        fold_left
          (fun (acc : res (list (pystr * value))) (item : name) =>
             match acc with
             | inr e => inr e
             | inl result =>
               if should_exclude fnmatch item exclusions then inl result
               else
                 let item_path := os_path_join path item in
                 if os_path_isdir fs item_path
                 then
                   match directory_to_dict fnmatch fs item_path exclusions
                   with
                   | inl v => inl (dict_set result item v)
                   | inr e => inr e
                   end
                 else
                   match read_file fs item_path Ignore with
                   | inl text => inl (dict_set result item (VStr text))
                   | inr e => inr e
                   end
             end)
          listing (inl [])
      with
      | inl result => inl (VDict result)
      | inr e => inr e
      end
    end.
Proof.
  intros Hu. unfold directory_to_dict at 1, os_listdir.
  destruct (stat path fs) as [[b|es]|[]] eqn:Hp; try reflexivity.
  rewrite capture_node_dir. unfold capture_loop.
  rewrite <- (fold_left_map_ext _
                (fun acc (entry : name * node) =>
                   match acc with
                   | inr e => inr e
                   | inl result =>
                     if should_exclude fnmatch (fst entry) exclusions
                     then inl result
                     else
                       match capture_node fnmatch exclusions (snd entry) with
                       | inl v => inl (dict_set result (fst entry) v)
                       | inr e => inr e
                       end
                   end) fst es (inl [])); [reflexivity|].
  intros [result|e] [n c] Hin; [|reflexivity]. cbn [fst snd].
  destruct (should_exclude fnmatch n exclusions); [reflexivity|].
  assert (Hes : unique_names (Dir es) = true)
    by now apply (unique_names_stat path fs).
  cbn [unique_names] in Hes. apply andb_true_iff in Hes as [Hd _].
  assert (Hc : stat (os_path_join path n) fs = inl c).
  { unfold os_path_join. rewrite stat_app, Hp. cbn [stat].
    now rewrite (distinct_find_entry n c es Hd Hin). }
  unfold os_path_isdir, directory_to_dict, read_file. rewrite Hc.
  destruct c as [b|es']; [|reflexivity].
  cbn [capture_node]. now destruct (read_text Ignore b).
Qed.

(** [directory_to_markdown] satisfies the recursive equation of the
    script. *)
Lemma directory_to_markdown_equation (fs : node) (path : path)
      (exclusions : list pystr) :
  unique_names fs = true ->
  directory_to_markdown fnmatch fs path exclusions
  = match os_listdir fs path with
    | inr e => inr e
    | inl listing =>
      match
        fold_left
          (fun (acc : res (list pystr)) (item : name) =>
             match acc with
             | inr e => inr e
             | inl markdown_content =>
               if should_exclude fnmatch item exclusions
               then inl markdown_content
               else
                 let item_path := os_path_join path item in
                 if os_path_isdir fs item_path
                 then
                   match directory_to_markdown fnmatch fs item_path
                           exclusions with
                   | inl text => inl (markdown_content ++ [text])
                   | inr e => inr e
                   end
                 else
                   match read_file fs item_path Ignore with
                   | inl file_content =>
                     inl (markdown_content
                            ++ [file_section item_path file_content])
                   | inr e => inr e
                   end
             end)
          listing (inl [])
      with
      | inl markdown_content => inl (str_join [LF] markdown_content)
      | inr e => inr e
      end
    end.
Proof.
  intros Hu. unfold directory_to_markdown at 1, os_listdir.
  destruct (stat path fs) as [[b|es]|[]] eqn:Hp; try reflexivity.
  rewrite markdown_node_dir. unfold markdown_loop.
  rewrite <- (fold_left_map_ext _
                (fun acc (entry : name * node) =>
                   match acc with
                   | inr e => inr e
                   | inl markdown_content =>
                     if should_exclude fnmatch (fst entry) exclusions
                     then inl markdown_content
                     else
                       match markdown_node fnmatch exclusions
                               (os_path_join path (fst entry)) (snd entry)
                       with
                       | inl text => inl (markdown_content ++ [text])
                       | inr e => inr e
                       end
                   end) fst es (inl [])); [reflexivity|].
  intros [mc|e] [n c] Hin; [|reflexivity]. cbn [fst snd].
  destruct (should_exclude fnmatch n exclusions); [reflexivity|].
  assert (Hes : unique_names (Dir es) = true)
    by now apply (unique_names_stat path fs).
  cbn [unique_names] in Hes. apply andb_true_iff in Hes as [Hd _].
  assert (Hc : stat (os_path_join path n) fs = inl c).
  { unfold os_path_join. rewrite stat_app, Hp. cbn [stat].
    now rewrite (distinct_find_entry n c es Hd Hin). }
  unfold os_path_isdir, directory_to_markdown, read_file. rewrite Hc.
  destruct c as [b|es']; [|reflexivity].
  cbn [markdown_node]. now destruct (read_text Ignore b).
Qed.

End Equations.

(** * Capture and markdown, entry by entry *)

Section CaptureKeys.

Variable fnmatch : pystr -> pystr -> bool.

Lemma markdown_node_total exclusions (t : node) (p : path) :
  exists text, markdown_node fnmatch exclusions p t = inl text.
Proof.
  revert p. induction t as [b|es IH] using node_nested_ind; intros p.
  - cbn [markdown_node]. destruct (read_ignore_clean b) as (s & -> & _). eauto.
  - rewrite markdown_node_dir.
    enough (H : forall mc, exists mc',
                 markdown_loop fnmatch exclusions p es (inl mc) = inl mc').
    { destruct (H []) as [mc' ->]. eauto. }
    induction es as [|[item child] es IHes]; intros mc; [cbn; eauto|].
    inversion IH as [|? ? Hc Hes]; subst. cbn [snd] in Hc.
    rewrite markdown_loop_cons.
    destruct (should_exclude fnmatch item exclusions); [now apply IHes|].
    destruct (Hc (os_path_join p item)) as [text ->]. now apply IHes.
Qed.

(** A key of the dictionary of a listing comes from an entry that no
    pattern excludes, or was there before. *)
Lemma capture_loop_get_inv exclusions entries result result' item c :
  distinct (map fst entries) = true ->
  capture_loop fnmatch exclusions entries (inl result) = inl result' ->
  dict_get result' item = Some c ->
  (find_entry item entries = None /\ dict_get result item = Some c) \/
  (exists child, find_entry item entries = Some child /\
                 should_exclude fnmatch item exclusions = false /\
                 capture_node fnmatch exclusions child = inl c) \/
  (should_exclude fnmatch item exclusions = true /\
   dict_get result item = Some c).
Proof.
  revert result; induction entries as [|[n ch] rest IH];
    intros result Hd H Hget.
  - cbn in H. injection H as <-. left. split; [reflexivity|assumption].
  - cbn [map fst distinct] in Hd. apply andb_true_iff in Hd as [Hn Hd].
    apply distinct_not_in in Hn.
    apply capture_loop_ok_inv in H. cbn [find_entry].
    destruct (str_eqb n item) eqn:E.
    + apply str_eqb_eq in E. subst n.
      destruct (should_exclude fnmatch item exclusions) eqn:Ex.
      * right. right. split; [reflexivity|].
        now rewrite <- (capture_loop_keeps _ _ _ _ _ item Hn H).
      * destruct H as (v & Hv & H). right. left. exists ch.
        repeat split; try assumption.
        rewrite (capture_loop_keeps _ _ _ _ _ item Hn H) in Hget.
        rewrite dict_get_set_same in Hget. congruence.
    + apply str_eqb_neq in E.
      destruct (should_exclude fnmatch n exclusions).
      * now apply (IH result).
      * destruct H as (v & _ & H).
        destruct (IH _ Hd H Hget) as [[Hf Hg]|[Hf|[Hx Hg]]].
        -- left. split; [assumption|].
           rewrite dict_get_set_other in Hg; [assumption|congruence].
        -- right. now left.
        -- right. right. split; [assumption|].
           rewrite dict_get_set_other in Hg; [assumption|congruence].
Qed.

Lemma capture_node_keys exclusions (r : path) :
  forall (t : node) (v : value),
    unique_names t = true ->
    capture_node fnmatch exclusions t = inl v ->
    match doc_get v r with
    | Some (VDict _) => is_dir r t /\ excluded fnmatch exclusions r = false
    | Some (VStr _) => is_file r t /\ excluded fnmatch exclusions r = false
    | Some _ => False
    | None =>
      excluded fnmatch exclusions r = true \/ exists e, stat r t = inr e
    end.
Proof.
  induction r as [|n r IH]; intros t v Ht Hv.
  - cbn [doc_get]. destruct t as [b|es].
    + cbn [capture_node] in Hv.
      destruct (read_text Ignore b); [|discriminate]. injection Hv as <-.
      split; [now exists b|reflexivity].
    + rewrite capture_node_dir in Hv.
      destruct (capture_loop fnmatch exclusions es (inl [])); [|discriminate].
      injection Hv as <-. split; [now exists es|reflexivity].
  - destruct t as [b|es].
    + cbn [capture_node] in Hv.
      destruct (read_text Ignore b); [|discriminate]. injection Hv as <-.
      cbn. right. eauto.
    + rewrite capture_node_dir in Hv.
      destruct (capture_loop fnmatch exclusions es (inl [])) as [result|e]
        eqn:El; [|discriminate].
      injection Hv as <-. cbn [unique_names] in Ht.
      apply andb_true_iff in Ht as [Hd Hall].
      cbn [doc_get]. unfold excluded, is_dir, is_file. cbn [existsb stat].
      destruct (dict_get result n) as [c|] eqn:Eg.
      * destruct (capture_loop_get_inv _ _ _ _ _ _ Hd El Eg)
          as [[_ Hg]|[(child & Hf & Hx & Hc)|[_ Hg]]]; try discriminate.
        rewrite Hf, Hx. cbn [orb].
        apply (IH child c); [|assumption].
        rewrite forallb_forall in Hall. apply (Hall (n, child)).
        now apply find_entry_In.
      * destruct (should_exclude fnmatch n exclusions) eqn:Ex; [now left|].
        right. destruct (find_entry n es) as [child|] eqn:Ef; [|eauto].
        destruct (capture_loop_get _ _ _ _ _ _ _ Hd El Ef Ex) as (v & _ & Hg).
        congruence.
Qed.

(** What [directory_to_markdown] appends for an entry is the text of what
    [directory_to_dict] stores for it. *)
Lemma markdown_loop_of exclusions (p : path) (es : list (name * node)) :
  Forall (fun entry =>
            forall p v, unique_names (snd entry) = true ->
                        capture_node fnmatch exclusions (snd entry) = inl v ->
                        markdown_node fnmatch exclusions p (snd entry)
                        = inl (markdown_of v p)) es ->
  forall result mc result',
    distinct (map fst es) = true ->
    forallb (fun entry : name * node => unique_names (snd entry)) es = true ->
    (forall n, In n (map fst es) -> ~ In n (map fst result)) ->
    capture_loop fnmatch exclusions es (inl result) = inl result' ->
    exists added,
      result' = result ++ added /\
      markdown_loop fnmatch exclusions p es (inl mc)
      = inl (mc ++ map (fun item : pystr * value =>
                          markdown_of (snd item) (os_path_join p (fst item)))
                       added).
Proof.
  induction 1 as [|[n c] rest Hc _ IH]; intros result mc result' Hd Hu Hnew H.
  - cbn in H. injection H as <-. exists []. split.
    + now rewrite app_nil_r.
    + cbn. now rewrite app_nil_r.
  - cbn [map fst distinct forallb snd] in Hd, Hu, Hc.
    apply andb_true_iff in Hd as [Hn Hd]. apply distinct_not_in in Hn.
    apply andb_true_iff in Hu as [Huc Hu].
    apply capture_loop_ok_inv in H. rewrite markdown_loop_cons.
    destruct (should_exclude fnmatch n exclusions).
    { apply (IH result mc result'); try assumption.
      intros m Hm. apply Hnew. now right. }
    destruct H as (v & Hv & H).
    assert (Hset : dict_set result n v = result ++ [(n, v)]).
    { apply dict_set_new. apply Hnew. now left. }
    rewrite Hset in H.
    destruct (IH (result ++ [(n, v)])
                 (mc ++ [markdown_of v (os_path_join p n)]) result')
      as (added & Hres & Hmd); try assumption.
    { intros m Hm. rewrite map_app, in_app_iff. cbn [map fst].
      intros [Hin|[->|[]]]; [|contradiction].
      apply (Hnew m); [now right|assumption]. }
    exists ((n, v) :: added). split.
    + now rewrite Hres, <- app_assoc.
    + rewrite (Hc (os_path_join p n) v Huc Hv), Hmd, <- app_assoc.
      reflexivity.
Qed.

Lemma markdown_node_of exclusions (t : node) :
  forall p v, unique_names t = true ->
              capture_node fnmatch exclusions t = inl v ->
              markdown_node fnmatch exclusions p t = inl (markdown_of v p).
Proof.
  induction t as [b|es IH] using node_nested_ind; intros p v Hu Hv.
  - cbn [capture_node markdown_node] in *.
    destruct (read_text Ignore b) as [text|]; [|discriminate].
    now injection Hv as <-.
  - rewrite capture_node_dir in Hv. rewrite markdown_node_dir.
    destruct (capture_loop fnmatch exclusions es (inl [])) as [result|e]
      eqn:El; [|discriminate].
    injection Hv as <-. cbn [unique_names] in Hu.
    apply andb_true_iff in Hu as [Hd Hu].
    destruct (markdown_loop_of exclusions p es IH [] [] result Hd Hu)
      as (added & Hres & Hmd); [intros n _ []|assumption|].
    cbn [app] in Hres. subst added. rewrite Hmd. reflexivity.
Qed.

End CaptureKeys.

(** X2.  [directory_to_dict] and [directory_to_markdown] fail on the same
    paths with the same exception, the one of [os.listdir]:
    [NotADirectoryError] for a file and for a path through a file,
    [FileNotFoundError] for a missing path.  On a directory both return, the
    first with a mapping: nothing below the directory makes them raise. *)
Theorem capture_and_markdown_raise_alike
        (fnmatch : pystr -> pystr -> bool)
        (fs : node) (path : path) (exclusions : list pystr) :
  match stat path fs with
  | inl (Dir _) =>
    (exists items,
        directory_to_dict fnmatch fs path exclusions = inl (VDict items)) /\
    (exists text, directory_to_markdown fnmatch fs path exclusions = inl text)
  | inl (File _) | inr ENOTDIR =>
    directory_to_dict fnmatch fs path exclusions = inr NotADirectoryError /\
    directory_to_markdown fnmatch fs path exclusions = inr NotADirectoryError
  | inr ENOENT =>
    directory_to_dict fnmatch fs path exclusions = inr FileNotFoundError /\
    directory_to_markdown fnmatch fs path exclusions = inr FileNotFoundError
  end.
Proof.
  unfold directory_to_dict, directory_to_markdown.
  destruct (stat path fs) as [[b|es]|[]]; try (split; reflexivity).
  split; [|apply markdown_node_total].
  rewrite capture_node_dir.
  destruct (capture_node_total fnmatch exclusions (Dir es)) as [v Hv].
  rewrite capture_node_dir in Hv.
  destruct (capture_loop fnmatch exclusions es (inl [])); [eauto|discriminate].
Qed.

(** X3.  The keys of a captured tree are the entries that are not excluded.
    Along a relative path [r] the tree has a mapping where the disk has a
    directory and a string where it has a file, and then no name of [r]
    matches a pattern; it has no other value; and it has nothing at [r] only
    when a name of [r] matches a pattern or the disk has nothing there. *)
Theorem captured_keys_are_the_entries_not_excluded
        (fnmatch : pystr -> pystr -> bool)
        (fs : node) (path : path) (exclusions : list pystr) (tree : value) :
  unique_names fs = true ->
  directory_to_dict fnmatch fs path exclusions = inl tree ->
  forall r : list name,
    match doc_get tree r with
    | Some (VDict _) =>
      is_dir (path ++ r) fs /\ excluded fnmatch exclusions r = false
    | Some (VStr _) =>
      is_file (path ++ r) fs /\ excluded fnmatch exclusions r = false
    | Some _ => False
    | None =>
      excluded fnmatch exclusions r = true \/
      exists e, stat (path ++ r) fs = inr e
    end.
Proof.
  intros Hu Hv r. unfold directory_to_dict in Hv.
  destruct (stat path fs) as [[b|es]|[]] eqn:Hp; try discriminate.
  assert (Hes : unique_names (Dir es) = true)
    by now apply (unique_names_stat path fs).
  generalize (capture_node_keys fnmatch exclusions r (Dir es) tree Hes Hv).
  unfold is_dir, is_file. rewrite stat_app, Hp. auto.
Qed.

(** X5.  The markdown text is a function of the captured tree.  On a disk
    where no directory has a name twice, [directory_to_markdown] returns the
    text [markdown_of] makes from what [directory_to_dict] returns for the
    same path and exclusions: the section of every string under its path,
    the texts of the items of a mapping joined by line feeds. *)
Theorem markdown_of_captured_tree
        (fnmatch : pystr -> pystr -> bool)
        (fs : node) (path : path) (exclusions : list pystr) (tree : value) :
  unique_names fs = true ->
  directory_to_dict fnmatch fs path exclusions = inl tree ->
  directory_to_markdown fnmatch fs path exclusions
  = inl (markdown_of tree path).
Proof.
  intros Hu Hv. unfold directory_to_dict, directory_to_markdown in *.
  destruct (stat path fs) as [[b|es]|[]] eqn:Hp; try discriminate.
  apply markdown_node_of; [|assumption].
  now apply (unique_names_stat path fs).
Qed.

(** ** The language tag *)

Lemma rfind_dot_py (stem : pystr) :
  rfind_dot (stem ++ lit ".py") = Some (length stem).
Proof.
  induction stem as [|c stem IH]; [reflexivity|].
  cbn [app rfind_dot length]. now rewrite IH.
Qed.

Lemma rfind_dot_bound (s : pystr) (i : nat) :
  rfind_dot s = Some i -> (i < length s)%nat.
Proof.
  revert i; induction s as [|c s IH]; intros i; cbn [rfind_dot length];
    [discriminate|].
  destruct (rfind_dot s) as [j|].
  - intros [= <-]. specialize (IH j eq_refl). lia.
  - destruct (c =? 46); [|discriminate]. intros [= <-]. lia.
Qed.

Lemma path_suffix_py (dir : path) (stem : pystr) :
  stem <> [] -> path_suffix (dir ++ [stem ++ lit ".py"]) = lit ".py".
Proof.
  intros Hs. unfold path_suffix. rewrite last_last, rfind_dot_py.
  rewrite length_app. change (length (lit ".py")) with 3%nat.
  destruct stem as [|c stem]; [contradiction|].
  replace ((0 <? length (c :: stem))%nat) with true
    by (symmetry; apply Nat.ltb_lt; cbn; lia).
  replace ((length (c :: stem) <? length (c :: stem) + 3 - 1)%nat) with true
    by (symmetry; apply Nat.ltb_lt; lia).
  cbn [andb]. rewrite skipn_app, skipn_all, Nat.sub_diag. reflexivity.
Qed.

Lemma path_suffix_py_inv (p : path) :
  path_suffix p = lit ".py" ->
  exists stem, stem <> [] /\ last p [] = stem ++ lit ".py".
Proof.
  unfold path_suffix. destruct (rfind_dot (last p [])) as [i|] eqn:E;
    [|discriminate].
  destruct ((0 <? i)%nat && (i <? length (last p []) - 1)%nat) eqn:Ei;
    [|discriminate].
  apply andb_true_iff in Ei as [H0 H1]. apply Nat.ltb_lt in H0, H1.
  intros Hs. exists (firstn i (last p [])). split.
  - intros Hf. apply (f_equal (@length _)) in Hf.
    rewrite length_firstn in Hf. cbn in Hf. lia.
  - rewrite <- Hs. symmetry. apply firstn_skipn.
Qed.

(** X6.  The fence of a section.  A file whose name is a stem with a
    character other than the dot followed by [.py] gets the fence with the
    tag [python]; a file whose name is not a non-empty stem followed by
    [.py] gets the fence without a tag. *)
Theorem python_fence_for_py_suffix :
  (forall (dir : path) (stem file_content : pystr),
      existsb (fun c => negb (c =? DOT)) stem = true ->
      file_section (dir ++ [stem ++ lit ".py"]) file_content
      = python_section (dir ++ [stem ++ lit ".py"]) file_content) /\
  (forall (item_path : path) (file_content : pystr),
      (forall stem, stem <> [] -> last item_path [] <> stem ++ lit ".py") ->
      file_section item_path file_content
      = plain_section item_path file_content).
Proof.
  split.
  - intros dir stem c Hs. unfold file_section.
    rewrite path_suffix_py; [reflexivity|]. now intros ->.
  - intros p c Hp. unfold file_section.
    destruct (str_eqb (path_suffix p) (lit ".py")) eqn:E; [|reflexivity].
    apply str_eqb_eq, path_suffix_py_inv in E as (stem & Hs & Hl).
    now destruct (Hp stem Hs).
Qed.

(** * Reconciliation, call by call *)

(** ** What a run that returns leaves in the files *)

Lemma translate_newlines_twice (s : pystr) :
  translate_newlines (translate_newlines s) = translate_newlines s.
Proof. apply translate_no_cr. apply translate_newlines_clean. Qed.

Lemma holds_text_read (p : path) (s : pystr) (d : node) :
  holds_text p s d ->
  exists b, stat p d = inl (File b) /\
            read_text Strict b = Some (translate_newlines s).
Proof.
  intros (b & Hb & [He|Hr]); exists b; (split; [assumption|]).
  - unfold read_text. now rewrite (decode_encode Strict s b He).
  - rewrite Hr. f_equal. unfold read_text in Hr.
    destruct (utf8_decode Strict b) as [t|]; [|discriminate].
    injection Hr as <-. symmetry. apply translate_newlines_twice.
Qed.

(** X11.  After a run of [update_files_from_json] that returns, on a
    document with no key twice whose keys are path segments, every file that
    the document names has the string given for it: read as the script
    reads, it is that string with its line endings turned into line
    feeds. *)
Theorem reconciled_files_read_as_the_document
        (directory_path : path) (new_structure : value) (w w' : world) :
  valid_keys new_structure = true ->
  unique_keys new_structure = true ->
  update_files_from_json directory_path (Some new_structure) w
  = (inl tt, w') ->
  forall file_path content,
    In (file_path, content) (targets new_structure directory_path) ->
    exists s b,
      content = VStr s /\
      stat file_path (disk w') = inl (File b) /\
      read_text Strict b = Some (translate_newlines s).
Proof.
  intros _ Hu Hrun p c Hin. cbn [update_files_from_json] in Hrun.
  destruct new_structure; try discriminate.
  rewrite recurse_structure_calls in Hrun.
  destruct (update_all_ok_texts _ _ _ Hrun
              (unique_keys_targets _ directory_path Hu) (p, c) Hin)
    as (s & Hs & Hh).
  cbn [fst snd] in *. apply holds_text_read in Hh as (b & Hb & Hr).
  exists s, b. auto.
Qed.

(** ** A content that cannot be written *)

Lemma read_strict_encodable (b : bytes) (s : pystr) :
  read_text Strict b = Some s -> encodable s = true.
Proof.
  unfold read_text. destruct (utf8_decode Strict b) as [t|] eqn:E;
    [|discriminate].
  intros [= <-]. apply translate_newlines_clean.
  apply encodable_iff. apply decode_strict_any with (e := Ignore) in E.
  destruct (decode_ignore_decoded b) as (t' & b' & Ht & Hb' & _).
  exists b'. congruence.
Qed.

Lemma exists_true (p : path) (y : node) (w : world) :
  stat p (disk w) = inl y -> os_path_exists p w = (inl true, w).
Proof. unfold os_path_exists. now intros ->. Qed.

Lemma exists_false (p : path) (e : errno) (w : world) :
  stat p (disk w) = inr e -> os_path_exists p w = (inl false, w).
Proof. unfold os_path_exists. now intros ->. Qed.

(** X12.  A content that cannot be written empties the file.  When the file
    at [file_path] is there and decodes, and the content is a string with a
    lone surrogate or is not a string, [update_or_create_file] has opened
    the file for writing when [f.write] raises, [UnicodeEncodeError] for the
    string and [TypeError] otherwise: the old text is lost, the file is left
    empty and nothing is logged. *)
Theorem unwritable_content_empties_the_file
        (file_path : path) (content : value) (b : bytes) (old : pystr)
        (w : world) :
  stat file_path (disk w) = inl (File b) ->
  read_text Strict b = Some old ->
  writable content = false ->
  exists d,
    put file_path (File []) (disk w) = Some d /\
    stat file_path d = inl (File []) /\
    update_or_create_file file_path content w
    = (inr (write_error content),
       mkWorld d (writes w ++ [file_path]) (log w)).
Proof.
  intros Hp Hold Hw.
  destruct (put_exists file_path (File []) _ _ Hp) as [d Hd].
  exists d. split; [assumption|].
  split; [now apply (put_stat_same _ _ (disk w))|].
  destruct (stat_dirname _ _ _ Hp) as [z Hz].
  assert (Hne : py_ne old content = true).
  { destruct content; try reflexivity. cbn in Hw |- *.
    apply negb_true_iff, str_eqb_neq. intros <-.
    rewrite (read_strict_encodable _ _ Hold) in Hw. discriminate. }
  unfold update_or_create_file, bind.
  rewrite (exists_true _ _ _ Hz). cbn [negb ret].
  rewrite (exists_true _ _ _ Hp).
  unfold open_read. rewrite Hp, Hold, Hne.
  unfold open_write, bind, open_w. rewrite Hp, Hd.
  destruct content; try reflexivity.
  cbn in Hw |- *.
  destruct (utf8_encode s) as [bs|] eqn:E; [|reflexivity].
  assert (encodable s = true) by (apply encodable_iff; eauto). congruence.
Qed.

(** ** A path that cannot hold a file *)

Lemma makedirs_from_last_below_file (q : path) (b : bytes) (m : name)
      (l : list name) (w : world) :
  stat q (disk w) = inl (File b) ->
  makedirs_from_last (l ++ m :: rev q) w = (inr NotADirectoryError, w).
Proof.
  intros Hq.
  assert (Hrev : forall l', rev (l' ++ m :: rev q) = q ++ m :: rev l').
  { intros l'. rewrite rev_app_distr. cbn [rev].
    now rewrite rev_involutive, <- app_assoc. }
  assert (Hbelow : forall l', stat (q ++ m :: l') (disk w) = inr ENOTDIR)
    by (intros l'; now rewrite stat_app, Hq).
  induction l as [|x l IH]; cbn [app makedirs_from_last]; unfold bind.
  - rewrite rev_involutive, (exists_true _ _ _ Hq). cbn [negb ret].
    unfold os_mkdir. generalize (Hrev []). cbn [app]. intros ->.
    rewrite Hbelow. reflexivity.
  - rewrite Hrev, (exists_false _ _ _ (Hbelow _)). cbn [negb].
    unfold try_except_pass. rewrite IH. reflexivity.
Qed.

Lemma makedirs_below_file (q : path) (b : bytes) (m : name) (r : path)
      (w : world) :
  stat q (disk w) = inl (File b) ->
  os_makedirs (q ++ m :: r) w = (inr NotADirectoryError, w).
Proof.
  intros Hq. unfold os_makedirs.
  replace (rev (q ++ m :: r)) with (rev r ++ m :: rev q).
  - now apply (makedirs_from_last_below_file q b).
  - rewrite rev_app_distr. cbn [rev]. now rewrite <- app_assoc.
Qed.

(** X13.  A path that cannot hold a file.  When [file_path] is a directory,
    [update_or_create_file] raises [IsADirectoryError]; when a file lies on
    the way to [file_path], it raises [NotADirectoryError].  In both cases
    nothing is written, opened or logged, whatever the content. *)
Theorem blocked_path_raises_and_changes_nothing
        (file_path : path) (content : value) (w : world) :
  ((exists es, stat file_path (disk w) = inl (Dir es)) ->
   update_or_create_file file_path content w = (inr IsADirectoryError, w)) /\
  (forall q b,
      stat q (disk w) = inl (File b) ->
      is_prefix q file_path = true -> q <> file_path ->
      update_or_create_file file_path content w
      = (inr NotADirectoryError, w)).
Proof.
  split.
  - intros [es Hp]. destruct (stat_dirname _ _ _ Hp) as [z Hz].
    unfold update_or_create_file, bind.
    rewrite (exists_true _ _ _ Hz). cbn [negb ret].
    rewrite (exists_true _ _ _ Hp). unfold open_read. now rewrite Hp.
  - intros q b Hq Hpre Hne. apply is_prefix_iff in Hpre as [r ->].
    destruct r as [|n r] using rev_ind.
    { rewrite app_nil_r in Hne. contradiction. }
    clear IHr. rewrite app_assoc.
    change ((q ++ r) ++ [n]) with (os_path_join (q ++ r) n).
    unfold update_or_create_file. rewrite dirname_join.
    assert (Hfile : stat (os_path_join (q ++ r) n) (disk w) = inr ENOTDIR).
    { unfold os_path_join. rewrite <- app_assoc, stat_app, Hq.
      destruct r; reflexivity. }
    unfold bind. destruct r as [|m r].
    + rewrite app_nil_r in *. rewrite (exists_true _ _ _ Hq). cbn [negb ret].
      rewrite (exists_false _ _ _ Hfile).
      unfold open_write, bind, open_w. now rewrite Hfile.
    + assert (He : stat (q ++ m :: r) (disk w) = inr ENOTDIR)
        by now rewrite stat_app, Hq.
      rewrite (exists_false _ _ _ He). cbn [negb].
      now rewrite (makedirs_below_file _ _ _ _ _ Hq).
Qed.

(** ** Nothing is deleted *)

Lemma put_dir_is_dir (p : path) (x : node) (es : list (name * node))
      (t : node) :
  p <> [] -> put p x (Dir es) = Some t -> exists es', t = Dir es'.
Proof.
  destruct p as [|n p]; [contradiction|]. intros _. cbn [put].
  destruct (find_entry n es) as [c|].
  - destruct (put p x c); [|discriminate]. intros [= <-]. eauto.
  - destruct p; [|discriminate]. intros [= <-]. eauto.
Qed.

Lemma step_is_dir k p q d d' :
  step k p d d' -> is_dir q d -> is_dir q d'.
Proof.
  intros Hs [es Hq].
  destruct (is_prefix q p) eqn:E.
  - apply is_prefix_iff in E as [r ->].
    assert (Hput : exists x, put (q ++ r) x d = Some d')
      by (destruct Hs; eauto).
    assert (Hp : stat (q ++ r) d = inr ENOENT \/
                 exists b, stat (q ++ r) d = inl (File b))
      by (destruct Hs; eauto).
    destruct Hput as [x Hput].
    assert (Hr : r <> []).
    { intros ->. rewrite app_nil_r, Hq in Hp.
      destruct Hp as [Hp|[b Hp]]; discriminate. }
    rewrite (put_app _ _ _ _ _ Hq) in Hput.
    destruct (put r x (Dir es)) as [y|] eqn:Ey; [|discriminate].
    destruct (put_dir_is_dir _ _ _ _ Hr Ey) as [es' ->].
    exists es'. now apply (put_stat_same _ _ d).
  - exists es. now apply (step_frame k p q d d').
Qed.

Lemma steps_is_dir (P : change -> path -> Prop) q d d' :
  steps P d d' -> is_dir q d -> is_dir q d'.
Proof.
  induction 1 as [|k p d d1 d2 Hp Hs _ IH]; [auto|].
  intros Hq. apply IH. now apply (step_is_dir k p q d d1).
Qed.

(** X16.  [update_files_from_json] deletes nothing and turns no file into a
    directory or a directory into a file: whatever the document, and whether
    the run returns or raises, a file of the disk is still a file afterwards
    and a directory still a directory. *)
Theorem reconcile_deletes_nothing
        (directory_path : path) (new_structure : value) (w : world)
        (q : path) :
  let w' := snd (update_files_from_json directory_path
                                        (Some new_structure) w) in
  (is_file q (disk w) -> is_file q (disk w')) /\
  (is_dir q (disk w) -> is_dir q (disk w')).
Proof.
  cbn zeta. cbn [update_files_from_json].
  assert (Hs : exists P, steps P (disk w)
                 (disk (snd (recurse_structure new_structure
                                               directory_path w)))).
  { destruct new_structure;
      try (exists (fun _ _ => True); constructor).
    exists (calls_change (targets (VDict items) directory_path)).
    rewrite recurse_structure_calls. apply evolves_update_all. }
  destruct Hs as [P Hs]. split.
  - now apply (steps_is_file P).
  - now apply (steps_is_dir P).
Qed.

(** ** The log and the files opened for writing *)

Lemma quiet_mkdir p w : traces (os_mkdir p) w [] [].
Proof.
  unfold traces, os_mkdir.
  destruct (stat p (disk w)) as [y|[]]; cbn; rewrite ?app_nil_r; auto.
  destruct (put p (Dir []) (disk w)); cbn; rewrite ?app_nil_r; auto.
Qed.

Lemma quiet_makedirs_from_last rname w :
  traces (makedirs_from_last rname) w [] [].
Proof.
  revert w; induction rname as [|tail rhead IH]; intros w;
    cbn [makedirs_from_last]; [apply quiet_mkdir|].
  unfold traces, bind, os_path_exists.
  set (h := match stat (rev rhead) (disk w) with
            | inl _ => true | inr _ => false end).
  assert (Hin : forall w1 r,
             (if negb h
              then try_except_pass (makedirs_from_last rhead) FileExistsError
              else ret tt) w = (r, w1) ->
             writes w1 = writes w /\ log w1 = log w).
  { destruct (negb h); [|intros w1 r [= _ <-]; auto].
    unfold try_except_pass. intros w1 r.
    destruct (IH w) as [Hw Hl]. rewrite !app_nil_r in *.
    destruct (makedirs_from_last rhead w) as [[[]|e] w2]; cbn [snd] in *.
    - intros [= _ <-]. auto.
    - destruct (exn_eqb FileExistsError e); intros [= _ <-]; auto. }
  destruct ((if negb h
             then try_except_pass (makedirs_from_last rhead) FileExistsError
             else ret tt) w) as [[[]|e] w1] eqn:E;
    destruct (Hin _ _ eq_refl) as [Hw Hl]; cbn [snd]; rewrite ?app_nil_r.
  - destruct (quiet_mkdir (rev (tail :: rhead)) w1) as [Hw2 Hl2].
    rewrite !app_nil_r in *. split; congruence.
  - auto.
Qed.

Lemma update_or_create_file_log (p : path) (c : value) (w w' : world) :
  update_or_create_file p c w = (inl tt, w') ->
  exists ws l,
    writes w' = writes w ++ ws /\ log w' = log w ++ l /\
    flat_map written l = ws.
Proof.
  unfold update_or_create_file. intros H.
  apply bind_ok in H as (dir_exists & w1 & He1 & H).
  apply exists_ok in He1 as [-> _].
  apply bind_ok in H as ([] & w2 & Hmk & H).
  assert (Hq : exists l0, writes w2 = writes w /\ log w2 = log w ++ l0 /\
                          flat_map written l0 = []).
  { destruct (negb dir_exists).
    - apply bind_ok in Hmk as ([] & w1' & Hm & Hl).
      apply logging_info_ok in Hl as (_ & Hlw & Hll).
      destruct (quiet_makedirs_from_last (rev (os_path_dirname p)) w)
        as [Hw0 Hl0].
      unfold os_makedirs in Hm. rewrite Hm in Hw0, Hl0. cbn [snd] in *.
      rewrite app_nil_r in *.
      exists [DirCreated (os_path_dirname p)].
      repeat split; try congruence.
    - injection Hmk as <-. exists []. now rewrite app_nil_r. }
  destruct Hq as (l0 & Hw2 & Hl2 & Hf0).
  apply bind_ok in H as (file_exists & w3 & He & H).
  apply exists_ok in He as [-> ->].
  destruct (stat p (disk w2)) as [y|e] eqn:Ep.
  - apply bind_ok in H as (old & w4 & Hr & H).
    apply open_read_ok in Hr as (-> & _).
    destruct (py_ne old c) eqn:Ene.
    + apply bind_ok in H as ([] & w5 & Hw & H).
      apply open_write_ok in Hw as (s & b & -> & _ & _ & _ & Hw5 & Hl5).
      apply bind_ok in H as (n & w6 & Hn & H).
      cbn in Hn. injection Hn as <- <-.
      apply logging_info_ok in H as (_ & Hw' & Hl').
      exists [p], (l0 ++ [FileUpdated p (length (splitlines old))
                                      (length (splitlines s))]).
      rewrite flat_map_app, Hf0. cbn.
      repeat split; try congruence.
      rewrite app_assoc. congruence.
    + injection H as <-. exists [], l0. now rewrite app_nil_r.
  - apply bind_ok in H as ([] & w5 & Hw & H).
    apply open_write_ok in Hw as (s & b & -> & _ & _ & _ & Hw5 & Hl5).
    apply logging_info_ok in H as (_ & Hw' & Hl').
    exists [p], (l0 ++ [FileCreated p]).
    rewrite flat_map_app, Hf0. cbn.
    repeat split; try congruence.
    rewrite app_assoc. congruence.
Qed.

Lemma update_all_log (calls : list (path * value)) (w w' : world) :
  update_all calls w = (inl tt, w') ->
  exists ws l,
    writes w' = writes w ++ ws /\ log w' = log w ++ l /\
    flat_map written l = ws.
Proof.
  revert w; induction calls as [|[p c] rest IH]; intros w H.
  - injection H as <-. exists [], []. now rewrite !app_nil_r.
  - cbn [update_all] in H. apply bind_ok in H as ([] & w1 & H1 & H2).
    apply update_or_create_file_log in H1 as (ws1 & l1 & Hw1 & Hl1 & Hf1).
    apply IH in H2 as (ws2 & l2 & Hw2 & Hl2 & Hf2).
    exists (ws1 ++ ws2), (l1 ++ l2). rewrite flat_map_app, !app_assoc.
    repeat split; congruence.
Qed.

(** X17.  The log tells every write.  After a run that returns, the files
    opened for writing are, in order, the files of the records of an update
    and of a creation that the run logged: no file is written without a
    record, and none of these records is logged without a write. *)
Theorem log_reports_every_write
        (directory_path : path) (new_structure : value) (w w' : world) :
  update_files_from_json directory_path (Some new_structure) w
  = (inl tt, w') ->
  exists opened logged,
    writes w' = writes w ++ opened /\
    log w' = log w ++ logged /\
    flat_map written logged = opened.
Proof.
  cbn [update_files_from_json]. destruct new_structure; try discriminate.
  rewrite recurse_structure_calls. apply update_all_log.
Qed.

(** ** Missing parents *)

(** X14.  Missing parents are made.  When the directory [p0] has no entry
    [n1], writing a string to a file in [p0/n1/q] makes every directory of
    that way, writes the file with the encoded string, and logs the
    directory made, once and with its full path, and then the file
    created. *)
Theorem missing_parents_are_made
        (p0 : path) (es0 : list (name * node)) (n1 : name) (q : path)
        (n : name) (s : pystr) (b : bytes) (w : world) :
  stat p0 (disk w) = inl (Dir es0) ->
  find_entry n1 es0 = None ->
  utf8_encode s = Some b ->
  let dir_name := p0 ++ n1 :: q in
  let file_path := os_path_join dir_name n in
  exists d,
    put (p0 ++ [n1]) (wrap (q ++ [n]) (File b)) (disk w) = Some d /\
    update_or_create_file file_path (VStr s) w
    = (inl tt,
       mkWorld d (writes w ++ [file_path])
               (log w ++ [DirCreated dir_name; FileCreated file_path])).
Proof.
  intros Hp0 Hn1 Hb dir_name file_path.
  destruct (makedirs_fresh p0 n1 q es0 w Hp0 Hn1) as (d1 & Hd1 & Hmk).
  assert (Hdir : stat dir_name (disk w) = inr ENOENT).
  { unfold dir_name. rewrite stat_app, Hp0. cbn [stat]. now rewrite Hn1. }
  destruct (put_new_below (p0 ++ [n1]) q n (File b) [] (disk w) d1 Hd1
                          eq_refl) as (Hs1 & Hs2 & Hput).
  rewrite path_cons_app in Hs1, Hs2, Hput. cbn [app] in Hput.
  rewrite wrap_app.
  destruct (put_some_any _ _ (wrap q (Dir [(n, File b)])) _ _ Hd1)
    as [d Hd].
  exists d. split; [assumption|].
  apply (update_or_create_file_new_dirs dir_name n s b d1 d w);
    try assumption.
  exact (eq_trans Hput Hd).
Qed.

(** * Exclusion files, captured documents *)

(** ** Line endings of the exclusion file *)

Lemma translate_newlines_app (l rest : pystr) :
  no_cr l = true ->
  translate_newlines (l ++ rest) = l ++ translate_newlines rest.
Proof.
  induction l as [|c l IH]; [reflexivity|]. cbn [no_cr forallb].
  intros H. apply andb_true_iff in H as [Hc Hl].
  cbn [app translate_newlines]. apply negb_true_iff in Hc. rewrite Hc.
  f_equal. now apply IH.
Qed.

(** A carriage return that no line feed follows becomes a line feed. *)
Lemma translate_cr (rest : pystr) :
  match rest with [] => True | d :: _ => (d =? LF) = false end ->
  translate_newlines (CR :: rest) = LF :: translate_newlines rest.
Proof.
  intros H. cbn [translate_newlines]. change (CR =? CR) with true. cbn iota.
  destruct rest as [|d r]; [reflexivity|]. now rewrite H.
Qed.

Lemma no_linebreak_head (l rest : pystr) :
  no_linebreak l = true ->
  match rest with [] => True | d :: _ => (d =? LF) = false end ->
  match l ++ rest with [] => True | d :: _ => (d =? LF) = false end.
Proof.
  destruct l as [|c l]; [auto|]. cbn [no_linebreak forallb app].
  intros H _. apply andb_true_iff in H as [Hc _].
  apply negb_true_iff in Hc. unfold is_linebreak in Hc.
  unfold LF. now destruct (c =? 10).
Qed.

Lemma translate_cr_join (lines : list pystr) :
  forallb no_linebreak lines = true ->
  translate_newlines (CR :: str_join [CR] lines)
  = LF :: translate_newlines (str_join [CR] lines).
Proof.
  intros H. apply translate_cr.
  destruct lines as [|l rest]; [exact I|].
  cbn [forallb] in H. apply andb_true_iff in H as [Hl _].
  destruct rest as [|l2 rest].
  - cbn [str_join]. rewrite <- (app_nil_r l).
    now apply no_linebreak_head.
  - change (str_join [CR] (l :: l2 :: rest))
      with (l ++ CR :: str_join [CR] (l2 :: rest)).
    now apply no_linebreak_head.
Qed.

Lemma translate_join (sep : pystr) (lines : list pystr) :
  sep = [LF] \/ sep = [CR; LF] \/ sep = [CR] ->
  forallb no_linebreak lines = true ->
  translate_newlines (str_join sep lines) = str_join [LF] lines.
Proof.
  intros Hsep. induction lines as [|l rest IH]; [reflexivity|].
  cbn [forallb]. intros H. apply andb_true_iff in H as [Hl Hrest].
  specialize (IH Hrest). pose proof (no_linebreak_no_cr l Hl) as Hcr.
  destruct rest as [|l2 rest].
  - cbn [str_join]. now apply translate_no_cr.
  - change (str_join sep (l :: l2 :: rest))
      with (l ++ sep ++ str_join sep (l2 :: rest)).
    change (str_join [LF] (l :: l2 :: rest))
      with (l ++ [LF] ++ str_join [LF] (l2 :: rest)).
    rewrite translate_newlines_app by assumption. f_equal.
    destruct Hsep as [->|[->| ->]].
    + cbn [app translate_newlines]. change (LF =? CR) with false.
      cbn iota. now rewrite IH.
    + cbn [app translate_newlines]. change (CR =? CR) with true.
      change (LF =? LF) with true. cbn iota. now rewrite IH.
    + cbn [app]. rewrite translate_cr_join by assumption. now rewrite IH.
Qed.

Lemma splitlines_one (l : pystr) :
  no_linebreak l = true -> l <> [] -> splitlines l = [l].
Proof.
  induction l as [|c l IH]; [contradiction|]. cbn [no_linebreak forallb].
  intros H _. apply andb_true_iff in H as [Hc Hl].
  apply negb_true_iff in Hc. cbn [splitlines]. rewrite Hc.
  destruct l as [|d l]; [reflexivity|].
  rewrite IH; [reflexivity|assumption|discriminate].
Qed.

Lemma splitlines_join (lines : list pystr) :
  forallb no_linebreak lines = true -> last lines [] <> [] ->
  splitlines (str_join [LF] lines) = lines.
Proof.
  induction lines as [|l rest IH]; [now intros _ []|].
  cbn [forallb]. intros H Hlast. apply andb_true_iff in H as [Hl Hrest].
  destruct rest as [|l2 rest].
  - cbn [str_join]. now apply splitlines_one.
  - change (str_join [LF] (l :: l2 :: rest))
      with (l ++ [LF] ++ str_join [LF] (l2 :: rest)).
    rewrite splitlines_line by assumption. f_equal. now apply IH.
Qed.

Lemma join_text_of_lines (lines : list pystr) :
  lines <> [] -> str_join [LF] lines ++ [LF] = text_of_lines lines.
Proof.
  induction lines as [|l rest IH]; [contradiction|]. intros _.
  destruct rest as [|l2 rest]; [now cbn; rewrite app_nil_r|].
  change (str_join [LF] (l :: l2 :: rest))
    with (l ++ [LF] ++ str_join [LF] (l2 :: rest)).
  change (text_of_lines (l :: l2 :: rest))
    with ((l ++ [LF]) ++ text_of_lines (l2 :: rest)).
  rewrite <- IH by discriminate. now rewrite <- !app_assoc.
Qed.

Lemma read_exclusion_lines (sep tail : pystr) (lines : list pystr) :
  forallb no_linebreak lines = true ->
  sep = [LF] \/ sep = [CR; LF] \/ sep = [CR] ->
  (tail = [] /\ last lines [] <> []) \/ (tail = sep /\ lines <> []) ->
  splitlines (translate_newlines (str_join sep lines ++ tail)) = lines.
Proof.
  intros Hl Hsep [[-> Hlast]|[-> Hne]].
  - rewrite app_nil_r, translate_join by assumption.
    now apply splitlines_join.
  - assert (Hj : str_join sep lines ++ sep = str_join sep (lines ++ [[]])).
    { rewrite str_join_app; [|assumption|discriminate].
      cbn [str_join]. now rewrite app_nil_r. }
    rewrite Hj, translate_join; [|assumption|].
    + rewrite str_join_app; [|assumption|discriminate].
      cbn [str_join]. rewrite app_nil_r, join_text_of_lines by assumption.
      now apply splitlines_text_of_lines.
    + rewrite forallb_app, Hl. reflexivity.
Qed.

(** X1.  The exclusion file may end its lines with a line feed, with a
    carriage return and a line feed, or with a carriage return alone, and
    may leave the last line without an ending: [load_exclusions] returns the
    same patterns.  The patterns have no line break in them, and a last line
    without an ending is not empty. *)
Theorem load_exclusions_any_line_ending
        (file_path : path) (w : world) (b : bytes) (lines : list pystr)
        (sep tail : pystr) :
  stat file_path (disk w) = inl (File b) ->
  forallb no_linebreak lines = true ->
  sep = [LF] \/ sep = [CR; LF] \/ sep = [CR] ->
  (tail = [] /\ last lines [] <> []) \/ (tail = sep /\ lines <> []) ->
  utf8_encode (str_join sep lines ++ tail) = Some b ->
  load_exclusions file_path w = (inl lines, w).
Proof.
  intros Hp Hl Hsep Htail Hb. unfold load_exclusions, bind.
  rewrite (exists_true _ _ _ Hp). cbn [negb].
  unfold open_read, read_text. rewrite Hp, (decode_encode Strict _ _ Hb).
  cbn [option_map ret]. now rewrite read_exclusion_lines.
Qed.

(** ** The shape of a captured document *)

Lemma restorable_shape (v : value) :
  restorable v = true ->
  unique_keys v = true /\ texts_without_cr v = true /\
  (forall items, v = VDict items -> well_shaped v = true).
Proof.
  induction v as [v Hv|items IH] using value_nested_ind.
  { destruct v; try discriminate.
    - cbn. intros H. apply andb_true_iff in H as [Hc _].
      repeat split; [assumption|discriminate].
    - exfalso. now apply (Hv items). }
  cbn [restorable unique_keys texts_without_cr well_shaped].
  intros H. apply andb_true_iff in H as [Hd Hall]. rewrite Hd. cbn [andb].
  rewrite forallb_forall in Hall. rewrite Forall_forall in IH.
  repeat split; try intros _ _; apply forallb_forall; intros item Hin;
    destruct (IH item Hin (Hall item Hin)) as (Hu & Ht & Hw);
    try assumption.
  specialize (Hall item Hin). destruct (snd item); try discriminate.
  - reflexivity.
  - now apply (Hw items0).
Qed.

(** X4.  What [directory_to_dict] returns is a document of the shape that
    [update_files_from_json] walks: a mapping of strings and of such
    mappings, with no key twice, whose strings have no carriage return and
    can be encoded.  Reconciling any directory with it raises no [TypeError]
    and no [AttributeError]: only the file system and the codec can make it
    fail. *)
Theorem captured_document_shape
        (fnmatch : pystr -> pystr -> bool)
        (fs : node) (path : path) (exclusions : list pystr) (tree : value) :
  directory_to_dict fnmatch fs path exclusions = inl tree ->
  well_shaped tree = true /\ unique_keys tree = true /\
  restorable tree = true /\
  forall (target : list name) (w : world) (e : exn),
    fst (update_files_from_json target (Some tree) w) = inr e ->
    io_error e = true.
Proof.
  intros Hv. unfold directory_to_dict in Hv.
  destruct (stat path fs) as [[b|es]|[]]; try discriminate.
  pose proof (capture_node_restorable fnmatch _ _ _ Hv) as Hr.
  rewrite capture_node_dir in Hv.
  destruct (capture_loop fnmatch exclusions es (inl [])) as [items|];
    [|discriminate].
  injection Hv as <-.
  destruct (restorable_shape _ Hr) as (Hu & _ & Hw).
  specialize (Hw items eq_refl).
  repeat split; try assumption.
  intros target w e. cbn [update_files_from_json].
  rewrite recurse_structure_calls.
  apply raises_update_all_strings. now apply well_shaped_targets.
Qed.

(** ** Reconciling a directory with its own document *)

Lemma dict_get_in (items : list (pystr * value)) (k : pystr) (c : value) :
  distinct (map fst items) = true -> In (k, c) items ->
  dict_get items k = Some c.
Proof.
  induction items as [|[k' c'] items IH]; [intros _ []|].
  cbn [map fst distinct]. intros H. apply andb_true_iff in H as [Hk Hd].
  apply distinct_not_in in Hk. cbn [dict_get].
  intros [[= -> ->]|Hin].
  - now rewrite str_eqb_refl.
  - destruct (str_eqb k' k) eqn:E; [|now apply IH].
    apply str_eqb_eq in E. subst k'. exfalso. apply Hk.
    apply in_map_iff. now exists (k, c).
Qed.

Lemma targets_doc_get (v : value) (root : path) (call : path * value) :
  unique_keys v = true -> In call (targets v root) ->
  exists r, fst call = root ++ r /\ doc_get v r = Some (snd call).
Proof.
  revert root.
  induction v as [v Hv|items IH] using value_nested_ind; intros root.
  { destruct v; try (intros _ []). exfalso. now apply (Hv items). }
  cbn [unique_keys targets]. intros H Hin.
  apply andb_true_iff in H as [Hd Hall].
  apply in_flat_map in Hin as ([n c] & Hitem & Hcall). cbn [fst snd] in Hcall.
  rewrite Forall_forall in IH. specialize (IH _ Hitem). cbn [snd] in IH.
  rewrite forallb_forall in Hall. specialize (Hall _ Hitem). cbn [snd] in Hall.
  pose proof (dict_get_in _ _ _ Hd Hitem) as Hget.
  assert (Hleaf : call = (os_path_join root n, c) ->
                  exists r, fst call = root ++ r /\
                            doc_get (VDict items) r = Some (snd call)).
  { intros ->. exists [n]. cbn [fst snd doc_get]. now rewrite Hget. }
  destruct c; try (destruct Hcall as [<-|[]]; now apply Hleaf).
  destruct (IH (os_path_join root n) Hall Hcall) as (r & Hp & Hg).
  exists (n :: r). split.
  - rewrite Hp. unfold os_path_join. now rewrite <- app_assoc.
  - cbn [doc_get]. now rewrite Hget.
Qed.

Lemma decodable_stat (skip : name -> bool) (r : path) :
  forall (t : node) (b : bytes),
    decodable skip t = true ->
    stat r t = inl (File b) ->
    existsb skip r = false ->
    utf8_decode Strict b <> None.
Proof.
  induction r as [|n r IH]; intros t b Ht Hb Hx.
  - cbn in Hb. injection Hb as ->. cbn in Ht.
    now destruct (utf8_decode Strict b).
  - cbn [existsb] in Hx. apply orb_false_iff in Hx as [Hn Hx].
    destruct t as [b0|es]; [discriminate|]. cbn [stat] in Hb.
    destruct (find_entry n es) as [c|] eqn:Ef; [|discriminate].
    cbn [decodable] in Ht. rewrite forallb_forall in Ht.
    specialize (Ht _ (find_entry_In _ _ _ Ef)). cbn [fst snd] in Ht.
    rewrite Hn in Ht. now apply (IH c).
Qed.

(** X18.  Reconciling a directory with its own document does nothing.
    Capture a directory whose files, the excluded ones apart, are valid
    UTF-8, and reconcile the same directory with the captured tree:
    [update_files_from_json] returns, and nothing is written, opened or
    logged, whatever line endings the files have. *)
Theorem reconcile_with_own_document_is_a_no_op
        (fnmatch : pystr -> pystr -> bool)
        (w : world) (path : path) (exclusions : list pystr) (tree : value)
        (t : node) :
  unique_names (disk w) = true ->
  directory_to_dict fnmatch (disk w) path exclusions = inl tree ->
  stat path (disk w) = inl t ->
  decodable (fun n => should_exclude fnmatch n exclusions) t = true ->
  update_files_from_json path (Some tree) w = (inl tt, w).
Proof.
  intros Hu Hv Ht Hdecodable.
  assert (Hdec : forall r b,
             stat (path ++ r) (disk w) = inl (File b) ->
             excluded fnmatch exclusions r = false ->
             utf8_decode Strict b <> None).
  { intros r b Hb Hx. rewrite stat_app, Ht in Hb.
    now apply (decodable_stat _ r t b Hdecodable). }
  clear Ht Hdecodable t.
  pose proof Hv as Hd. unfold directory_to_dict in Hd.
  destruct (stat path (disk w)) as [[b0|es]|[]] eqn:Hp; try discriminate.
  assert (Hes : unique_names (Dir es) = true)
    by now apply (unique_names_stat path (disk w)).
  pose proof (capture_node_restorable fnmatch _ _ _ Hd) as Hr.
  destruct (restorable_shape _ Hr) as (Huk & _ & Hw).
  pose proof Hd as Hitems. rewrite capture_node_dir in Hitems.
  destruct (capture_loop fnmatch exclusions es (inl [])) as [items|];
    [|discriminate].
  injection Hitems as <-. specialize (Hw items eq_refl).
  cbn [update_files_from_json]. rewrite recurse_structure_calls.
  apply update_all_same. intros call Hin.
  pose proof (well_shaped_targets _ path Hw call Hin) as Hstr.
  destruct (targets_doc_get _ _ _ Huk Hin) as (r & Hcp & Hg).
  destruct (snd call) as [| | |s| |] eqn:Ec; try discriminate.
  generalize (capture_node_keys fnmatch exclusions r (Dir es) _ Hes Hd).
  rewrite Hg. intros [[b Hb] Hx].
  destruct (capture_node_get fnmatch exclusions r (Dir es) _ b Hes Hd Hb Hx)
    as (text & Htext & Hg').
  assert (s = text) by congruence. subst text.
  assert (Hfile : stat (fst call) (disk w) = inl (File b))
    by now rewrite Hcp, stat_app, Hp.
  exists s, b. repeat split; try assumption.
  rewrite Hcp in Hfile.
  specialize (Hdec r b Hfile Hx).
  destruct (utf8_decode Strict b) as [s0|] eqn:E; [|contradiction].
  unfold read_text in *. rewrite E.
  now rewrite (decode_strict_any Ignore _ _ E) in Htext.
Qed.

(** ** The lines of the exclusion file *)

Lemma splitlines_ended (l rest : pystr) (c : Z) :
  no_linebreak l = true -> is_linebreak c = true -> (c =? CR) = false ->
  splitlines (l ++ c :: rest) = l :: splitlines rest.
Proof.
  intros Hl Hc Hcr. induction l as [|x l IH].
  - cbn [app splitlines]. now rewrite Hc, Hcr.
  - cbn [no_linebreak forallb] in Hl. apply andb_true_iff in Hl as [Hx Hl].
    apply negb_true_iff in Hx. cbn [app splitlines]. rewrite Hx.
    now rewrite (IH Hl).
Qed.

Lemma read_ended_lines (items : list (pystr * pystr)) (tail : pystr) :
  ended_lines items tail = true ->
  splitlines (translate_newlines (text_of_ended items tail))
  = lines_of_ended items tail.
Proof.
  unfold lines_of_ended.
  induction items as [|[l e] rest IH]; cbn [ended_lines text_of_ended map fst].
  - intros Htail. rewrite translate_no_cr by now apply no_linebreak_no_cr.
    destruct tail as [|c tail]; [reflexivity|].
    now apply splitlines_one.
  - intros H. apply andb_true_iff in H as [H Hrest].
    apply andb_true_iff in H as [H Hcr].
    apply andb_true_iff in H as [Hl He].
    rewrite translate_newlines_app by now apply no_linebreak_no_cr.
    set (R := text_of_ended rest tail) in *.
    enough (Hend : exists c, is_linebreak c = true /\ (c =? CR) = false /\
                             translate_newlines (e ++ R)
                             = c :: translate_newlines R).
    { destruct Hend as (c & Hc & Hncr & ->).
      rewrite (splitlines_ended l _ c Hl Hc Hncr), (IH Hrest).
      reflexivity. }
    destruct e as [|c [|d [|]]]; try discriminate; cbn [line_end] in He.
    + destruct (Z.eqb_spec c CR) as [->|Hne].
      * exists LF. split; [reflexivity|]. split; [reflexivity|].
        cbn [app]. apply translate_cr.
        rewrite str_eqb_refl in Hcr. cbn [andb] in Hcr.
        apply negb_true_iff in Hcr. unfold starts_with_lf in Hcr.
        now destruct R.
      * exists c. split; [assumption|]. apply Z.eqb_neq in Hne.
        split; [assumption|]. cbn [app translate_newlines].
        now rewrite Hne.
    + apply andb_true_iff in He as [Hc Hd].
      exists LF. split; [reflexivity|]. split; [reflexivity|].
      cbn [app translate_newlines]. now rewrite Hc, Hd.
Qed.

(** C6 (amended).  For a path that does not exist [load_exclusions] returns
    the empty list and raises nothing.  A path that exists is opened: a
    directory makes it raise [IsADirectoryError], and a file that is not
    valid UTF-8 [UnicodeDecodeError].  For a file of text it returns the
    lines of the text in order and without their endings, where a line
    ends at a line feed, at a carriage return, at a carriage return with a
    line feed, and also at each of the other line boundaries of
    [str.splitlines]; a last line without an ending counts when it is not
    empty. *)
Theorem load_exclusions_lines (file_path : path) (w : world) :
  (forall e, stat file_path (disk w) = inr e ->
             load_exclusions file_path w = (inl [], w)) /\
  ((exists es, stat file_path (disk w) = inl (Dir es)) ->
   load_exclusions file_path w = (inr IsADirectoryError, w)) /\
  (forall b,
      stat file_path (disk w) = inl (File b) ->
      utf8_decode Strict b = None ->
      load_exclusions file_path w = (inr UnicodeDecodeError, w)) /\
  (forall b items tail,
      stat file_path (disk w) = inl (File b) ->
      ended_lines items tail = true ->
      utf8_encode (text_of_ended items tail) = Some b ->
      load_exclusions file_path w = (inl (lines_of_ended items tail), w)).
Proof.
  unfold load_exclusions, bind, os_path_exists, open_read, read_text.
  split; [|split; [|split]].
  - now intros e ->.
  - intros [es Hs]. rewrite Hs. cbn [negb]. now rewrite Hs.
  - intros b Hs Hd. rewrite Hs. cbn [negb]. now rewrite Hs, Hd.
  - intros b items tail Hs Hlines Hb. rewrite Hs. cbn [negb].
    rewrite Hs, (decode_encode Strict _ _ Hb). cbn [option_map ret].
    now rewrite read_ended_lines.
Qed.

(** * The JSON text of a document *)

(** ** The fuel of the scanner is enough *)

Lemma skip_ws_length (s : list Z) : (length (skip_ws s) <= length s)%nat.
Proof.
  induction s as [|c s IH]; [reflexivity|]. cbn [skip_ws].
  destruct (is_ws c); cbn [length]; lia.
Qed.

Lemma push_some (c : Z) k (str rest : list Z) :
  push c k = Some (str, rest) -> exists str', k = Some (str', rest).
Proof. destruct k as [[a b]|]; [|discriminate]. intros [= _ <-]. eauto. Qed.

Lemma scanstring_length (n : nat) :
  forall (s str rest : list Z),
    (length s <= n)%nat -> scanstring s = Some (str, rest) ->
    (length rest < length s)%nat.
Proof.
  induction n as [|n IH]; intros s str rest Hn H.
  - destruct s; [discriminate|cbn in Hn; lia].
  - destruct s as [|c r]; [discriminate|]. cbn [scanstring] in H.
    cbn [length] in Hn.
    repeat match goal with
           | H : None = Some _ |- _ => discriminate H
           | H : Some _ = Some _ |- _ => injection H as <- <-; cbn [length]; lia
           | H : push _ (scanstring ?t) = Some _ |- _ =>
             apply push_some in H as [? H]; apply IH in H;
               cbn [length] in *; lia
           | H : (if ?b then _ else _) = Some _ |- _ => destruct b
           | H : match ?x with _ => _ end = Some _ |- _ => destruct x eqn:?
           end.
Qed.

Lemma digits_length (s : list Z) :
  (length (snd (digits s)) <= length s)%nat.
Proof.
  induction s as [|c s IH]; [reflexivity|]. cbn [digits].
  destruct (is_digit c); [|reflexivity].
  destruct (digits s) as [ds rest]. cbn [snd length] in *. lia.
Qed.

Lemma match_number_length (s integer frac_exp rest : list Z) :
  match_number s = Some (integer, frac_exp, rest) ->
  (length rest < length s)%nat.
Proof.
  unfold match_number.
  repeat match goal with
         | |- context [digits ?t] =>
           let H := fresh "Hd" in
           pose proof (digits_length t) as H;
             destruct (digits t) as [? ?]; cbn [snd] in H
         | |- None = Some _ -> _ => discriminate
         | |- Some _ = Some _ -> _ =>
           intros [= _ _ <-]; cbn [length] in *; lia
         | |- context [match ?x with _ => _ end] => is_var x; destruct x
         | |- context [if ?b then _ else _] => destruct b
         | |- context [match ?x with _ => _ end] => destruct x
         end.
Qed.

Lemma after_word_length (word s rest : list Z) :
  after_word word s = Some rest ->
  length s = (length word + length rest)%nat.
Proof.
  revert s; induction word as [|a word IH]; intros s; cbn [after_word].
  - now intros [= ->].
  - destruct s as [|c s]; [discriminate|].
    destruct (a =? c); [|discriminate]. intros H. cbn [length].
    now rewrite (IH s H).
Qed.

Section Fuel.

Variables scan1 scan2 : pystr -> res (value * pystr).

Hypothesis scan1_consumes : consumes scan1.

Lemma object_loop_length (n : nat) :
  forall (s : list Z) pairs v (rest : list Z),
    object_loop scan1 n s pairs = inl (v, rest) ->
    (length rest < length s)%nat.
Proof.
  induction n as [|n IH]; intros s pairs v rest; cbn [object_loop];
    [discriminate|].
  destruct (scanstring s) as [[key s1]|] eqn:Ekey; [|discriminate].
  apply (scanstring_length _ _ _ _ (le_n _)) in Ekey.
  pose proof (skip_ws_length s1) as H1.
  destruct (skip_ws s1) as [|c s2]; [discriminate|].
  destruct (c =? 58); [|discriminate].
  pose proof (skip_ws_length s2) as H2.
  destruct (scan1 (skip_ws s2)) as [[value s3]|e] eqn:Escan; [|discriminate].
  apply scan1_consumes in Escan.
  pose proof (skip_ws_length s3) as H3.
  destruct (skip_ws s3) as [|nextchar s4]; [discriminate|].
  cbn [length] in *.
  destruct (nextchar =? 125); [intros [= _ <-]; lia|].
  destruct (nextchar =? 44); [|discriminate].
  pose proof (skip_ws_length s4) as H4.
  destruct (skip_ws s4) as [|q s5]; [discriminate|].
  destruct (q =? QUOTE); [|discriminate].
  intros H. apply IH in H. cbn [length] in *. lia.
Qed.

Lemma array_loop_length (n : nat) :
  forall (s : list Z) values v (rest : list Z),
    array_loop scan1 n s values = inl (v, rest) ->
    (length rest < length s)%nat.
Proof.
  induction n as [|n IH]; intros s values v rest; cbn [array_loop];
    [discriminate|].
  destruct (scan1 s) as [[value s1]|e] eqn:Escan; [|discriminate].
  apply scan1_consumes in Escan.
  pose proof (skip_ws_length s1) as H1.
  destruct (skip_ws s1) as [|nextchar s2]; [discriminate|].
  cbn [length] in *.
  destruct (nextchar =? 93); [intros [= _ <-]; lia|].
  destruct (nextchar =? 44); [|discriminate].
  pose proof (skip_ws_length s2) as H2.
  intros H. apply IH in H. lia.
Qed.

(** More fuel, or another scanner that agrees on shorter texts, changes
    nothing. *)
Lemma object_loop_fuel (n : nat) :
  forall (m : nat) (s : list Z) pairs,
    (forall t : list Z, (length t < length s)%nat -> scan1 t = scan2 t) ->
    (length s < n)%nat -> (length s < m)%nat ->
    object_loop scan1 n s pairs = object_loop scan2 m s pairs.
Proof.
  induction n as [|n IH]; intros m s pairs Hagree Hn Hm; [lia|].
  destruct m as [|m]; [lia|]. cbn [object_loop].
  destruct (scanstring s) as [[key s1]|] eqn:Ekey; [|reflexivity].
  apply (scanstring_length _ _ _ _ (le_n _)) in Ekey.
  pose proof (skip_ws_length s1) as H1.
  destruct (skip_ws s1) as [|c s2]; [reflexivity|].
  destruct (c =? 58); [|reflexivity].
  pose proof (skip_ws_length s2) as H2. cbn [length] in *.
  rewrite <- (Hagree (skip_ws s2)) by lia.
  destruct (scan1 (skip_ws s2)) as [[value s3]|e] eqn:Escan; [|reflexivity].
  apply scan1_consumes in Escan.
  pose proof (skip_ws_length s3) as H3.
  destruct (skip_ws s3) as [|nextchar s4]; [reflexivity|].
  cbn [length] in *.
  destruct (nextchar =? 125); [reflexivity|].
  destruct (nextchar =? 44); [|reflexivity].
  pose proof (skip_ws_length s4) as H4.
  destruct (skip_ws s4) as [|q s5]; [reflexivity|].
  destruct (q =? QUOTE); [|reflexivity]. cbn [length] in *.
  apply IH; [|lia|lia]. intros t Ht. apply Hagree. lia.
Qed.

Lemma array_loop_fuel (n : nat) :
  forall (m : nat) (s : list Z) values,
    (forall t : list Z, (length t <= length s)%nat -> scan1 t = scan2 t) ->
    (length s < n)%nat -> (length s < m)%nat ->
    array_loop scan1 n s values = array_loop scan2 m s values.
Proof.
  induction n as [|n IH]; intros m s values Hagree Hn Hm; [lia|].
  destruct m as [|m]; [lia|]. cbn [array_loop].
  rewrite <- (Hagree s) by lia.
  destruct (scan1 s) as [[value s1]|e] eqn:Escan; [|reflexivity].
  apply scan1_consumes in Escan.
  pose proof (skip_ws_length s1) as H1.
  destruct (skip_ws s1) as [|nextchar s2]; [reflexivity|].
  cbn [length] in *.
  destruct (nextchar =? 93); [reflexivity|].
  destruct (nextchar =? 44); [|reflexivity].
  pose proof (skip_ws_length s2) as H2.
  apply IH; [|lia|lia]. intros t Ht. apply Hagree. lia.
Qed.

End Fuel.

Lemma scan_once_consumes (fuel : nat) : consumes (scan_once fuel).
Proof.
  induction fuel as [|fuel IH]; intros s v rest; cbn [scan_once];
    [discriminate|].
  destruct s as [|nextchar r]; [discriminate|].
  destruct (nextchar =? QUOTE).
  { destruct (scanstring r) as [[str rest']|] eqn:E; [|discriminate].
    apply (scanstring_length _ _ _ _ (le_n _)) in E.
    intros [= _ <-]. cbn [length]. lia. }
  destruct (nextchar =? 123).
  { unfold JSONObject. pose proof (skip_ws_length r) as Hr.
    destruct (skip_ws r) as [|c r']; [discriminate|]. cbn [length] in *.
    destruct (c =? QUOTE).
    - intros H. apply (object_loop_length _ IH) in H. lia.
    - destruct (c =? 125); [|discriminate]. intros [= _ <-]. lia. }
  destruct (nextchar =? 91).
  { unfold JSONArray. pose proof (skip_ws_length r) as Hr.
    destruct (skip_ws r) as [|c r'].
    - intros H. apply (array_loop_length _ IH) in H. cbn [length] in *. lia.
    - destruct (c =? 93); [intros [= _ <-]; cbn [length] in *; lia|].
      intros H. apply (array_loop_length _ IH) in H. cbn [length] in *. lia. }
  repeat match goal with
         | |- context [after_word ?a ?b] =>
           let H := fresh "Hw" in
           destruct (after_word a b) eqn:H;
             [apply after_word_length in H; cbn [length lit] in H|]
         end;
    try (intros [= _ <-]; cbn in *; lia).
  all: destruct (match_number (nextchar :: r))
    as [[[integer frac_exp] rest']|] eqn:En;
    try (apply match_number_length in En;
         destruct (parse_number integer frac_exp); [|discriminate];
         intros [= _ <-]; exact En).
  all: try discriminate.
  all: intros [= _ <-]; cbn in *; lia.
Qed.

(** The result of [scan_once] does not depend on a fuel above the length
    of the text: the scanner never stops for lack of fuel. *)
Lemma scan_once_fuel (n : nat) :
  forall (m : nat) (s : list Z),
    (length s < n)%nat -> (length s < m)%nat ->
    scan_once n s = scan_once m s.
Proof.
  induction n as [|n IH]; intros m s Hn Hm; [lia|].
  destruct m as [|m]; [lia|]. cbn [scan_once].
  destruct s as [|nextchar r]; [reflexivity|]. cbn [length] in *.
  destruct (nextchar =? QUOTE); [reflexivity|].
  destruct (nextchar =? 123).
  { unfold JSONObject. pose proof (skip_ws_length r) as Hr.
    destruct (skip_ws r) as [|c r']; [reflexivity|]. cbn [length] in *.
    destruct (c =? QUOTE); [|reflexivity].
    apply object_loop_fuel; [apply scan_once_consumes| |lia|lia].
    intros t Ht. apply IH; lia. }
  destruct (nextchar =? 91); [|reflexivity].
  unfold JSONArray. pose proof (skip_ws_length r) as Hr.
  destruct (skip_ws r) as [|c r'].
  - apply array_loop_fuel; [apply scan_once_consumes| |cbn; lia|cbn; lia].
    intros t Ht. apply IH; cbn [length] in *; lia.
  - destruct (c =? 93); [reflexivity|]. cbn [length] in *.
    apply array_loop_fuel;
      [apply scan_once_consumes| |cbn [length]; lia|cbn [length]; lia].
    intros t Ht. apply IH; cbn [length] in *; lia.
Qed.

(** ** What the scanner raises *)

Section Raises.

Variable scan : pystr -> res (value * pystr).

Hypothesis scan_raises :
  forall s e, scan s = inr e -> e = JSONDecodeError \/ e = ValueError.

Lemma object_loop_raises (n : nat) :
  forall s pairs e,
    object_loop scan n s pairs = inr e ->
    e = JSONDecodeError \/ e = ValueError.
Proof.
  induction n as [|n IH]; intros s pairs e; cbn [object_loop];
    [intros [= <-]; now left|].
  destruct (scanstring s) as [[key s1]|]; [|intros [= <-]; now left].
  destruct (skip_ws s1) as [|c s2]; [intros [= <-]; now left|].
  destruct (c =? 58); [|intros [= <-]; now left].
  destruct (scan (skip_ws s2)) as [[value s3]|e'] eqn:Escan;
    [|intros [= <-]; now apply (scan_raises _ _ Escan)].
  destruct (skip_ws s3) as [|nextchar s4]; [intros [= <-]; now left|].
  destruct (nextchar =? 125); [discriminate|].
  destruct (nextchar =? 44); [|intros [= <-]; now left].
  destruct (skip_ws s4) as [|q s5]; [intros [= <-]; now left|].
  destruct (q =? QUOTE); [apply IH|intros [= <-]; now left].
Qed.

Lemma array_loop_raises (n : nat) :
  forall s values e,
    array_loop scan n s values = inr e ->
    e = JSONDecodeError \/ e = ValueError.
Proof.
  induction n as [|n IH]; intros s values e; cbn [array_loop];
    [intros [= <-]; now left|].
  destruct (scan s) as [[value s1]|e'] eqn:Escan;
    [|intros [= <-]; now apply (scan_raises _ _ Escan)].
  destruct (skip_ws s1) as [|nextchar s2]; [intros [= <-]; now left|].
  destruct (nextchar =? 93); [discriminate|].
  destruct (nextchar =? 44); [apply IH|intros [= <-]; now left].
Qed.

End Raises.

Lemma parse_number_raises (integer frac_exp : pystr) (e : exn) :
  parse_number integer frac_exp = inr e -> e = ValueError.
Proof.
  unfold parse_number. destruct frac_exp; [|discriminate].
  destruct (MAX_STR_DIGITS <? _); [now intros [= <-]|discriminate].
Qed.

Lemma scan_once_raises (fuel : nat) :
  forall s e,
    scan_once fuel s = inr e -> e = JSONDecodeError \/ e = ValueError.
Proof.
  induction fuel as [|fuel IH]; intros s e; cbn [scan_once];
    [intros [= <-]; now left|].
  destruct s as [|nextchar r]; [intros [= <-]; now left|].
  destruct (nextchar =? QUOTE).
  { destruct (scanstring r) as [[str rest']|]; [discriminate|].
    intros [= <-]; now left. }
  destruct (nextchar =? 123).
  { unfold JSONObject. destruct (skip_ws r) as [|c r'];
      [intros [= <-]; now left|].
    destruct (c =? QUOTE); [now apply object_loop_raises|].
    destruct (c =? 125); [discriminate|intros [= <-]; now left]. }
  destruct (nextchar =? 91).
  { unfold JSONArray. destruct (skip_ws r) as [|c r'].
    - now apply array_loop_raises.
    - destruct (c =? 93); [discriminate|]. now apply array_loop_raises. }
  repeat match goal with
         | |- context [after_word ?a ?b] => destruct (after_word a b)
         end;
    try discriminate;
    try (intros [= <-]; now left).
  all: destruct (match_number (nextchar :: r))
    as [[[integer frac_exp] rest']|];
    try discriminate; try (intros [= <-]; now left).
  all: destruct (parse_number integer frac_exp) as [number|e'] eqn:En;
    [discriminate|].
  all: intros [= <-]; right; now apply (parse_number_raises _ _ _ En).
Qed.

Lemma json_loads_raises (s : pystr) (e : exn) :
  json_loads s = inr e -> e = JSONDecodeError \/ e = ValueError.
Proof.
  unfold json_loads.
  assert (H : match scan_once (S (length s)) (skip_ws s) with
              | inl (obj, rest) =>
                match skip_ws rest with
                | [] => inl obj
                | _ :: _ => inr JSONDecodeError
                end
              | inr e => inr e
              end = inr e -> e = JSONDecodeError \/ e = ValueError).
  { destruct (scan_once (S (length s)) (skip_ws s)) as [[obj rest]|e'] eqn:E.
    - destruct (skip_ws rest); [discriminate|]. intros [= <-]; now left.
    - intros [= <-]. now apply (scan_once_raises _ _ _ E). }
  destruct s as [|c s']; [exact H|].
  revert H. generalize (scan_once (S (length (c :: s'))) (skip_ws (c :: s'))).
  intros scanned H.
  repeat match goal with
         | |- match ?x with _ => _ end = _ -> _ =>
           is_var x; destruct x; try exact H;
           try (intros [= <-]; now left)
         end.
Qed.

(** ** An integer with too many digits *)

Lemma digits_all (ds : list Z) :
  forallb is_digit ds = true -> digits ds = (ds, []).
Proof.
  induction ds as [|c ds IH]; [reflexivity|]. cbn [forallb digits].
  intros H. apply andb_true_iff in H as [-> H]. now rewrite (IH H).
Qed.

Lemma filter_all {A} (f : A -> bool) (l : list A) :
  forallb f l = true -> filter f l = l.
Proof.
  induction l as [|x l IH]; [reflexivity|]. cbn [forallb filter].
  intros H. apply andb_true_iff in H as [-> H]. now rewrite (IH H).
Qed.

(** The text of a positive integer of more than [MAX_STR_DIGITS] digits is
    refused with the [ValueError] of [int]. *)
Lemma json_loads_long_integer (d : Z) (ds : list Z) :
  49 <= d <= 57 -> forallb is_digit ds = true ->
  MAX_STR_DIGITS < Z.of_nat (length (d :: ds)) ->
  json_loads (d :: ds) = inr ValueError.
Proof.
  intros Hd Hds Hlen.
  assert (Hnum : match_number (d :: ds) = Some (d :: ds, [], [])).
  { unfold match_number.
    destruct (Z.eqb_spec d 45); [lia|].
    destruct (Z.eqb_spec d 48); [lia|].
    replace (is_digit d) with true
      by (symmetry; unfold is_digit; apply andb_true_iff; split;
          apply Z.leb_le; lia).
    rewrite (digits_all ds Hds). reflexivity. }
  assert (Hparse : parse_number (d :: ds) [] = inr ValueError).
  { unfold parse_number. rewrite filter_all.
    - apply Z.ltb_lt in Hlen. now rewrite Hlen.
    - cbn [forallb]. rewrite Hds. unfold is_digit.
      apply andb_true_iff; split; [|reflexivity].
      apply andb_true_iff; split; apply Z.leb_le; lia. }
  assert (Hscan : forall fuel,
             scan_once (S fuel) (d :: ds) = inr ValueError).
  { intros fuel. cbn [scan_once].
    unfold QUOTE. destruct (Z.eqb_spec d 34); [lia|].
    destruct (Z.eqb_spec d 123); [lia|]. destruct (Z.eqb_spec d 91); [lia|].
    cbn [after_word lit]. 
    change (after_word (lit "null") (d :: ds))
      with (if 110 =? d then after_word (lit "ull") ds else None).
    change (after_word (lit "true") (d :: ds))
      with (if 116 =? d then after_word (lit "rue") ds else None).
    change (after_word (lit "false") (d :: ds))
      with (if 102 =? d then after_word (lit "alse") ds else None).
    destruct (Z.eqb_spec 110 d); [lia|]. destruct (Z.eqb_spec 116 d); [lia|].
    destruct (Z.eqb_spec 102 d); [lia|].
    now rewrite Hnum, Hparse. }
  unfold json_loads.
  assert (Hws : skip_ws (d :: ds) = d :: ds).
  { cbn [skip_ws]. unfold is_ws.
    destruct (Z.eqb_spec d 32); [lia|]. destruct (Z.eqb_spec d 9); [lia|].
    destruct (Z.eqb_spec d 10); [lia|]. destruct (Z.eqb_spec d 13); [lia|].
    reflexivity. }
  rewrite Hws, Hscan.
  destruct d; try reflexivity.
  repeat (match goal with
          | |- match ?p with _ => _ end = _ => destruct p; try reflexivity
          end); lia.
Qed.

(** ** Strings of JSON text *)

Lemma hex_value_digit (n : Z) :
  0 <= n < 16 -> hex_value (hex_digit n) = Some n.
Proof.
  intros H. unfold hex_value, hex_digit.
  destruct (Z.ltb_spec n 10); zcase; cbn [andb]; f_equal; lia.
Qed.

Lemma scanstring_simple_escape (esc char : Z) (r : pystr) :
  unescape esc = Some char ->
  scanstring (BACKSLASH :: esc :: r) = push char (scanstring r).
Proof.
  intros H. cbn [scanstring]. change (BACKSLASH =? QUOTE) with false.
  change (BACKSLASH =? BACKSLASH) with true. cbn iota.
  destruct (Z.eqb_spec esc 117) as [->|_]; [discriminate|].
  now rewrite H.
Qed.

Lemma scanstring_control (c : Z) (r : pystr) :
  0 <= c < 32 ->
  scanstring (BACKSLASH :: 117 :: 48 :: 48 :: hex_digit (c / 16)
                        :: hex_digit (c mod 16) :: r)
  = push c (scanstring r).
Proof.
  intros H. cbn [scanstring]. change (BACKSLASH =? QUOTE) with false.
  change (BACKSLASH =? BACKSLASH) with true.
  change (117 =? 117) with true. cbn iota.
  unfold hex4. change (hex_value 48) with (Some 0).
  rewrite !hex_value_digit by divmod.
  replace (((0 * 16 + 0) * 16 + c / 16) * 16 + c mod 16) with c by divmod.
  destruct (Z.leb_spec 0xD800 c); [lia|]. reflexivity.
Qed.

Lemma scanstring_plain (c : Z) (r : pystr) :
  32 <= c -> c <> QUOTE -> c <> BACKSLASH ->
  scanstring (c :: r) = push c (scanstring r).
Proof.
  intros H Hq Hb. cbn [scanstring].
  destruct (Z.eqb_spec c QUOTE); [contradiction|].
  destruct (Z.eqb_spec c BACKSLASH); [contradiction|].
  destruct (Z.ltb_spec c 32); [lia|]. reflexivity.
Qed.

Lemma scanstring_escape_char (c : Z) (r : pystr) :
  0 <= c -> scanstring (escape_char c ++ r) = push c (scanstring r).
Proof.
  intros H. unfold escape_char.
  destruct (Z.eqb_spec c QUOTE) as [->|Hq];
    [now apply scanstring_simple_escape|].
  destruct (Z.eqb_spec c BACKSLASH) as [->|Hb];
    [now apply scanstring_simple_escape|].
  destruct (Z.eqb_spec c 10) as [->|];
    [now apply scanstring_simple_escape|].
  destruct (Z.eqb_spec c 13) as [->|];
    [now apply scanstring_simple_escape|].
  destruct (Z.eqb_spec c 9) as [->|];
    [now apply scanstring_simple_escape|].
  destruct (Z.eqb_spec c 8) as [->|];
    [now apply scanstring_simple_escape|].
  destruct (Z.eqb_spec c 12) as [->|];
    [now apply scanstring_simple_escape|].
  destruct (Z.leb_spec 0 c); [|lia]. cbn [andb].
  destruct (Z.ltb_spec c 32).
  - apply scanstring_control. lia.
  - now apply scanstring_plain.
Qed.

(** [scanstring] reads back what [encode_basestring] writes. *)
Lemma scanstring_encode (s r : pystr) :
  code_points s = true ->
  scanstring (flat_map escape_char s ++ QUOTE :: r) = Some (s, r).
Proof.
  induction s as [|c s IH]; [reflexivity|]. cbn [code_points forallb].
  intros H. apply andb_true_iff in H as [Hc Hs]. apply Z.leb_le in Hc.
  cbn [flat_map]. rewrite <- app_assoc, scanstring_escape_char by assumption.
  now rewrite (IH Hs).
Qed.

(** ** Blanks *)

Lemma skip_ws_indent (level : nat) (c : Z) (r : pystr) :
  is_ws c = false -> skip_ws (newline_indent level ++ c :: r) = c :: r.
Proof.
  intros Hc. unfold newline_indent. cbn [app skip_ws].
  change (is_ws LF) with true. cbn iota.
  induction (4 * level)%nat as [|n IH]; cbn [repeat app skip_ws].
  - now rewrite Hc.
  - change (is_ws SPACE) with true. cbn iota. exact IH.
Qed.

Lemma skip_ws_none (c : Z) (r : pystr) :
  is_ws c = false -> skip_ws (c :: r) = c :: r.
Proof. intros Hc. cbn [skip_ws]. now rewrite Hc. Qed.

(** ** The text of a value *)

Lemma text_at_scalar (level : nat) (v : value) (text : pystr) :
  scalar_chunk v = Some text -> text_at level v = text.
Proof.
  unfold text_at.
  destruct v as [|[]| | | |]; cbn; intros [= <-]; now rewrite ?app_nil_r.
Qed.

(** The text of a mapping: its items between braces, each on a line of
    its own. *)
Lemma text_at_dict (level : nat) (item : pystr * value)
      (rest : list (pystr * value)) :
  text_at level (VDict (item :: rest))
  = lit "{" ++ newline_indent (S level)
    ++ member_text level item
    ++ concat (map (fun item => separator level ++ member_text level item)
                   rest)
    ++ newline_indent level ++ lit "}".
Proof.
  unfold text_at. destruct item as [key child]. cbn [iterencode].
  rewrite !concat_app. cbn [concat app fst snd].
  unfold member_text, text_at. cbn [fst snd].
  match goal with
  | |- context [concat (?each false rest)] =>
    assert (Hrest : concat (each false rest)
                    = concat (map (fun item : pystr * value =>
                                     separator level
                                     ++ encode_basestring (fst item)
                                     ++ lit ": "
                                     ++ concat (iterencode (snd item)
                                                           (S level)))
                                  rest))
  end.
  { induction rest as [|[k v] rest IH]; [reflexivity|].
    cbn [map concat app fst snd]. rewrite !concat_app. cbn [concat app].
    rewrite IH. unfold separator. now rewrite ?app_nil_r, <- ?app_assoc. }
  rewrite Hrest. now rewrite ?app_nil_r, <- ?app_assoc.
Qed.

(** The text of a list. *)
Lemma text_at_list (level : nat) (v : value) (rest : list value) :
  text_at level (VList (v :: rest))
  = lit "[" ++ newline_indent (S level)
    ++ text_at (S level) v
    ++ concat (map (fun e => separator level ++ text_at (S level) e) rest)
    ++ newline_indent level ++ lit "]".
Proof.
  assert (Hchunk : forall buf e,
             concat (match scalar_chunk e with
                     | Some text => [buf ++ text]
                     | None => buf :: iterencode e (S level)
                     end) = buf ++ text_at (S level) e).
  { intros buf e. destruct (scalar_chunk e) as [text|] eqn:E.
    - rewrite (text_at_scalar _ _ _ E). cbn. now rewrite app_nil_r.
    - reflexivity. }
  unfold text_at at 1. cbn [iterencode].
  rewrite !concat_app, Hchunk. cbn [concat app].
  match goal with
  | |- context [concat (?each false rest)] =>
    assert (Hrest : concat (each false rest)
                    = concat (map (fun e =>
                                     separator level
                                     ++ text_at (S level) e) rest))
  end.
  { induction rest as [|e rest IH]; [reflexivity|].
    cbn [map concat]. rewrite !concat_app, Hchunk, IH.
    unfold separator. now rewrite ?app_nil_r, <- ?app_assoc. }
  rewrite Hrest. now rewrite ?app_nil_r, <- ?app_assoc.
Qed.

(** The text of a value starts with a quote, a brace, a bracket or a
    letter. *)
Lemma text_at_head (level : nat) (v : value) :
  serializable v = true ->
  exists c r, text_at level v = c :: r /\
              In c [34; 123; 91; 110; 116; 102].
Proof.
  destruct v as [|[]|n|s|[|e l]|[|it l]]; try discriminate; intros _.
  - exists 110, (lit "ull"). split; [reflexivity|cbn; tauto].
  - exists 116, (lit "rue"). split; [reflexivity|cbn; tauto].
  - exists 102, (lit "alse"). split; [reflexivity|cbn; tauto].
  - exists 34, (flat_map escape_char s ++ [QUOTE]).
    split; [|cbn; tauto]. unfold text_at. cbn. now rewrite app_nil_r.
  - exists 91, [93]. split; [reflexivity|cbn; tauto].
  - rewrite text_at_list. eexists 91, _. split; [reflexivity|cbn; tauto].
  - exists 123, [125]. split; [reflexivity|cbn; tauto].
  - rewrite text_at_dict. eexists 123, _. split; [reflexivity|cbn; tauto].
Qed.

Lemma head_not_blank (c : Z) :
  In c [34; 123; 91; 110; 116; 102] ->
  is_ws c = false /\ c <> 93 /\ c <> 0xFEFF.
Proof.
  cbn [In]. intros [<-|[<-|[<-|[<-|[<-|[<-|[]]]]]]];
    repeat split; try reflexivity; discriminate.
Qed.

Lemma skip_ws_text (level : nat) (v : value) (tl : pystr) :
  serializable v = true ->
  skip_ws (text_at level v ++ tl) = text_at level v ++ tl.
Proof.
  intros Hv. destruct (text_at_head level v Hv) as (c & r & -> & Hc).
  apply head_not_blank in Hc as (Hc & _). now apply skip_ws_none.
Qed.

Lemma length_concat_map {A} (f : A -> list Z) (l : list A) (x : A) :
  In x l -> (length (f x) <= length (concat (map f l)))%nat.
Proof.
  induction l as [|y l IH]; [intros []|]. cbn [map concat].
  rewrite length_app. intros [->|Hin]; [lia|]. specialize (IH Hin). lia.
Qed.

Lemma length_concat_items {A} (f : A -> list Z) (l : list A) :
  (forall x, (1 <= length (f x))%nat) ->
  (length l <= length (concat (map f l)))%nat.
Proof.
  intros Hf. induction l as [|y l IH]; [reflexivity|]. cbn [map concat length].
  rewrite length_app. specialize (Hf y). lia.
Qed.

(** With keys that are all different, [dict(pairs)] is the list of the
    pairs. *)
Lemma dict_of_distinct (items pairs : list (pystr * value)) :
  distinct (map fst (pairs ++ items)) = true ->
  fold_left (fun d (item : pystr * value) => dict_set d (fst item) (snd item))
            items pairs
  = pairs ++ items.
Proof.
  revert pairs. induction items as [|[k v] items IH]; intros pairs Hd.
  - now rewrite app_nil_r.
  - cbn [fold_left fst snd].
    assert (Hnew : ~ In k (map fst pairs)).
    { clear IH. induction pairs as [|[k' v'] pairs IHp]; [intros []|].
      cbn [app map fst distinct] in Hd.
      apply andb_true_iff in Hd as [Hk Hd]. apply distinct_not_in in Hk.
      cbn [map fst In]. intros [->|Hin]; [|now apply IHp].
      apply Hk. rewrite map_app, in_app_iff. right. now left. }
    rewrite dict_set_new by assumption.
    rewrite IH; rewrite <- app_assoc; [reflexivity|exact Hd].
Qed.

(** One turn of the loops of the scanner. *)
Lemma object_loop_last scan (n : nat) (s key x tl : pystr) (v : value)
      (pairs : list (pystr * value)) (level : nat) :
  scanstring s = Some (key, lit ": " ++ x) -> skip_ws x = x ->
  scan x = inl (v, newline_indent level ++ lit "}" ++ tl) ->
  object_loop scan (S n) s pairs = inl (VDict (dict_set pairs key v), tl).
Proof.
  intros Hs Hx Hv. cbn [object_loop]. rewrite Hs.
  change (skip_ws (lit ": " ++ x)) with (58 :: 32 :: x).
  change (58 =? 58) with true. cbn iota.
  change (skip_ws (32 :: x)) with (skip_ws x).
  rewrite Hx, Hv.
  change (lit "}" ++ tl) with (125 :: tl).
  now rewrite skip_ws_indent.
Qed.

Lemma object_loop_next scan (n : nat) (s key x s' : pystr) (v : value)
      (pairs : list (pystr * value)) (level : nat) :
  scanstring s = Some (key, lit ": " ++ x) -> skip_ws x = x ->
  scan x = inl (v, separator level ++ QUOTE :: s') ->
  object_loop scan (S n) s pairs
  = object_loop scan n s' (dict_set pairs key v).
Proof.
  intros Hs Hx Hv. cbn [object_loop]. rewrite Hs.
  change (skip_ws (lit ": " ++ x)) with (58 :: 32 :: x).
  change (58 =? 58) with true. cbn iota.
  change (skip_ws (32 :: x)) with (skip_ws x).
  rewrite Hx, Hv.
  change (separator level ++ QUOTE :: s')
    with (44 :: newline_indent (S level) ++ QUOTE :: s').
  change (skip_ws (44 :: ?y)) with (44 :: y).
  change (44 =? 125) with false. change (44 =? 44) with true. cbn iota.
  now rewrite skip_ws_indent.
Qed.

Lemma array_loop_last scan (n : nat) (x tl : pystr) (v : value)
      (values : list value) (level : nat) :
  scan x = inl (v, newline_indent level ++ lit "]" ++ tl) ->
  array_loop scan (S n) x values = inl (VList (values ++ [v]), tl).
Proof.
  intros Hv. cbn [array_loop]. rewrite Hv.
  change (lit "]" ++ tl) with (93 :: tl).
  now rewrite skip_ws_indent.
Qed.

Lemma array_loop_next scan (n : nat) (x x' : pystr) (v : value)
      (values : list value) (level : nat) :
  scan x = inl (v, separator level ++ x') -> skip_ws x' = x' ->
  (exists c r, x' = c :: r /\ is_ws c = false) ->
  array_loop scan (S n) x values = array_loop scan n x' (values ++ [v]).
Proof.
  intros Hv Hx (c & r & -> & Hc). cbn [array_loop]. rewrite Hv.
  change (separator level ++ c :: r)
    with (44 :: newline_indent (S level) ++ c :: r).
  change (skip_ws (44 :: ?y)) with (44 :: y).
  change (44 =? 93) with false. change (44 =? 44) with true. cbn iota.
  now rewrite skip_ws_indent.
Qed.

Section ContainerTexts.

Variable fuel : nat.

Hypothesis scan_text :
  forall v level tl,
    serializable v = true -> (length (text_at level v) <= fuel)%nat ->
    scan_once fuel (text_at level v ++ tl) = inl (v, tl).

Lemma object_loop_text (level : nat) (rest : list (pystr * value)) :
  forall (item : pystr * value) (pairs : list (pystr * value)) (n : nat)
         (tl : pystr),
    (length rest < n)%nat ->
    forallb (fun item : pystr * value =>
               code_points (fst item) && serializable (snd item))
            (item :: rest) = true ->
    (forall it, In it (item :: rest) ->
                (length (text_at (S level) (snd it)) <= fuel)%nat) ->
    object_loop (scan_once fuel) n
      (flat_map escape_char (fst item) ++ QUOTE :: lit ": "
       ++ text_at (S level) (snd item)
       ++ concat (map (fun item => separator level ++ member_text level item)
                      rest)
       ++ newline_indent level ++ lit "}" ++ tl)
      pairs
    = inl (VDict (fold_left (fun d (item : pystr * value) =>
                                dict_set d (fst item) (snd item))
                             (item :: rest) pairs), tl).
Proof.
  induction rest as [|next rest IH]; intros [k v] pairs n tl Hn Hall Hlen;
    (destruct n as [|n]; [cbn in Hn; lia|]);
    cbn [forallb fst snd] in Hall |- *;
    apply andb_true_iff in Hall as [Hkv Hall];
    apply andb_true_iff in Hkv as [Hk Hv];
    pose proof (Hlen (k, v) (or_introl eq_refl)) as Hlv; cbn [snd] in Hlv.
  - cbn [map concat app fold_left fst snd].
    eapply object_loop_last.
    + apply (scanstring_encode _ _ Hk).
    + now apply skip_ws_text.
    + now apply scan_text.
  - destruct next as [k2 v2]. cbn [map concat fold_left fst snd].
    erewrite object_loop_next.
    + apply (IH (k2, v2)); [cbn in Hn |- *; lia|exact Hall|].
      intros it Hit. apply Hlen. now right.
    + apply (scanstring_encode _ _ Hk).
    + now apply skip_ws_text.
    + rewrite scan_text by assumption. f_equal. f_equal.
      unfold member_text, encode_basestring. cbn [fst snd].
      now rewrite <- !app_assoc.
Qed.

Lemma array_loop_text (level : nat) (rest : list value) :
  forall (v : value) (values : list value) (n : nat) (tl : pystr),
    (length rest < n)%nat ->
    forallb serializable (v :: rest) = true ->
    (forall e, In e (v :: rest) ->
               (length (text_at (S level) e) <= fuel)%nat) ->
    array_loop (scan_once fuel) n
      (text_at (S level) v
       ++ concat (map (fun e => separator level ++ text_at (S level) e) rest)
       ++ newline_indent level ++ lit "]" ++ tl)
      values
    = inl (VList (values ++ v :: rest), tl).
Proof.
  induction rest as [|next rest IH]; intros v values n tl Hn Hall Hlen;
    (destruct n as [|n]; [cbn in Hn; lia|]);
    cbn [forallb] in Hall; apply andb_true_iff in Hall as [Hv Hall];
    pose proof (Hlen v (or_introl eq_refl)) as Hlv.
  - cbn [map concat app]. eapply array_loop_last. now apply scan_text.
  - cbn [map concat].
    pose proof Hall as Hnext. cbn [forallb] in Hnext.
    apply andb_true_iff in Hnext as [Hnext _].
    erewrite array_loop_next.
    + rewrite (IH next (values ++ [v]) n tl); try assumption.
      * now rewrite <- app_assoc.
      * cbn in Hn. lia.
      * intros e He. apply Hlen. now right.
    + rewrite scan_text by assumption. f_equal. f_equal.
      now rewrite <- !app_assoc.
    + now apply skip_ws_text.
    + destruct (text_at_head (S level) next Hnext) as (c & r & Hc & Hin).
      exists c, (r ++ concat (map (fun e => separator level
                                            ++ text_at (S level) e) rest)
                   ++ newline_indent level ++ lit "]" ++ tl).
      rewrite Hc. split; [reflexivity|]. now apply head_not_blank in Hin.
Qed.

End ContainerTexts.

Lemma length_member_text (level : nat) (item : pystr * value) :
  (1 <= length (separator level ++ member_text level item))%nat.
Proof. unfold separator. cbn. lia. Qed.

Lemma length_element_text (level : nat) (v : value) :
  (1 <= length (separator level ++ text_at (S level) v))%nat.
Proof. unfold separator. cbn. lia. Qed.

(** The scanner reads back the text of a value, whatever follows it. *)
Lemma scan_once_text (fuel : nat) :
  forall (v : value) (level : nat) (tl : pystr),
    serializable v = true -> (length (text_at level v) <= fuel)%nat ->
    scan_once fuel (text_at level v ++ tl) = inl (v, tl).
Proof.
  induction fuel as [|fuel IH]; intros v level tl Hv Hlen.
  { destruct (text_at_head level v Hv) as (c & r & Hc & _).
    rewrite Hc in Hlen. cbn in Hlen. lia. }
  destruct v as [|[]|n|s|[|e l]|[|it l]]; try discriminate.
  - reflexivity.
  - reflexivity.
  - reflexivity.
  - unfold text_at. cbn [iterencode concat]. rewrite app_nil_r.
    unfold encode_basestring. rewrite <- !app_assoc. cbn [scan_once app].
    change (QUOTE =? QUOTE) with true. cbn iota.
    now rewrite scanstring_encode.
  - reflexivity.
  - rewrite text_at_list in Hlen |- *. cbn [serializable] in Hv.
    change (lit "[") with [91] in *. cbn [app] in Hlen |- *.
    rewrite <- ?app_assoc.
    cbn [scan_once]. change (91 =? QUOTE) with false.
    change (91 =? 123) with false. change (91 =? 91) with true. cbn iota.
    unfold JSONArray.
    pose proof Hv as He. cbn [forallb] in He.
    apply andb_true_iff in He as [He _].
    destruct (text_at_head (S level) e He) as (c & r & Hc & Hin).
    pose proof (head_not_blank c Hin) as (Hws & H93 & _).
    rewrite Hc. cbn [app]. rewrite skip_ws_indent by assumption.
    destruct (Z.eqb_spec c 93) as [|_]; [contradiction|].
    change (c :: r ++ ?x) with ((c :: r) ++ x). rewrite <- Hc.
    cbn [length] in Hlen. rewrite !length_app in Hlen.
    apply (array_loop_text fuel IH level l e []); try assumption.
    + repeat (progress (cbn [length]; rewrite ?length_app)).
      pose proof (length_concat_items
                    (fun e => separator level ++ text_at (S level) e)
                    l (length_element_text level)).
      lia.
    + intros x [<-|Hx]; [lia|].
      pose proof (length_concat_map
                    (fun e => separator level ++ text_at (S level) e)
                    l x Hx) as Hx'.
      cbn beta in Hx'. rewrite length_app in Hx'. lia.
  - reflexivity.
  - rewrite text_at_dict in Hlen |- *. cbn [serializable] in Hv.
    apply andb_true_iff in Hv as [Hd Hall].
    change (lit "{") with [123] in *. cbn [app] in Hlen |- *.
    unfold member_text at 1, encode_basestring. rewrite <- ?app_assoc.
    cbn [app scan_once]. change (123 =? QUOTE) with false.
    change (123 =? 123) with true. cbn iota.
    unfold JSONObject. rewrite skip_ws_indent by reflexivity.
    change (QUOTE =? QUOTE) with true. cbn iota.
    cbn [length] in Hlen. rewrite !length_app in Hlen.
    unfold member_text at 1 in Hlen. rewrite !length_app in Hlen.
    rewrite (object_loop_text fuel IH level l it []); try assumption.
    + f_equal. f_equal. f_equal. now apply (dict_of_distinct (it :: l) []).
    + repeat (progress (cbn [length]; rewrite ?length_app)).
      pose proof (length_concat_items
                    (fun item => separator level ++ member_text level item)
                    l (length_member_text level)).
      lia.
    + intros x [<-|Hx]; [lia|].
      pose proof (length_concat_map
                    (fun item => separator level ++ member_text level item)
                    l x Hx) as Hx'.
      cbn beta in Hx'. unfold member_text at 1 in Hx'.
      rewrite !length_app in Hx'. lia.
Qed.

Lemma loads_dumps (o : value) :
  serializable o = true -> json_loads (json_dumps o) = inl o.
Proof.
  intros Ho. change (json_dumps o) with (text_at 0 o).
  destruct (text_at_head 0 o Ho) as (c & r & Hc & Hin).
  pose proof (head_not_blank c Hin) as (Hws & _ & Hbom).
  unfold json_loads.
  assert (Hscan : scan_once (S (length (text_at 0 o)))
                            (skip_ws (text_at 0 o)) = inl (o, [])).
  { rewrite <- (app_nil_r (text_at 0 o)) at 2.
    rewrite skip_ws_text by assumption.
    apply scan_once_text; [assumption|lia]. }
  rewrite Hscan. rewrite Hc.
  cbn [In] in Hin.
  destruct Hin as [<-|[<-|[<-|[<-|[<-|[<-|[]]]]]]]; reflexivity.
Qed.

(** X7.  What [json.dump] writes, [json.load] reads back.  For a document of
    strings, truth values, [None], lists and mappings with no key twice,
    parsing the text written with [ensure_ascii=False] and [indent=4] gives
    the document again, whatever quotes, backslashes, control characters and
    nesting it has. *)
Theorem json_loads_dumps (o : value) :
  serializable o = true -> json_loads (json_dumps o) = inl o.
Proof. exact (loads_dumps o). Qed.

(** ** The text of a captured document *)

Lemma clean_chars (s : pystr) : clean s = forallb clean_char s.
Proof.
  unfold clean, no_cr, encodable, clean_char.
  induction s as [|c s IH]; [reflexivity|]. cbn [forallb]. rewrite <- IH.
  destruct (encodable_char c), (negb (c =? CR)), (forallb _ s), (forallb _ s);
    reflexivity.
Qed.

Lemma forallb_concat {A} (q : A -> bool) (l : list (list A)) :
  forallb q (concat l) = forallb (forallb q) l.
Proof.
  induction l as [|x l IH]; [reflexivity|]. cbn [concat forallb].
  now rewrite forallb_app, IH.
Qed.

Lemma forallb_flat_map {A B} (q : B -> bool) (f : A -> list B) (l : list A) :
  forallb q (flat_map f l) = forallb (fun x => forallb q (f x)) l.
Proof.
  induction l as [|x l IH]; [reflexivity|]. cbn [flat_map forallb].
  now rewrite forallb_app, IH.
Qed.

Lemma clean_ascii (c : Z) : 0 <= c < 128 -> c <> CR -> clean_char c = true.
Proof.
  intros H Hcr. unfold clean_char, encodable_char.
  rewrite encode_char_1 by assumption.
  now destruct (Z.eqb_spec c CR).
Qed.

Lemma hex_digit_ascii (n : Z) : 0 <= n < 16 -> 48 <= hex_digit n < 128.
Proof. intros H. unfold hex_digit. destruct (Z.ltb_spec n 10); lia. Qed.

Lemma clean_hex_digit (n : Z) :
  0 <= n < 16 -> clean_char (hex_digit n) = true.
Proof.
  intros H. pose proof (hex_digit_ascii n H).
  apply clean_ascii; unfold CR; lia.
Qed.

Lemma clean_escape_char (c : Z) :
  encodable_char c = true -> forallb clean_char (escape_char c) = true.
Proof.
  intros Hc. unfold escape_char.
  repeat match goal with
         | |- context [if ?a =? ?b then _ else _] =>
           destruct (Z.eqb_spec a b); [reflexivity|]
         end.
  assert (Hself : forallb clean_char [c] = true).
  { cbn [forallb]. unfold clean_char. rewrite Hc.
    destruct (Z.eqb_spec c CR); [|reflexivity]. unfold CR in *. lia. }
  destruct (Z.leb_spec 0 c); destruct (Z.ltb_spec c 32); cbn [andb];
    try exact Hself.
  cbn [forallb]. rewrite !clean_hex_digit by divmod. reflexivity.
Qed.

Lemma clean_basestring (s : pystr) :
  encodable s = true -> forallb clean_char (encode_basestring s) = true.
Proof.
  intros Hs. unfold encode_basestring.
  rewrite !forallb_app, forallb_flat_map. cbn [forallb andb].
  change (clean_char QUOTE) with true. cbn [andb]. rewrite andb_true_r.
  unfold encodable in Hs. rewrite forallb_forall in Hs |- *.
  intros c Hc. apply clean_escape_char. now apply Hs.
Qed.

Lemma clean_indent (level : nat) :
  forallb clean_char (newline_indent level) = true.
Proof.
  unfold newline_indent. cbn [forallb]. change (clean_char LF) with true.
  cbn [andb]. induction (4 * level)%nat as [|n IH]; [reflexivity|].
  cbn [repeat forallb]. now rewrite IH.
Qed.

Lemma restorable_encodable (s : pystr) : clean s = true -> encodable s = true.
Proof. unfold clean. intros H. now apply andb_true_iff in H as [_ H]. Qed.

(** The text of a document of strings that can be encoded has no
    carriage return and can be encoded. *)
Lemma clean_text (v : value) :
  forall level,
    restorable v = true -> encodable_keys v = true ->
    forallb clean_char (text_at level v) = true.
Proof.
  induction v as [v Hv|items IH] using value_nested_ind; intros level.
  { destruct v; try discriminate.
    - cbn [restorable]. intros Hs _. unfold text_at.
      cbn [iterencode concat]. rewrite app_nil_r.
      apply clean_basestring. now apply restorable_encodable.
    - exfalso. now apply (Hv items). }
  cbn [restorable encodable_keys]. intros Hr Hk.
  apply andb_true_iff in Hr as [_ Hr].
  destruct items as [|it rest]; [reflexivity|].
  assert (Hmember : forall item,
             In item (it :: rest) ->
             forallb clean_char (member_text level item) = true).
  { intros item Hin. unfold member_text.
    rewrite forallb_forall in Hr, Hk. rewrite Forall_forall in IH.
    specialize (Hr _ Hin). specialize (Hk _ Hin).
    apply andb_true_iff in Hk as [Hkey Hkeys].
    rewrite !forallb_app, clean_basestring by assumption.
    rewrite (IH _ Hin (S level) Hr Hkeys). reflexivity. }
  rewrite text_at_dict, !forallb_app, clean_indent, clean_indent.
  rewrite (Hmember it) by now left. rewrite forallb_concat.
  change (forallb clean_char (lit "{")) with true.
  change (forallb clean_char (lit "}")) with true. cbn [andb].
  rewrite andb_true_r. apply forallb_forall. intros x Hx.
  apply in_map_iff in Hx as (item & <- & Hin).
  unfold separator. rewrite !forallb_app, clean_indent.
  rewrite (Hmember item) by now right. reflexivity.
Qed.

Lemma encodable_code_points (s : pystr) :
  encodable s = true -> code_points s = true.
Proof.
  unfold encodable, code_points. rewrite !forallb_forall.
  intros H c Hc. specialize (H c Hc).
  unfold encodable_char, utf8_encode_char in H.
  destruct (Z.ltb_spec c 0); [discriminate|]. now apply Z.leb_le.
Qed.

(** What capture gives can be written as JSON text and read back. *)
Lemma restorable_serializable (v : value) :
  restorable v = true -> encodable_keys v = true -> serializable v = true.
Proof.
  induction v as [v Hv|items IH] using value_nested_ind.
  { destruct v; try discriminate.
    - cbn [restorable serializable]. intros Hs _.
      now apply encodable_code_points, restorable_encodable.
    - exfalso. now apply (Hv items). }
  cbn [restorable encodable_keys serializable]. intros Hr Hk.
  apply andb_true_iff in Hr as [Hd Hr]. rewrite Hd. cbn [andb].
  rewrite forallb_forall in Hr, Hk |- *. rewrite Forall_forall in IH.
  intros item Hin. specialize (Hk _ Hin).
  apply andb_true_iff in Hk as [Hkey Hkeys].
  rewrite (encodable_code_points _ Hkey). cbn [andb].
  now apply IH; [|apply Hr|].
Qed.

(** ** Writing the chunks *)

Lemma write_chunks_ok (p : path) (chunks : list pystr) :
  forall (written b : bytes) (w : world),
    utf8_encode (concat chunks) = Some b ->
    stat p (disk w) = inl (File written) ->
    exists d,
      put p (File (written ++ b)) (disk w) = Some d /\
      write_chunks p chunks w = (inl tt, set_disk d w).
Proof.
  induction chunks as [|chunk rest IH]; intros written b w Hb Hp.
  - cbn in Hb. injection Hb as <-. rewrite app_nil_r.
    exists (disk w). split; [now apply put_same|]. now destruct w.
  - cbn [concat] in Hb. rewrite utf8_encode_app in Hb.
    destruct (utf8_encode chunk) as [b1|] eqn:E1; [|discriminate].
    destruct (utf8_encode (concat rest)) as [b2|] eqn:E2; [|discriminate].
    injection Hb as <-.
    destruct (put_exists p (File (written ++ b1)) _ _ Hp) as [d1 Hd1].
    cbn [write_chunks]. unfold bind, f_write_chunk. rewrite E1, Hp, Hd1.
    destruct (IH (written ++ b1) b2 (set_disk d1 w) eq_refl) as (d & Hd & Hw).
    { cbn. now apply (put_stat_same _ _ (disk w)). }
    exists d. cbn [set_disk disk] in Hd.
    rewrite (put_twice _ _ _ _ _ Hd1) in Hd. rewrite <- app_assoc in Hd.
    split; [assumption|]. rewrite Hw. reflexivity.
Qed.

Lemma can_write_open (p : path) (w : world) :
  can_write p (disk w) ->
  exists d, put p (File []) (disk w) = Some d /\
            open_w p w = (inl tt, mkWorld d (writes w ++ [p]) (log w)).
Proof.
  unfold open_w. intros [[b Hb]|[He [es Hd]]].
  - destruct (put_exists p (File []) _ _ Hb) as [d Hd].
    exists d. now rewrite Hb, Hd.
  - rewrite He. destruct p as [|n p] using rev_ind; [discriminate|].
    clear IHp. change (p ++ [n]) with (os_path_join p n) in *.
    rewrite dirname_join in Hd.
    unfold os_path_join in *. rewrite stat_app, Hd in He. cbn [stat] in He.
    destruct (find_entry n es) eqn:Ef; [destruct n0; discriminate|].
    destruct (put_new_child p n (File []) _ _ Hd Ef) as (_ & _ & d & Hput).
    exists d. now rewrite Hput.
Qed.

Lemma save_then_load
        (structure : value) (output_path : path) (w : world) :
  restorable structure = true ->
  encodable_keys structure = true ->
  can_write output_path (disk w) ->
  exists b d,
    utf8_encode (json_dumps structure) = Some b /\
    put output_path (File b) (disk w) = Some d /\
    let w' := mkWorld d (writes w ++ [output_path]) (log w) in
    save_structure_to_json structure output_path w = (inl tt, w') /\
    json_load output_path w' = (inl structure, w').
Proof.
  intros Hr Hk Hcan.
  pose proof (clean_text structure 0%nat Hr Hk) as Hclean.
  rewrite <- clean_chars in Hclean. change (text_at 0 structure)
    with (json_dumps structure) in Hclean.
  destruct (clean_read_written Strict _ Hclean) as (b & Hb & Hread).
  destruct (can_write_open _ _ Hcan) as (d0 & Hd0 & Hopen).
  destruct (write_chunks_ok output_path (iterencode structure 0) [] b
                            (mkWorld d0 (writes w ++ [output_path]) (log w))
                            Hb)
    as (d & Hd & Hwrite).
  { cbn. now apply (put_stat_same _ _ (disk w)). }
  cbn [app disk] in Hd. rewrite (put_twice _ _ _ _ _ Hd0) in Hd.
  exists b, d. split; [assumption|]. split; [assumption|]. cbn zeta. split.
  - unfold save_structure_to_json, bind. rewrite Hopen, Hwrite. reflexivity.
  - unfold json_load, bind, open_read. cbn [disk].
    rewrite (put_stat_same _ _ _ _ Hd), Hread. unfold ret.
    rewrite loads_dumps; [reflexivity|].
    now apply restorable_serializable.
Qed.

(** X8.  A saved document loads back.  Let [structure] be a document as
    capture gives it, strings without carriage return that can be encoded,
    under distinct keys that can be encoded, and let [output_path] be a file
    or a missing entry of a directory.  Then [save_structure_to_json]
    returns, the file holds the UTF-8 bytes of the JSON text and nothing
    else changed, and the [json.load] of [update_files_from_json] on that
    file gives [structure] again. *)
Theorem saved_structure_loads_back
        (structure : value) (output_path : path) (w : world) :
  restorable structure = true ->
  encodable_keys structure = true ->
  can_write output_path (disk w) ->
  exists b d,
    utf8_encode (json_dumps structure) = Some b /\
    put output_path (File b) (disk w) = Some d /\
    let w' := mkWorld d (writes w ++ [output_path]) (log w) in
    save_structure_to_json structure output_path w = (inl tt, w') /\
    json_load output_path w' = (inl structure, w').
Proof. exact (save_then_load structure output_path w). Qed.

(** * Saving, loading and [main] *)

(** ** A chunk that cannot be encoded *)

Lemma write_chunks_app (p : path) (a b : list pystr) (w : world) :
  write_chunks p (a ++ b) w = (write_chunks p a ;; write_chunks p b) w.
Proof.
  revert w; induction a as [|c a IH]; intros w; cbn [app write_chunks].
  - reflexivity.
  - unfold bind. destruct (f_write_chunk p c w) as [[[]|e] w1].
    + rewrite IH. reflexivity.
    + reflexivity.
Qed.

(** X9.  [json.dump] writes the document chunk by chunk.  When a chunk
    cannot be encoded, as a key or a string with a lone surrogate, and the
    chunks before it can, [save_structure_to_json] raises
    [UnicodeEncodeError] and leaves in the file the text of the chunks
    before it: a truncated document. *)
Theorem save_stops_at_the_first_unencodable_chunk
        (structure : value) (output_path : path) (w : world)
        (before after : list pystr) (chunk : pystr) (b : bytes) :
  iterencode structure 0 = before ++ chunk :: after ->
  utf8_encode (concat before) = Some b ->
  utf8_encode chunk = None ->
  can_write output_path (disk w) ->
  exists d,
    put output_path (File b) (disk w) = Some d /\
    save_structure_to_json structure output_path w
    = (inr UnicodeEncodeError,
       mkWorld d (writes w ++ [output_path]) (log w)).
Proof.
  intros Hchunks Hb Hbad Hcan.
  destruct (can_write_open _ _ Hcan) as (d0 & Hd0 & Hopen).
  destruct (write_chunks_ok output_path before [] b
                            (mkWorld d0 (writes w ++ [output_path]) (log w))
                            Hb)
    as (d & Hd & Hwrite).
  { cbn. now apply (put_stat_same _ _ (disk w)). }
  cbn [app disk] in Hd. rewrite (put_twice _ _ _ _ _ Hd0) in Hd.
  exists d. split; [assumption|].
  unfold save_structure_to_json, bind. rewrite Hopen, Hchunks.
  rewrite write_chunks_app. unfold bind. rewrite Hwrite.
  cbn [write_chunks]. unfold bind, f_write_chunk. now rewrite Hbad.
Qed.

(** ** A document that cannot be read *)

Lemma skip_ws_blank (s : pystr) : forallb is_ws s = true -> skip_ws s = [].
Proof.
  induction s as [|c s IH]; [reflexivity|]. cbn [forallb skip_ws].
  intros H. apply andb_true_iff in H as [-> H]. now apply IH.
Qed.

Lemma json_loads_blank (s : pystr) :
  forallb is_ws s = true -> json_loads s = inr JSONDecodeError.
Proof.
  intros H. unfold json_loads. rewrite (skip_ws_blank s H).
  destruct s as [|c s]; [reflexivity|].
  cbn [forallb] in H. apply andb_true_iff in H as [Hc _].
  destruct (Z.eqb_spec c 0xFEFF) as [->|Hne]; [discriminate|].
  cbn [scan_once].
  repeat (match goal with
          | |- match ?c with _ => _ end = _ => destruct c; try reflexivity
          end).
Qed.

(** X10.  A document that cannot be read changes nothing.
    [update_files_from_json] raises and leaves the disk, the log and the
    files opened for writing as they were when the file at [json_path] is
    missing ([FileNotFoundError] or [NotADirectoryError]), is a directory
    ([IsADirectoryError]), is not UTF-8 ([UnicodeDecodeError]), is refused
    by [json.load] ([JSONDecodeError], so for an empty file and for a file
    of blanks, or the [ValueError] of [int], so for an integer of more than
    4300 digits) or holds a JSON value that is not a mapping
    ([AttributeError]).  With a mapping in the file it does what it does on
    the loaded document. *)
Theorem unreadable_document_changes_nothing
        (directory_path json_path : path) (w : world) :
  ((forall y, stat json_path (disk w) <> inl y) ->
   exists e, update_files_from_json_file directory_path json_path w
             = (inr e, w) /\
             (e = FileNotFoundError \/ e = NotADirectoryError)) /\
  ((exists es, stat json_path (disk w) = inl (Dir es)) ->
   update_files_from_json_file directory_path json_path w
   = (inr IsADirectoryError, w)) /\
  (forall b,
      stat json_path (disk w) = inl (File b) ->
      match read_text Strict b with
      | None =>
        update_files_from_json_file directory_path json_path w
        = (inr UnicodeDecodeError, w)
      | Some text =>
        match json_loads text with
        | inr e =>
          update_files_from_json_file directory_path json_path w
          = (inr e, w) /\
          (e = JSONDecodeError \/ e = ValueError)
        | inl (VDict items) =>
          update_files_from_json_file directory_path json_path w
          = update_files_from_json directory_path (Some (VDict items)) w
        | inl _ =>
          update_files_from_json_file directory_path json_path w
          = (inr AttributeError, w)
        end
      end) /\
  (forall b text,
      stat json_path (disk w) = inl (File b) ->
      read_text Strict b = Some text ->
      forallb is_ws text = true ->
      update_files_from_json_file directory_path json_path w
      = (inr JSONDecodeError, w)) /\
  (forall b d ds,
      stat json_path (disk w) = inl (File b) ->
      read_text Strict b = Some (d :: ds) ->
      49 <= d <= 57 -> forallb is_digit ds = true ->
      MAX_STR_DIGITS < Z.of_nat (length (d :: ds)) ->
      update_files_from_json_file directory_path json_path w
      = (inr ValueError, w)).
Proof.
  unfold update_files_from_json_file, json_load, bind, open_read.
  split; [|split; [|split; [|split]]].
  - intros Hmiss. destruct (stat json_path (disk w)) as [y|[]] eqn:E.
    + now destruct (Hmiss y).
    + eauto.
    + eauto.
  - now intros [es ->].
  - intros b ->. destruct (read_text Strict b) as [text|]; [|reflexivity].
    destruct (json_loads text) as [[]|e] eqn:E; try reflexivity.
    split; [reflexivity|]. now apply (json_loads_raises text).
  - intros b text -> -> Hblank.
    now rewrite (json_loads_blank text Hblank).
  - intros b d ds -> -> Hd Hds Hlen.
    now rewrite (json_loads_long_integer d ds Hd Hds Hlen).
Qed.

(** ** [main] *)

Section MainProperties.

Variable fnmatch : pystr -> pystr -> bool.

Lemma load_exclusions_missing (file_path : path) (w : world) :
  (forall y, stat file_path (disk w) <> inl y) ->
  load_exclusions file_path w = (inl [], w).
Proof.
  intros H. unfold load_exclusions, bind, os_path_exists.
  destruct (stat file_path (disk w)) as [y|e]; [now destruct (H y)|].
  reflexivity.
Qed.

Lemma output_can_be_written (directory_path : path) (n : name)
      (es : list (name * node)) (d : node) :
  stat directory_path d = inl (Dir es) ->
  (forall es', stat (os_path_join directory_path n) d <> inl (Dir es')) ->
  can_write (os_path_join directory_path n) d.
Proof.
  intros Hd Hn. unfold can_write, is_file, is_dir. rewrite dirname_join.
  unfold os_path_join in *. rewrite stat_app, Hd in Hn |- *. cbn [stat] in *.
  destruct (find_entry n es) as [[b|es']|].
  - left. eauto.
  - now destruct (Hn es').
  - right. eauto.
Qed.

Lemma captured_is_dir (fs : node) (p : path) (exclusions : list pystr)
      (tree : value) :
  directory_to_dict fnmatch fs p exclusions = inl tree ->
  exists es items,
    stat p fs = inl (Dir es) /\ tree = VDict items /\
    restorable tree = true.
Proof.
  intros Hv. unfold directory_to_dict in Hv.
  destruct (stat p fs) as [[b|es]|[]]; try discriminate.
  pose proof (capture_node_restorable fnmatch _ _ _ Hv) as Hr.
  rewrite capture_node_dir in Hv.
  destruct (capture_loop fnmatch exclusions es (inl [])) as [items|];
    [|discriminate].
  injection Hv as <-. eauto.
Qed.

Lemma main_capture
        (args : arguments) (w : world) (exclusions : list pystr)
        (tree : value) :
  args_update args = None ->
  args_markdown args = false ->
  load_exclusions (args_exclude args) w = (inl exclusions, w) ->
  directory_to_dict fnmatch (disk w) (args_directory_path args) exclusions
  = inl tree ->
  encodable_keys tree = true ->
  let output_path := os_path_join (args_directory_path args) json_name in
  (forall es, stat output_path (disk w) <> inl (Dir es)) ->
  exists b d,
    utf8_encode (json_dumps tree) = Some b /\
    put output_path (File b) (disk w) = Some d /\
    let w' := mkWorld d (writes w ++ [output_path]) (log w) in
    main fnmatch args w = (inl [StructureSaved output_path], w') /\
    json_load output_path w' = (inl tree, w').
Proof.
  intros Hu Hm Hload Hcap Hk output_path Hout.
  destruct (captured_is_dir _ _ _ _ Hcap) as (es & items & Hd & _ & Hr).
  destruct (save_then_load tree output_path w Hr Hk)
    as (b & d & Hb & Hput & Hsave & Hback).
  { now apply (output_can_be_written _ _ es). }
  exists b, d. repeat split; try assumption.
  unfold main, bind, on_disk. rewrite Hload, Hu, Hm, Hcap.
  fold json_name. fold output_path. now rewrite Hsave.
Qed.

(** X19.  [main] without [--update] and without [--markdown] saves the
    captured tree and prints where.  When the exclusions are read, the
    directory is captured with keys that can be encoded, and
    [directory_structure.json] in that directory is not a directory, [main]
    writes the JSON text of the tree to that file and prints the line with
    its path; [json.load] on the file gives the tree again. *)
Theorem main_saves_the_captured_document
        (args : arguments) (w : world) (exclusions : list pystr)
        (tree : value) :
  args_update args = None ->
  args_markdown args = false ->
  load_exclusions (args_exclude args) w = (inl exclusions, w) ->
  directory_to_dict fnmatch (disk w) (args_directory_path args) exclusions
  = inl tree ->
  encodable_keys tree = true ->
  let output_path := os_path_join (args_directory_path args) json_name in
  (forall es, stat output_path (disk w) <> inl (Dir es)) ->
  exists b d,
    utf8_encode (json_dumps tree) = Some b /\
    put output_path (File b) (disk w) = Some d /\
    let w' := mkWorld d (writes w ++ [output_path]) (log w) in
    main fnmatch args w = (inl [StructureSaved output_path], w') /\
    json_load output_path w' = (inl tree, w').
Proof. exact (main_capture args w exclusions tree). Qed.

(** X20.  [main] with [--markdown] and without [--update] writes the
    markdown text of the directory to [directory_structure.md] in that
    directory and prints the line with its path, when the text can be
    encoded and that entry is not a directory. *)
Theorem main_saves_the_markdown
        (args : arguments) (w : world) (exclusions : list pystr)
        (markdown_content : pystr) (b : bytes) :
  args_update args = None ->
  args_markdown args = true ->
  load_exclusions (args_exclude args) w = (inl exclusions, w) ->
  directory_to_markdown fnmatch (disk w) (args_directory_path args)
                        exclusions
  = inl markdown_content ->
  utf8_encode markdown_content = Some b ->
  let output_path := os_path_join (args_directory_path args) markdown_name in
  (forall es, stat output_path (disk w) <> inl (Dir es)) ->
  exists d,
    put output_path (File b) (disk w) = Some d /\
    main fnmatch args w
    = (inl [MarkdownSaved output_path],
       mkWorld d (writes w ++ [output_path]) (log w)).
Proof.
  intros Hu Hm Hload Hmd Hb output_path Hout.
  assert (Hdir : exists es, stat (args_directory_path args) (disk w)
                            = inl (Dir es)).
  { unfold directory_to_markdown in Hmd.
    destruct (stat (args_directory_path args) (disk w)) as [[|es]|[]];
      try discriminate. eauto. }
  destruct Hdir as [es Hdir].
  destruct (can_write_open output_path w) as (d0 & Hd0 & Hopen).
  { now apply (output_can_be_written _ _ es). }
  destruct (put_some_any _ _ (File b) _ _ Hd0) as [d Hd].
  exists d. split; [assumption|].
  unfold main, bind, on_disk. rewrite Hload, Hu, Hm, Hmd.
  fold markdown_name. fold output_path.
  unfold open_write, bind. rewrite Hopen. unfold f_write. rewrite Hb.
  cbn [disk]. rewrite (put_stat_same _ _ _ _ Hd0).
  rewrite (put_twice _ _ _ _ _ Hd0), Hd. reflexivity.
Qed.

(** X21.  [main] reads the exclusion file before anything else and in every
    mode, also with [--update], where the patterns are not used.  When that
    path is a directory [main] raises [IsADirectoryError], and when the file
    is not valid UTF-8, [UnicodeDecodeError]; nothing is captured, written
    or reconciled. *)
Theorem main_stops_on_an_unreadable_exclusion_file
        (args : arguments) (w : world) :
  ((exists es, stat (args_exclude args) (disk w) = inl (Dir es)) ->
   main fnmatch args w = (inr IsADirectoryError, w)) /\
  (forall b,
      stat (args_exclude args) (disk w) = inl (File b) ->
      utf8_decode Strict b = None ->
      main fnmatch args w = (inr UnicodeDecodeError, w)).
Proof.
  unfold main, bind, load_exclusions, bind. split.
  - intros [es H]. rewrite (exists_true _ _ _ H). cbn [negb].
    unfold open_read. now rewrite H.
  - intros b H Hb. rewrite (exists_true _ _ _ H). cbn [negb].
    unfold open_read, read_text. now rewrite H, Hb.
Qed.

(** *** From one directory to another, through the file *)

Lemma put_reaches (q r : path) (x t t' : node) :
  r <> [] -> put (q ++ r) x t = Some t' -> exists y, stat q t = inl y.
Proof.
  intros Hr. revert t t'.
  induction q as [|n q IH]; intros t t'; [intros _; now exists t|].
  destruct t as [b|es]; cbn [app put stat]; [discriminate|].
  destruct (find_entry n es) as [c|].
  - destruct (put (q ++ r) x c) as [c'|] eqn:E; [|discriminate].
    intros _. now apply (IH c c').
  - destruct q; destruct r; cbn [app]; try discriminate. contradiction.
Qed.

(** Writing a file makes nothing else appear. *)
Lemma put_file_keeps_missing (p q : path) (b : bytes) (t t' : node)
      (e : errno) :
  put p (File b) t = Some t' -> stat q t = inr e -> q <> p ->
  exists e', stat q t' = inr e'.
Proof.
  intros Hput Hq Hne.
  destruct (is_prefix p q) eqn:Epq.
  - apply is_prefix_iff in Epq as [r ->].
    rewrite stat_app, (put_stat_same _ _ _ _ Hput).
    destruct r; [now rewrite app_nil_r in Hne|]. cbn. eauto.
  - destruct (is_prefix q p) eqn:Eqp.
    + apply is_prefix_iff in Eqp as [r ->].
      assert (Hr : r <> []) by (intros ->; now rewrite app_nil_r in Hne).
      destruct (put_reaches q r _ _ _ Hr Hput) as [y Hy]. congruence.
    + rewrite (put_stat_other _ _ _ _ _ Hput Epq Eqp). eauto.
Qed.

(** X22.  The round trip through the file.  With no exclusion file, run
    [main] on [source], whose captured tree has no directory without a file
    and has keys that can be encoded, and then [main] with [--update] on the
    saved [directory_structure.json] and an empty directory [target], with
    or without [--markdown]: both runs return, and capturing [target] gives
    the captured tree of [source]. *)
Theorem main_round_trip
        (source target exclude : path) (markdown : bool) (w : world)
        (tree : value) :
  (forall y, stat exclude (disk w) <> inl y) ->
  directory_to_dict fnmatch (disk w) source [] = inl tree ->
  no_empty_dirs tree = true ->
  encodable_keys tree = true ->
  stat target (disk w) = inl (Dir []) ->
  target <> source ->
  let json_path := os_path_join source json_name in
  (forall es, stat json_path (disk w) <> inl (Dir es)) ->
  exists w1 w2,
    main fnmatch (mkArguments source exclude false None) w
    = (inl [StructureSaved json_path], w1) /\
    main fnmatch (mkArguments target exclude markdown (Some json_path)) w1
    = (inl [], w2) /\
    directory_to_dict fnmatch (disk w2) target [] = inl tree.
Proof.
  intros Hex Hcap Hned Hk Htarget Hne json_path Hjson.
  pose proof (load_exclusions_missing exclude w Hex) as Hload.
  destruct (main_capture
              (mkArguments source exclude false None) w [] tree
              eq_refl eq_refl Hload Hcap Hk Hjson)
    as (b & d & Hb & Hput & Hmain & Hback).
  cbn [args_directory_path] in *. fold json_path in Hput, Hmain, Hback.
  cbn zeta in Hmain, Hback.
  set (w1 := mkWorld d (writes w ++ [json_path]) (log w)) in *.
  destruct (captured_is_dir _ _ _ _ Hcap) as (es & items & Hsrc & -> & Hr).
  (* the target is still an empty directory *)
  assert (Htarget1 : stat target (disk w1) = inl (Dir [])).
  { cbn [w1 disk]. rewrite (put_stat_other _ _ _ _ _ Hput); [assumption| |].
    - destruct (is_prefix json_path target) eqn:E; [|reflexivity].
      apply is_prefix_iff in E as [r ->]. rewrite stat_app in Htarget.
      destruct (stat json_path (disk w)) as [[b0|es0]|e0] eqn:Ej;
        try discriminate.
      + destruct r; discriminate.
      + now destruct (Hjson es0).
    - destruct (is_prefix target json_path) eqn:E; [|reflexivity].
      apply is_prefix_iff in E as [r Hr'].
      unfold json_path, os_path_join in Hr'.
      destruct r as [|m r] using rev_ind.
      + rewrite app_nil_r in Hr'. subst target.
        fold (os_path_join source json_name) in Htarget.
        fold json_path in Htarget. now destruct (Hjson []).
      + rewrite app_assoc in Hr'. apply app_inj_tail in Hr' as [Hs _].
        clear IHr.
        destruct r as [|m' r]; [rewrite app_nil_r in Hs; now destruct Hne|].
        rewrite Hs, stat_app, Htarget in Hsrc. discriminate. }
  (* the exclusion file is still readable *)
  assert (Hload1 : exists l, load_exclusions exclude w1 = (inl l, w1)).
  { destruct (path_eq_dec exclude json_path) as [->|Hej].
    - exists (splitlines (json_dumps (VDict items))).
      pose proof (clean_text (VDict items) 0%nat Hr Hk) as Hclean.
      rewrite <- clean_chars in Hclean.
      destruct (clean_read_written Strict _ Hclean) as (b' & Hb' & Hread).
      change (text_at 0 (VDict items)) with (json_dumps (VDict items))
        in Hb', Hread.
      assert (b' = b) by congruence. subst b'.
      assert (Hfile : stat json_path (disk w1) = inl (File b))
        by apply (put_stat_same _ _ _ _ Hput).
      unfold load_exclusions, bind. rewrite (exists_true _ _ _ Hfile).
      cbn [negb]. unfold open_read. now rewrite Hfile, Hread.
    - destruct (stat exclude (disk w)) as [y|e] eqn:Ee;
        [now destruct (Hex y)|].
      destruct (put_file_keeps_missing _ _ _ _ _ _ Hput Ee Hej) as [e' He'].
      exists []. apply load_exclusions_missing. cbn [w1 disk].
      intros y. congruence. }
  destruct Hload1 as [l Hload1].
  (* the run on the target *)
  destruct (stored_after items) with (w := w1) (p := target)
                                     (es := @nil (name * node))
    as (w2 & Hrun & Hw2); try assumption.
  { apply Forall_forall. intros item _. apply stored_fresh_all. }
  { reflexivity. }
  exists w1, w2. split; [exact Hmain|]. split.
  - unfold main, bind. cbn [args_exclude args_update args_directory_path].
    rewrite Hload1. unfold update_files_from_json_file, bind.
    rewrite Hback. cbn [update_files_from_json]. now rewrite Hrun.
  - unfold directory_to_dict. rewrite (put_stat_same _ _ _ _ Hw2).
    cbn [app]. now apply (capture_node_of fnmatch (VDict items)).
Qed.

End MainProperties.

(** ** The round trip through the document file *)

(** A path that can be opened for writing is not on the way to a
    directory. *)
Lemma can_write_not_above (output_path p : path) (d : node)
      (es : list (name * node)) :
  can_write output_path d -> stat p d = inl (Dir es) ->
  is_prefix output_path p = false.
Proof.
  intros Hcan Hp. destruct (is_prefix output_path p) eqn:E; [|reflexivity].
  apply is_prefix_iff in E as [r ->]. rewrite stat_app in Hp.
  destruct Hcan as [[b Hb]|[He _]].
  - rewrite Hb in Hp. destruct r; discriminate.
  - rewrite He in Hp. discriminate.
Qed.

(** C1 (amended).  The round trip.  Capture a directory [source] with no
    exclusions; let the captured tree have no directory without a file in
    it or below it, and let its keys, the names of the entries, be texts
    that can be encoded.  Save the tree with [save_structure_to_json] to a
    path outside the empty directory [target], and reconcile [target] with
    that file: both calls return, and capturing [target] then gives the
    captured tree of [source] again, key by key in the same order.
    Nothing is asked of the files: what does not decode was left out by
    the first capture. *)
Theorem round_trip
        (fnmatch : pystr -> pystr -> bool)
        (w : world) (source target json_path : path) (tree : value) :
  directory_to_dict fnmatch (disk w) source [] = inl tree ->
  no_empty_dirs tree = true ->
  encodable_keys tree = true ->
  stat target (disk w) = inl (Dir []) ->
  can_write json_path (disk w) ->
  is_prefix target json_path = false ->
  exists w1 w2,
    save_structure_to_json tree json_path w = (inl tt, w1) /\
    update_files_from_json_file target json_path w1 = (inl tt, w2) /\
    directory_to_dict fnmatch (disk w2) target [] = inl tree.
Proof.
  intros Hcap Hned Hk Htarget Hcan Hout.
  destruct (captured_is_dir fnmatch _ _ _ _ Hcap)
    as (es & items & _ & -> & Hr).
  destruct (save_then_load (VDict items) json_path w Hr Hk Hcan)
    as (b & d & _ & Hput & Hsave & Hback).
  cbn zeta in Hsave, Hback.
  set (w1 := mkWorld d (writes w ++ [json_path]) (log w)) in *.
  assert (Htarget1 : stat target (disk w1) = inl (Dir [])).
  { cbn [w1 disk]. rewrite (put_stat_other _ _ _ _ _ Hput); [assumption| |].
    - now apply (can_write_not_above _ _ (disk w) []).
    - assumption. }
  destruct (stored_after items) with (w := w1) (p := target)
                                     (es := @nil (name * node))
    as (w2 & Hrun & Hw2); try assumption.
  { apply Forall_forall. intros item _. apply stored_fresh_all. }
  { reflexivity. }
  exists w1, w2. split; [exact Hsave|]. split.
  - unfold update_files_from_json_file, bind. rewrite Hback.
    cbn [update_files_from_json]. now rewrite Hrun.
  - unfold directory_to_dict. rewrite (put_stat_same _ _ _ _ Hw2).
    cbn [app]. now apply (capture_node_of fnmatch (VDict items)).
Qed.

(** ** A second capture *)

Lemma find_entry_none (n : name) (es : list (name * node)) :
  find_entry n es = None -> ~ In n (map fst es).
Proof.
  induction es as [|[m y] es IH]; [intros _ []|]. cbn [find_entry map fst].
  destruct (str_eqb m n) eqn:E; [discriminate|]. intros H [->|Hin].
  - now rewrite str_eqb_refl in E.
  - now apply IH.
Qed.

Lemma distinct_app_new (l : list pystr) (n : pystr) :
  distinct l = true -> ~ In n l -> distinct (l ++ [n]) = true.
Proof.
  induction l as [|x l IH]; [reflexivity|]. cbn [distinct app].
  intros H Hn. apply andb_true_iff in H as [Hx Hl].
  rewrite IH; [|assumption|intros Hin; apply Hn; now right].
  rewrite andb_true_r. apply negb_true_iff.
  apply negb_true_iff in Hx. rewrite existsb_app, Hx. cbn.
  rewrite orb_false_r. apply str_eqb_neq. intros ->. apply Hn. now left.
Qed.

Lemma set_entry_names (n : name) (x c : node) (es : list (name * node)) :
  find_entry n es = Some c -> map fst (set_entry n x es) = map fst es.
Proof.
  induction es as [|[m y] es IH]; [discriminate|]. cbn [find_entry set_entry].
  destruct (str_eqb m n); [reflexivity|]. intros H. cbn [map fst].
  now rewrite IH.
Qed.

Lemma forallb_set_entry (P : name * node -> bool) (n : name) (x : node)
      (es : list (name * node)) :
  (forall m, P (m, x) = true) -> forallb P es = true ->
  forallb P (set_entry n x es) = true.
Proof.
  intros Hx. induction es as [|[m y] es IH]; cbn [set_entry forallb].
  - intros _. now rewrite Hx.
  - intros H. apply andb_true_iff in H as [Hm Hes].
    destruct (str_eqb m n); cbn [forallb].
    + now rewrite Hx, Hes.
    + now rewrite Hm, IH.
Qed.

(** Storing an entry keeps the names of every directory different. *)
Lemma put_unique_names (p : path) (x : node) :
  forall t t',
    unique_names t = true -> unique_names x = true ->
    put p x t = Some t' -> unique_names t' = true.
Proof.
  induction p as [|n p IH]; intros t t' Ht Hx; [now intros [= <-]|].
  destruct t as [b|es]; [discriminate|]. cbn [put unique_names] in *.
  apply andb_true_iff in Ht as [Hd Hall].
  destruct (find_entry n es) as [c|] eqn:Ef.
  - destruct (put p x c) as [c'|] eqn:Ec; [|discriminate]. intros [= <-].
    cbn [unique_names]. rewrite (set_entry_names _ _ _ _ Ef), Hd.
    cbn [andb]. apply forallb_set_entry; [|assumption].
    intros m. cbn [snd]. apply (IH c c'); try assumption.
    rewrite forallb_forall in Hall. apply (Hall (n, c)).
    now apply find_entry_In.
  - destruct p; [|discriminate]. intros [= <-]. cbn [unique_names].
    rewrite map_app, forallb_app, Hall. cbn [map fst forallb snd].
    cbn in Hx. rewrite Hx.
    rewrite distinct_app_new; [reflexivity|assumption|].
    now apply find_entry_none.
Qed.

Section SecondCapture.

Variable fnmatch : pystr -> pystr -> bool.

(** X23.  The saved document lies in the captured directory.  Unless a
    pattern excludes [directory_structure.json], the capture of the
    directory after [main] has saved its tree has that file as a key, with
    the JSON text of the saved tree as its string. *)
Theorem second_capture_holds_the_first_document
        (args : arguments) (w : world) (exclusions : list pystr)
        (tree : value) :
  unique_names (disk w) = true ->
  args_update args = None ->
  args_markdown args = false ->
  load_exclusions (args_exclude args) w = (inl exclusions, w) ->
  directory_to_dict fnmatch (disk w) (args_directory_path args) exclusions
  = inl tree ->
  encodable_keys tree = true ->
  let output_path := os_path_join (args_directory_path args) json_name in
  (forall es, stat output_path (disk w) <> inl (Dir es)) ->
  should_exclude fnmatch json_name exclusions = false ->
  exists w' tree',
    main fnmatch args w = (inl [StructureSaved output_path], w') /\
    directory_to_dict fnmatch (disk w') (args_directory_path args) exclusions
    = inl tree' /\
    doc_get tree' [json_name] = Some (VStr (json_dumps tree)).
Proof.
  intros Hu Hup Hm Hload Hcap Hk output_path Hout Hex.
  destruct (main_capture
              fnmatch args w exclusions tree Hup Hm Hload Hcap Hk Hout)
    as (b & d & Hb & Hput & Hmain & _).
  fold output_path in Hput, Hmain. cbn zeta in Hmain.
  destruct (captured_is_dir _ _ _ _ _ Hcap) as (es & items & _ & _ & Hr).
  pose proof (clean_text tree 0%nat Hr Hk) as Hclean.
  rewrite <- clean_chars in Hclean.
  destruct (clean_read_written Ignore _ Hclean) as (b' & Hb' & Hread).
  change (text_at 0 tree) with (json_dumps tree) in Hb', Hread.
  assert (b' = b) by congruence. subst b'.
  assert (Hfile : stat output_path d = inl (File b))
    by apply (put_stat_same _ _ _ _ Hput).
  assert (Hdir : is_dir (args_directory_path args) d).
  { apply (is_file_below_is_dir _ [] json_name). now exists b. }
  destruct Hdir as [es' Hdir].
  assert (Hud : unique_names (Dir es') = true).
  { apply (unique_names_stat (args_directory_path args) d); [|assumption].
    now apply (put_unique_names output_path (File b) (disk w)). }
  destruct (capture_node_total fnmatch exclusions (Dir es')) as [tree' Ht'].
  exists (mkWorld d (writes w ++ [output_path]) (log w)), tree'.
  split; [exact Hmain|]. cbn [disk]. unfold directory_to_dict.
  rewrite Hdir. split; [exact Ht'|].
  destruct (capture_node_get fnmatch exclusions [json_name] (Dir es') tree' b
                             Hud Ht') as (text & Htext & Hget).
  - unfold output_path, os_path_join in Hfile.
    now rewrite stat_app, Hdir in Hfile.
  - cbn [existsb]. now rewrite Hex.
  - rewrite Hget. congruence.
Qed.

End SecondCapture.

(** ** The keys of a loaded document *)

Section LoadedKeys.

Variable scan : pystr -> res (value * pystr).

Hypothesis scan_unique_keys :
  forall s v rest, scan s = inl (v, rest) -> unique_keys v = true.

Lemma object_loop_unique_keys (n : nat) :
  forall s pairs v rest,
    unique_keys (VDict pairs) = true ->
    object_loop scan n s pairs = inl (v, rest) ->
    unique_keys v = true.
Proof.
  induction n as [|n IH]; intros s pairs v rest Hp; cbn [object_loop];
    [discriminate|].
  destruct (scanstring s) as [[key s1]|]; [|discriminate].
  destruct (skip_ws s1) as [|c s2]; [discriminate|].
  destruct (c =? 58); [|discriminate].
  destruct (scan (skip_ws s2)) as [[value s3]|e] eqn:Escan; [|discriminate].
  apply scan_unique_keys in Escan.
  assert (Hset : unique_keys (VDict (dict_set pairs key value)) = true).
  { cbn [unique_keys] in Hp |- *. apply andb_true_iff in Hp as [Hd Hall].
    rewrite (distinct_dict_set _ _ _ Hd). cbn [andb].
    now apply forallb_dict_set. }
  destruct (skip_ws s3) as [|nextchar s4]; [discriminate|].
  destruct (nextchar =? 125); [now intros [= <- _]|].
  destruct (nextchar =? 44); [|discriminate].
  destruct (skip_ws s4) as [|q s5]; [discriminate|].
  destruct (q =? QUOTE); [|discriminate]. now apply IH.
Qed.

Lemma array_loop_unique_keys (n : nat) :
  forall s values v rest,
    array_loop scan n s values = inl (v, rest) -> unique_keys v = true.
Proof.
  induction n as [|n IH]; intros s values v rest; cbn [array_loop];
    [discriminate|].
  destruct (scan s) as [[value s1]|e]; [|discriminate].
  destruct (skip_ws s1) as [|nextchar s2]; [discriminate|].
  destruct (nextchar =? 93); [now intros [= <- _]|].
  destruct (nextchar =? 44); [|discriminate]. apply IH.
Qed.

End LoadedKeys.

Lemma scan_once_unique_keys (fuel : nat) :
  forall s v rest,
    scan_once fuel s = inl (v, rest) -> unique_keys v = true.
Proof.
  induction fuel as [|fuel IH]; intros s v rest; cbn [scan_once];
    [discriminate|].
  destruct s as [|nextchar r]; [discriminate|].
  destruct (nextchar =? QUOTE).
  { destruct (scanstring r) as [[str rest']|]; [|discriminate].
    now intros [= <- _]. }
  destruct (nextchar =? 123).
  { unfold JSONObject. destruct (skip_ws r) as [|c r']; [discriminate|].
    destruct (c =? QUOTE).
    - now apply (object_loop_unique_keys _ IH).
    - destruct (c =? 125); [|discriminate]. now intros [= <- _]. }
  destruct (nextchar =? 91).
  { unfold JSONArray. destruct (skip_ws r) as [|c r'].
    - apply array_loop_unique_keys.
    - destruct (c =? 93); [now intros [= <- _]|].
      apply array_loop_unique_keys. }
  repeat match goal with
         | |- context [after_word ?a ?b] => destruct (after_word a b)
         end;
    try (now intros [= <- _]);
    destruct (match_number (nextchar :: r))
      as [[[integer frac_exp] rest']|];
    try (now intros [= <- _]); try discriminate.
  all: unfold parse_number; destruct frac_exp;
    [destruct (MAX_STR_DIGITS <? _); [discriminate|]|];
    now intros [= <- _].
Qed.

Lemma json_loads_unique_keys (s : pystr) (o : value) :
  json_loads s = inl o -> unique_keys o = true.
Proof.
  unfold json_loads.
  assert (H : match scan_once (S (length s)) (skip_ws s) with
              | inl (obj, rest) =>
                match skip_ws rest with
                | [] => inl obj
                | _ :: _ => inr JSONDecodeError
                end
              | inr e => inr e
              end = inl o -> unique_keys o = true).
  { destruct (scan_once (S (length s)) (skip_ws s)) as [[obj rest]|e] eqn:E;
      [|discriminate].
    apply scan_once_unique_keys in E.
    destruct (skip_ws rest); [|discriminate]. now intros [= <-]. }
  destruct s as [|c s']; [exact H|].
  revert H. generalize (scan_once (S (length (c :: s'))) (skip_ws (c :: s'))).
  intros scanned H.
  repeat match goal with
         | |- match ?x with _ => _ end = _ -> _ =>
           is_var x; destruct x; try exact H; try discriminate
         end.
Qed.

(** X24.  A run from a file that returns has loaded a document.  When
    [update_files_from_json] on the file at [json_path] returns, the file is
    UTF-8 and its text is a JSON text whose value is a mapping of strings
    and of such mappings with no key twice, and the run is the run on that
    value: what holds of a document with no key twice holds of every file
    that is loaded. *)
Theorem returning_run_loaded_a_document
        (directory_path json_path : path) (w w' : world) :
  update_files_from_json_file directory_path json_path w = (inl tt, w') ->
  exists (b : bytes) (text : pystr) (new_structure : value),
    stat json_path (disk w) = inl (File b) /\
    read_text Strict b = Some text /\
    json_loads text = inl new_structure /\
    unique_keys new_structure = true /\
    well_shaped new_structure = true /\
    update_files_from_json directory_path (Some new_structure) w
    = (inl tt, w').
Proof.
  unfold update_files_from_json_file, json_load, bind, open_read.
  destruct (stat json_path (disk w)) as [[b|es]|[]] eqn:Hb; try discriminate.
  destruct (read_text Strict b) as [text|] eqn:Htext; [|discriminate].
  destruct (json_loads text) as [new_structure|e] eqn:Hloads; [|discriminate].
  intros Hrun. exists b, text, new_structure.
  split; [reflexivity|]. split; [exact Htext|]. split; [exact Hloads|].
  split; [now apply (json_loads_unique_keys text)|].
  split; [|exact Hrun].
  cbn [update_files_from_json] in Hrun.
  destruct new_structure as [| | | |elements|items]; try discriminate.
  rewrite recurse_structure_calls in Hrun.
  apply (targets_strings_well_shaped items directory_path).
  now apply (update_all_ok_strings _ w w').
Qed.

(** * Witnesses and counterexamples *)

(** ** C1 *)

Lemma round_trip_witness :
  directory_to_dict literal_match (disk ex_world) [src] [] = inl ex_tree /\
  no_empty_dirs ex_tree = true /\
  encodable_keys ex_tree = true /\
  stat [tgt] (disk ex_world) = inl (Dir []) /\
  can_write [src; json_name] (disk ex_world) /\
  is_prefix [tgt] [src; json_name] = false /\
  exists w1 w2,
    save_structure_to_json ex_tree [src; json_name] ex_world = (inl tt, w1) /\
    update_files_from_json_file [tgt] [src; json_name] w1 = (inl tt, w2) /\
    directory_to_dict literal_match (disk w2) [tgt] [] = inl ex_tree.
Proof.
  assert (H1 : directory_to_dict literal_match (disk ex_world) [src] []
               = inl ex_tree) by (vm_compute; reflexivity).
  assert (H2 : no_empty_dirs ex_tree = true) by (vm_compute; reflexivity).
  assert (H3 : encodable_keys ex_tree = true) by (vm_compute; reflexivity).
  assert (H4 : stat [tgt] (disk ex_world) = inl (Dir []))
    by (vm_compute; reflexivity).
  assert (H5 : can_write [src; json_name] (disk ex_world)).
  { right. split; [vm_compute; reflexivity|].
    eexists. vm_compute. reflexivity. }
  assert (H6 : is_prefix [tgt] [src; json_name] = false)
    by (vm_compute; reflexivity).
  split; [exact H1|]. split; [exact H2|]. split; [exact H3|].
  split; [exact H4|]. split; [exact H5|]. split; [exact H6|].
  exact (round_trip literal_match ex_world [src] [tgt] [src; json_name]
                    ex_tree H1 H2 H3 H4 H5 H6).
Defined.

(** C1 as first stated fails: the round trip loses a directory without
    files.  The captured tree of the source has the key [d]; it is saved
    and loaded as it is, and the captured tree of the reconciled target
    has not that key. *)
Lemma round_trip_loses_empty_directory :
  directory_to_dict literal_match (disk ex_world_empty_dir) [src] []
  = inl ex_tree_empty_dir /\
  stat [tgt] (disk ex_world_empty_dir) = inl (Dir []) /\
  exists w1 w2,
    save_structure_to_json ex_tree_empty_dir [src; json_name]
                           ex_world_empty_dir = (inl tt, w1) /\
    json_load [src; json_name] w1 = (inl ex_tree_empty_dir, w1) /\
    update_files_from_json_file [tgt] [src; json_name] w1 = (inl tt, w2) /\
    directory_to_dict literal_match (disk w2) [tgt] []
    = inl (VDict [(lit "a.txt", VStr (lit "A"));
                  (lit "b.txt", VStr (lit "B"))]) /\
    directory_to_dict literal_match (disk w2) [tgt] []
    <> inl ex_tree_empty_dir.
Proof.
  split; [vm_compute; reflexivity|]. split; [vm_compute; reflexivity|].
  eexists. eexists. split; [vm_compute; reflexivity|].
  split; [vm_compute; reflexivity|]. split; [vm_compute; reflexivity|].
  split; [vm_compute; reflexivity|]. vm_compute. discriminate.
Defined.

(** ** C2 *)

Lemma reconcile_makes_directories_with_files_witness :
  valid_keys ex_tree = true /\
  update_files_from_json [tgt] (Some ex_tree) ex_world
  = (inl tt, snd (update_files_from_json [tgt] (Some ex_tree) ex_world)) /\
  In ([tgt; lit "docs"], VDict [(lit "b.txt", VStr (lit "hi"))])
     (sub_dicts ex_tree [tgt]) /\
  has_leaf (VDict [(lit "b.txt", VStr (lit "hi"))]) = true /\
  is_dir [tgt; lit "docs"]
         (disk (snd (update_files_from_json [tgt] (Some ex_tree) ex_world))).
Proof.
  assert (H1 : valid_keys ex_tree = true) by (vm_compute; reflexivity).
  assert (H2 : update_files_from_json [tgt] (Some ex_tree) ex_world
               = (inl tt,
                  snd (update_files_from_json [tgt] (Some ex_tree) ex_world)))
    by (vm_compute; reflexivity).
  assert (H3 : In ([tgt; lit "docs"], VDict [(lit "b.txt", VStr (lit "hi"))])
                  (sub_dicts ex_tree [tgt]))
    by (vm_compute; left; reflexivity).
  assert (H4 : has_leaf (VDict [(lit "b.txt", VStr (lit "hi"))]) = true)
    by (vm_compute; reflexivity).
  split; [exact H1|]. split; [exact H2|]. split; [exact H3|].
  split; [exact H4|].
  exact (proj1 (reconcile_makes_directories_with_files
                  [tgt] ex_tree ex_world _ _ _ H1 H2 H3 H4)).
Defined.

(** C2 as first stated fails: a mapping without children creates no
    directory. *)
Lemma reconcile_skips_empty_mapping :
  let doc := VDict [(lit "d", VDict [])] in
  exists w',
    update_files_from_json [tgt] (Some doc) ex_world = (inl tt, w') /\
    In ([tgt; lit "d"], VDict []) (sub_dicts doc [tgt]) /\
    stat [tgt; lit "d"] (disk w') = inr ENOENT /\
    ~ is_dir [tgt; lit "d"] (disk w').
Proof.
  eexists. split; [vm_compute; reflexivity|].
  split; [vm_compute; left; reflexivity|].
  split; [vm_compute; reflexivity|].
  intros [es H]. vm_compute in H. discriminate.
Defined.

(** ** C3 *)

Lemma reconcile_twice_witness :
  valid_keys ex_tree = true /\
  unique_keys ex_tree = true /\
  texts_without_cr ex_tree = true /\
  update_files_from_json [tgt] (Some ex_tree)
    (snd (update_files_from_json [tgt] (Some ex_tree) ex_world))
  = (inl tt, snd (update_files_from_json [tgt] (Some ex_tree) ex_world)).
Proof.
  assert (H1 : valid_keys ex_tree = true) by (vm_compute; reflexivity).
  assert (H2 : unique_keys ex_tree = true) by (vm_compute; reflexivity).
  assert (H3 : texts_without_cr ex_tree = true) by (vm_compute; reflexivity).
  assert (H4 : update_files_from_json [tgt] (Some ex_tree) ex_world
               = (inl tt,
                  snd (update_files_from_json [tgt] (Some ex_tree) ex_world)))
    by (vm_compute; reflexivity).
  split; [exact H1|]. split; [exact H2|]. split; [exact H3|].
  exact (proj2 (reconcile_twice [tgt] ex_tree ex_world _ H1 H2 H3 H4)).
Defined.

(** C3 as first stated fails: a string with a carriage return is written
    again on the second run.  The file is read back with a line feed in
    its place, so the texts differ; the disk stays as it was, but a file is
    opened for writing and a record is logged. *)
Lemma reconcile_twice_rewrites_carriage_return :
  let doc := VDict [(lit "f", VStr [97; CR; 98])] in
  valid_keys doc = true /\ unique_keys doc = true /\
  exists w1 w2,
    update_files_from_json [tgt] (Some doc) ex_world = (inl tt, w1) /\
    update_files_from_json [tgt] (Some doc) w1 = (inl tt, w2) /\
    disk w2 = disk w1 /\
    writes w2 = writes w1 ++ [[tgt; lit "f"]] /\
    log w2 = log w1 ++ [FileUpdated [tgt; lit "f"] 2 2] /\
    w2 <> w1.
Proof.
  split; [vm_compute; reflexivity|]. split; [vm_compute; reflexivity|].
  eexists. eexists. split; [vm_compute; reflexivity|].
  split; [vm_compute; reflexivity|].
  split; [vm_compute; reflexivity|]. split; [vm_compute; reflexivity|].
  split; [vm_compute; reflexivity|]. vm_compute. discriminate.
Defined.

(** ** C4 *)

Lemma reconcile_keeps_unnamed_entries_witness :
  valid_keys ex_tree = true /\
  stat [tgt; lit "extra.txt"] (disk ex_world_target)
  = inl (File (lit "keep")) /\
  is_prefix [tgt; lit "extra.txt"] [tgt] = false /\
  ~ In [tgt; lit "extra.txt"] (doc_paths ex_tree [tgt]) /\
  stat [tgt; lit "extra.txt"]
       (disk (snd (update_files_from_json [tgt] (Some ex_tree)
                     ex_world_target)))
  = inl (File (lit "keep")).
Proof.
  assert (H1 : valid_keys ex_tree = true) by (vm_compute; reflexivity).
  assert (H2 : stat [tgt; lit "extra.txt"] (disk ex_world_target)
               = inl (File (lit "keep"))) by (vm_compute; reflexivity).
  assert (H3 : is_prefix [tgt; lit "extra.txt"] [tgt] = false)
    by (vm_compute; reflexivity).
  assert (H4 : ~ In [tgt; lit "extra.txt"] (doc_paths ex_tree [tgt])).
  { vm_compute. intros [H|[H|[H|[]]]]; discriminate H. }
  split; [exact H1|]. split; [exact H2|]. split; [exact H3|].
  split; [exact H4|].
  exact (reconcile_keeps_unnamed_entries [tgt] ex_tree ex_world_target
           _ _ H1 H2 H3 H4).
Defined.

(** ** C5 *)

Lemma capture_drops_undecodable_bytes_witness :
  unique_names ex_disk_target = true /\
  stat [tgt] ex_disk_target
  = inl (Dir [(lit "extra.txt", File (lit "keep"));
              (lit "a", Dir []);
              (lit "bin", File [0x61; 0xFF; 0x62]);
              (lit "empty", File [])]) /\
  exists v,
    directory_to_dict literal_match ex_disk_target [tgt] [] = inl v /\
    exists s b',
      utf8_decode Ignore [0x61; 0xFF; 0x62] = Some s /\
      utf8_encode s = Some b' /\ subseq b' [0x61; 0xFF; 0x62] /\
      (forall s0, utf8_decode Strict [0x61; 0xFF; 0x62] = Some s0 -> s = s0) /\
      doc_get v [lit "bin"] = Some (VStr (translate_newlines s)).
Proof.
  assert (H1 : unique_names ex_disk_target = true)
    by (vm_compute; reflexivity).
  assert (H2 : stat [tgt] ex_disk_target
               = inl (Dir [(lit "extra.txt", File (lit "keep"));
                           (lit "a", Dir []);
                           (lit "bin", File [0x61; 0xFF; 0x62]);
                           (lit "empty", File [])]))
    by (vm_compute; reflexivity).
  split; [exact H1|]. split; [exact H2|].
  destruct (capture_drops_undecodable_bytes literal_match ex_disk_target
              [tgt] [] _ H1 H2) as (v & Hv & Hfiles).
  exists v. split; [exact Hv|].
  apply (Hfiles [lit "bin"] [0x61; 0xFF; 0x62]); vm_compute; reflexivity.
Defined.

(** C5 as first stated fails: the byte that does not decode is left out,
    not replaced.  The leaf is [ab], where the replacement policy would
    give [a], U+FFFD, [b]. *)
Lemma capture_does_not_replace :
  read_text Replace [0x61; 0xFF; 0x62] = Some [0x61; 0xFFFD; 0x62] /\
  exists v,
    directory_to_dict literal_match ex_disk_target [tgt] [] = inl v /\
    doc_get v [lit "bin"] = Some (VStr [0x61; 0x62]) /\
    doc_get v [lit "bin"] <> Some (VStr [0x61; 0xFFFD; 0x62]).
Proof.
  split; [vm_compute; reflexivity|].
  eexists. split; [vm_compute; reflexivity|].
  split; [vm_compute; reflexivity|]. vm_compute. discriminate.
Defined.

(** ** C6 *)

Lemma load_exclusions_lines_witness :
  let items := [(lit "docs", [CR; LF]); (lit "a", [0x0C]); (lit "b", [CR]);
                (lit "*.md", [LF])] in
  let tail := lit "tmp" in
  let b := lit "docs" ++ [CR; LF] ++ lit "a" ++ [0x0C] ++ lit "b" ++ [CR]
           ++ lit "*.md" ++ [LF] ++ lit "tmp" in
  let w := mkWorld (Dir [(exclude_name, File b)]) [] [] in
  stat [exclude_name] (disk w) = inl (File b) /\
  ended_lines items tail = true /\
  utf8_encode (text_of_ended items tail) = Some b /\
  load_exclusions [exclude_name] w
  = (inl [lit "docs"; lit "a"; lit "b"; lit "*.md"; lit "tmp"], w).
Proof.
  cbv zeta.
  set (items := [(lit "docs", [CR; LF]); (lit "a", [0x0C]); (lit "b", [CR]);
                 (lit "*.md", [LF])]).
  set (b := lit "docs" ++ [CR; LF] ++ lit "a" ++ [0x0C] ++ lit "b" ++ [CR]
            ++ lit "*.md" ++ [LF] ++ lit "tmp").
  set (w := mkWorld (Dir [(exclude_name, File b)]) [] []).
  assert (H1 : stat [exclude_name] (disk w) = inl (File b))
    by (vm_compute; reflexivity).
  assert (H2 : ended_lines items (lit "tmp") = true)
    by (vm_compute; reflexivity).
  assert (H3 : utf8_encode (text_of_ended items (lit "tmp")) = Some b)
    by (vm_compute; reflexivity).
  split; [exact H1|]. split; [exact H2|]. split; [exact H3|].
  exact (proj2 (proj2 (proj2 (load_exclusions_lines [exclude_name] w)))
               b items (lit "tmp") H1 H2 H3).
Defined.

(** C6 as first stated fails.  A file that is the one line [a], form feed,
    [b], ended by a line feed, gives the two patterns [a] and [b], not the
    line; and a path that exists as a directory makes [load_exclusions]
    raise. *)
Lemma load_exclusions_splits_at_form_feed :
  let w := mkWorld (Dir [(exclude_name, File [97; 0x0C; 98; LF]);
                         (src, Dir [])]) [] [] in
  utf8_encode (text_of_lines [[97; 0x0C; 98]]) = Some [97; 0x0C; 98; LF] /\
  load_exclusions [exclude_name] w = (inl [[97]; [98]], w) /\
  load_exclusions [exclude_name] w <> (inl [[97; 0x0C; 98]], w) /\
  load_exclusions [src] w = (inr IsADirectoryError, w).
Proof.
  cbv zeta. split; [vm_compute; reflexivity|].
  split; [vm_compute; reflexivity|].
  split; [vm_compute; discriminate|]. vm_compute. reflexivity.
Defined.

(** ** C7 *)

Lemma markdown_is_flat_document_witness :
  unique_names ex_disk = true /\
  directory_to_dict literal_match ex_disk [src] [] = inl ex_tree /\
  no_empty_dirs ex_tree = true /\
  directory_to_markdown literal_match ex_disk [src] []
  = inl (to_flat_document ex_tree [src]) /\
  to_flat_document ex_tree [src]
  = lit "### /src/a.py" ++ [LF] ++ lit "```python" ++ [LF]
    ++ lit "x = 1" ++ [LF; LF] ++ lit "```" ++ [LF]
    ++ [LF]
    ++ lit "### /src/docs/b.txt" ++ [LF] ++ lit "```" ++ [LF]
    ++ lit "hi" ++ [LF] ++ lit "```" ++ [LF].
Proof.
  assert (H1 : unique_names ex_disk = true) by (vm_compute; reflexivity).
  assert (H2 : directory_to_dict literal_match ex_disk [src] [] = inl ex_tree)
    by (vm_compute; reflexivity).
  assert (H3 : no_empty_dirs ex_tree = true) by (vm_compute; reflexivity).
  split; [exact H1|]. split; [exact H2|]. split; [exact H3|]. split.
  - exact (markdown_is_flat_document literal_match ex_disk [src] [] ex_tree
             H1 H2 H3).
  - vm_compute. reflexivity.
Defined.

(** C7 as first stated fails: an empty directory between two files adds
    an empty line, and the two sections are two empty lines apart. *)
Lemma markdown_empty_directory_adds_line :
  unique_names ex_disk_empty_dir = true /\
  directory_to_dict literal_match ex_disk_empty_dir [src] []
  = inl ex_tree_empty_dir /\
  to_flat_document ex_tree_empty_dir [src]
  = lit "### /src/a.txt" ++ [LF] ++ lit "```" ++ [LF]
    ++ lit "A" ++ [LF] ++ lit "```" ++ [LF]
    ++ [LF]
    ++ lit "### /src/b.txt" ++ [LF] ++ lit "```" ++ [LF]
    ++ lit "B" ++ [LF] ++ lit "```" ++ [LF] /\
  directory_to_markdown literal_match ex_disk_empty_dir [src] []
  = inl (lit "### /src/a.txt" ++ [LF] ++ lit "```" ++ [LF]
         ++ lit "A" ++ [LF] ++ lit "```" ++ [LF]
         ++ [LF; LF]
         ++ lit "### /src/b.txt" ++ [LF] ++ lit "```" ++ [LF]
         ++ lit "B" ++ [LF] ++ lit "```" ++ [LF]) /\
  directory_to_markdown literal_match ex_disk_empty_dir [src] []
  <> inl (to_flat_document ex_tree_empty_dir [src]).
Proof.
  split; [vm_compute; reflexivity|]. split; [vm_compute; reflexivity|].
  split; [vm_compute; reflexivity|]. split; [vm_compute; reflexivity|].
  vm_compute. discriminate.
Defined.

(** ** C8 *)



(** ** C9 *)

Lemma reconcile_fails_on_undecodable_file_witness :
  let doc := VDict [(lit "bin", VStr (lit "x"))] in
  valid_keys doc = true /\
  unique_keys doc = true /\
  In ([tgt; lit "bin"], VStr (lit "x")) (targets doc [tgt]) /\
  stat [tgt; lit "bin"] (disk ex_world_target)
  = inl (File [0x61; 0xFF; 0x62]) /\
  utf8_decode Strict [0x61; 0xFF; 0x62] = None /\
  update_or_create_file [tgt; lit "bin"] (VStr (lit "x")) ex_world_target
  = (inr UnicodeDecodeError, ex_world_target).
Proof.
  assert (H1 : valid_keys (VDict [(lit "bin", VStr (lit "x"))]) = true)
    by (vm_compute; reflexivity).
  assert (H2 : unique_keys (VDict [(lit "bin", VStr (lit "x"))]) = true)
    by (vm_compute; reflexivity).
  assert (H3 : In ([tgt; lit "bin"], VStr (lit "x"))
                  (targets (VDict [(lit "bin", VStr (lit "x"))]) [tgt]))
    by (vm_compute; left; reflexivity).
  assert (H4 : stat [tgt; lit "bin"] (disk ex_world_target)
               = inl (File [0x61; 0xFF; 0x62])) by (vm_compute; reflexivity).
  assert (H5 : utf8_decode Strict [0x61; 0xFF; 0x62] = None)
    by (vm_compute; reflexivity).
  split; [exact H1|]. split; [exact H2|]. split; [exact H3|].
  split; [exact H4|]. split; [exact H5|].
  exact (proj1 (reconcile_fails_on_undecodable_file
                  literal_match [tgt] _ ex_world_target _ _ _
                  H1 H2 H3 H4 H5)).
Defined.

(** ** C10 *)

Lemma update_counts_ignore_final_newline_witness :
  lit "keep" <> [] /\
  is_linebreak (last (lit "keep") 0) = false /\
  no_cr (lit "keep") = true /\
  utf8_encode (lit "keep") = Some (lit "keep") /\
  stat [tgt; lit "extra.txt"] (disk ex_world_target)
  = inl (File (lit "keep")) /\
  exists d,
    put [tgt; lit "extra.txt"] (File (lit "keep" ++ [LF]))
        (disk ex_world_target) = Some d /\
    update_or_create_file [tgt; lit "extra.txt"]
                          (VStr (lit "keep" ++ [LF])) ex_world_target
    = (inl tt,
       mkWorld d [[tgt; lit "extra.txt"]]
               [FileUpdated [tgt; lit "extra.txt"] 1 1]).
Proof.
  assert (H1 : lit "keep" <> []) by (vm_compute; discriminate).
  assert (H2 : is_linebreak (last (lit "keep") 0) = false)
    by (vm_compute; reflexivity).
  assert (H3 : no_cr (lit "keep") = true) by (vm_compute; reflexivity).
  assert (H4 : utf8_encode (lit "keep") = Some (lit "keep"))
    by (vm_compute; reflexivity).
  assert (H5 : stat [tgt; lit "extra.txt"] (disk ex_world_target)
               = inl (File (lit "keep"))) by (vm_compute; reflexivity).
  split; [exact H1|]. split; [exact H2|]. split; [exact H3|].
  split; [exact H4|]. split; [exact H5|].
  exact (proj1 (update_counts_ignore_final_newline
                  [tgt; lit "extra.txt"] (lit "keep") (lit "keep")
                  ex_world_target H1 H2 H3 H4) H5).
Defined.

(** C10 as first stated fails: two texts that differ only in a final line
    feed can have different counts.  The empty text has no line and a lone
    line feed has one; a text that ends in a line feed has one line less
    than with a second one. *)
Lemma update_counts_differ_for_final_newline :
  (exists d,
      update_or_create_file [tgt; lit "empty"] (VStr [LF]) ex_world_target
      = (inl tt,
         mkWorld d [[tgt; lit "empty"]]
                 [FileUpdated [tgt; lit "empty"] 0 1])) /\
  length (splitlines (lit "a" ++ [LF])) = 1%nat /\
  length (splitlines (lit "a" ++ [LF; LF])) = 2%nat.
Proof.
  split; [eexists; vm_compute; reflexivity|].
  split; vm_compute; reflexivity.
Defined.

(** ** X1 *)

Lemma load_exclusions_any_line_ending_witness :
  let b := lit "docs" ++ [CR; LF] ++ lit "tmp" ++ [CR; LF] in
  let lines := [lit "docs"; lit "tmp"] in
  stat [exclude_name] (disk ex_world_exclude) = inl (File b) /\
  forallb no_linebreak lines = true /\
  utf8_encode (str_join [CR; LF] lines ++ [CR; LF]) = Some b /\
  load_exclusions [exclude_name] ex_world_exclude
  = (inl lines, ex_world_exclude).
Proof.
  cbv zeta.
  assert (H1 : stat [exclude_name] (disk ex_world_exclude)
               = inl (File (lit "docs" ++ [CR; LF] ++ lit "tmp" ++ [CR; LF])))
    by (vm_compute; reflexivity).
  assert (H2 : forallb no_linebreak [lit "docs"; lit "tmp"] = true)
    by (vm_compute; reflexivity).
  assert (H3 : [CR; LF] = [LF] \/ [CR; LF] = [CR; LF] \/ [CR; LF] = [CR])
    by (right; left; reflexivity).
  assert (H4 : ([CR; LF] = [] /\ last [lit "docs"; lit "tmp"] [] <> []) \/
               ([CR; LF] = [CR; LF] /\ [lit "docs"; lit "tmp"] <> []))
    by (right; split; [reflexivity|discriminate]).
  assert (H5 : utf8_encode (str_join [CR; LF] [lit "docs"; lit "tmp"]
                            ++ [CR; LF])
               = Some (lit "docs" ++ [CR; LF] ++ lit "tmp" ++ [CR; LF]))
    by (vm_compute; reflexivity).
  split; [exact H1|]. split; [exact H2|]. split; [exact H5|].
  exact (load_exclusions_any_line_ending
           [exclude_name] ex_world_exclude _ _ [CR; LF] [CR; LF]
           H1 H2 H3 H4 H5).
Defined.

(** ** X3 *)

Lemma captured_keys_are_the_entries_not_excluded_witness :
  unique_names ex_disk_exclude = true /\
  directory_to_dict literal_match ex_disk_exclude [src] [lit "docs"]
  = inl (VDict [(lit "a.py", VStr (lit "x = 1" ++ [LF]))]) /\
  (is_file [src; lit "a.py"] ex_disk_exclude /\
   excluded literal_match [lit "docs"] [lit "a.py"] = false) /\
  (excluded literal_match [lit "docs"] [lit "docs"; lit "b.txt"] = true \/
   exists e, stat [src; lit "docs"; lit "b.txt"] ex_disk_exclude = inr e).
Proof.
  assert (H1 : unique_names ex_disk_exclude = true)
    by (vm_compute; reflexivity).
  assert (H2 : directory_to_dict literal_match ex_disk_exclude [src]
                                 [lit "docs"]
               = inl (VDict [(lit "a.py", VStr (lit "x = 1" ++ [LF]))]))
    by (vm_compute; reflexivity).
  split; [exact H1|]. split; [exact H2|]. split.
  - exact (captured_keys_are_the_entries_not_excluded
             literal_match ex_disk_exclude [src] [lit "docs"] _ H1 H2
             [lit "a.py"]).
  - exact (captured_keys_are_the_entries_not_excluded
             literal_match ex_disk_exclude [src] [lit "docs"] _ H1 H2
             [lit "docs"; lit "b.txt"]).
Defined.

(** ** X4 *)

Lemma captured_document_shape_witness :
  directory_to_dict literal_match ex_disk_target [tgt] []
  = inl (VDict [(lit "extra.txt", VStr (lit "keep"));
                (lit "a", VDict []);
                (lit "bin", VStr (lit "ab"));
                (lit "empty", VStr [])]) /\
  well_shaped (VDict [(lit "extra.txt", VStr (lit "keep"));
                      (lit "a", VDict []);
                      (lit "bin", VStr (lit "ab"));
                      (lit "empty", VStr [])]) = true.
Proof.
  assert (H1 : directory_to_dict literal_match ex_disk_target [tgt] []
               = inl (VDict [(lit "extra.txt", VStr (lit "keep"));
                             (lit "a", VDict []);
                             (lit "bin", VStr (lit "ab"));
                             (lit "empty", VStr [])]))
    by (vm_compute; reflexivity).
  split; [exact H1|].
  exact (proj1 (captured_document_shape literal_match ex_disk_target [tgt] []
                                        _ H1)).
Defined.

(** ** X5 *)

Lemma markdown_of_captured_tree_witness :
  unique_names ex_disk = true /\
  directory_to_dict literal_match ex_disk [src] [] = inl ex_tree /\
  directory_to_markdown literal_match ex_disk [src] []
  = inl (markdown_of ex_tree [src]).
Proof.
  assert (H1 : unique_names ex_disk = true) by (vm_compute; reflexivity).
  assert (H2 : directory_to_dict literal_match ex_disk [src] [] = inl ex_tree)
    by (vm_compute; reflexivity).
  split; [exact H1|]. split; [exact H2|].
  exact (markdown_of_captured_tree literal_match ex_disk [src] [] ex_tree
                                   H1 H2).
Defined.

(** ** X6 *)

Lemma python_fence_for_py_suffix_witness :
  existsb (fun c => negb (c =? DOT)) (lit "a") = true /\
  file_section [src; lit "a.py"] (lit "x = 1")
  = python_section [src; lit "a.py"] (lit "x = 1").
Proof.
  assert (H1 : existsb (fun c => negb (c =? DOT)) (lit "a") = true)
    by (vm_compute; reflexivity).
  split; [exact H1|].
  exact (proj1 python_fence_for_py_suffix [src] (lit "a") (lit "x = 1") H1).
Defined.

(** ** X7 *)

Lemma json_loads_dumps_witness :
  serializable ex_tree = true /\
  json_loads (json_dumps ex_tree) = inl ex_tree.
Proof.
  assert (H1 : serializable ex_tree = true) by (vm_compute; reflexivity).
  split; [exact H1|]. exact (json_loads_dumps ex_tree H1).
Defined.

(** ** X8 *)

Lemma saved_structure_loads_back_witness :
  restorable ex_tree = true /\
  encodable_keys ex_tree = true /\
  can_write [tgt; json_name] (disk ex_world) /\
  exists b d,
    utf8_encode (json_dumps ex_tree) = Some b /\
    put [tgt; json_name] (File b) (disk ex_world) = Some d /\
    save_structure_to_json ex_tree [tgt; json_name] ex_world
    = (inl tt, mkWorld d (writes ex_world ++ [[tgt; json_name]])
                       (log ex_world)) /\
    json_load [tgt; json_name]
              (mkWorld d (writes ex_world ++ [[tgt; json_name]])
                       (log ex_world))
    = (inl ex_tree,
       mkWorld d (writes ex_world ++ [[tgt; json_name]]) (log ex_world)).
Proof.
  assert (H1 : restorable ex_tree = true) by (vm_compute; reflexivity).
  assert (H2 : encodable_keys ex_tree = true) by (vm_compute; reflexivity).
  assert (H3 : can_write [tgt; json_name] (disk ex_world)).
  { right. split; [vm_compute; reflexivity|].
    exists []. vm_compute. reflexivity. }
  split; [exact H1|]. split; [exact H2|]. split; [exact H3|].
  exact (saved_structure_loads_back ex_tree [tgt; json_name] ex_world
                                    H1 H2 H3).
Defined.

(** ** X9 *)

Lemma save_stops_at_the_first_unencodable_chunk_witness :
  let before := firstn 6 (iterencode ex_tree_surrogate 0) in
  let after := skipn 7 (iterencode ex_tree_surrogate 0) in
  let chunk := [QUOTE; 0xDC80; QUOTE] in
  let b := lit "{" ++ newline_indent 1 ++ encode_basestring (lit "a")
           ++ lit ": " ++ encode_basestring (lit "x") ++ lit ","
           ++ newline_indent 1 in
  iterencode ex_tree_surrogate 0 = before ++ chunk :: after /\
  utf8_encode (concat before) = Some b /\
  utf8_encode chunk = None /\
  can_write [tgt; json_name] (disk ex_world) /\
  exists d,
    put [tgt; json_name] (File b) (disk ex_world) = Some d /\
    save_structure_to_json ex_tree_surrogate [tgt; json_name] ex_world
    = (inr UnicodeEncodeError,
       mkWorld d (writes ex_world ++ [[tgt; json_name]]) (log ex_world)).
Proof.
  cbv zeta.
  assert (H1 : iterencode ex_tree_surrogate 0
               = firstn 6 (iterencode ex_tree_surrogate 0)
                 ++ [QUOTE; 0xDC80; QUOTE]
                 :: skipn 7 (iterencode ex_tree_surrogate 0))
    by (vm_compute; reflexivity).
  assert (H2 : utf8_encode
                 (concat (firstn 6 (iterencode ex_tree_surrogate 0)))
               = Some (lit "{" ++ newline_indent 1
                       ++ encode_basestring (lit "a") ++ lit ": "
                       ++ encode_basestring (lit "x") ++ lit ","
                       ++ newline_indent 1))
    by (vm_compute; reflexivity).
  assert (H3 : utf8_encode [QUOTE; 0xDC80; QUOTE] = None)
    by (vm_compute; reflexivity).
  assert (H4 : can_write [tgt; json_name] (disk ex_world)).
  { right. split; [vm_compute; reflexivity|].
    exists []. vm_compute. reflexivity. }
  split; [exact H1|]. split; [exact H2|]. split; [exact H3|].
  split; [exact H4|].
  exact (save_stops_at_the_first_unencodable_chunk
           ex_tree_surrogate [tgt; json_name] ex_world _ _ _ _ H1 H2 H3 H4).
Defined.

(** ** X10 *)

Lemma unreadable_document_changes_nothing_witness :
  (stat [tgt; lit "empty"] (disk ex_world_target) = inl (File []) /\
   read_text Strict [] = Some [] /\
   forallb is_ws [] = true /\
   update_files_from_json_file [tgt] [tgt; lit "empty"] ex_world_target
   = (inr JSONDecodeError, ex_world_target)) /\
  (stat [lit "doc.json"] (disk ex_world_long_integer)
   = inl (File ex_long_integer) /\
   read_text Strict ex_long_integer = Some ex_long_integer /\
   MAX_STR_DIGITS < Z.of_nat (length ex_long_integer) /\
   update_files_from_json_file [tgt] [lit "doc.json"] ex_world_long_integer
   = (inr ValueError, ex_world_long_integer)).
Proof.
  assert (H1 : stat [tgt; lit "empty"] (disk ex_world_target)
               = inl (File [])) by (vm_compute; reflexivity).
  assert (H2 : read_text Strict [] = Some []) by (vm_compute; reflexivity).
  assert (H3 : forallb is_ws [] = true) by reflexivity.
  assert (H4 : stat [lit "doc.json"] (disk ex_world_long_integer)
               = inl (File ex_long_integer)) by (vm_compute; reflexivity).
  assert (H5 : read_text Strict ex_long_integer = Some ex_long_integer)
    by (vm_compute; reflexivity).
  assert (H6 : 49 <= 55 <= 57) by lia.
  assert (H7 : forallb is_digit (repeat 55 (Z.to_nat 4300)) = true)
    by (vm_compute; reflexivity).
  assert (H8 : MAX_STR_DIGITS < Z.of_nat (length ex_long_integer))
    by (vm_compute; reflexivity).
  split.
  - split; [exact H1|]. split; [exact H2|]. split; [exact H3|].
    exact (proj1 (proj2 (proj2 (proj2
             (unreadable_document_changes_nothing
                [tgt] [tgt; lit "empty"] ex_world_target))))
             _ _ H1 H2 H3).
  - split; [exact H4|]. split; [exact H5|]. split; [exact H8|].
    exact (proj2 (proj2 (proj2 (proj2
             (unreadable_document_changes_nothing
                [tgt] [lit "doc.json"] ex_world_long_integer))))
             _ 55 (repeat 55 (Z.to_nat 4300)) H4 H5 H6 H7 H8).
Defined.

(** ** X11 *)

Lemma reconciled_files_read_as_the_document_witness :
  valid_keys ex_tree = true /\
  unique_keys ex_tree = true /\
  update_files_from_json [tgt] (Some ex_tree) ex_world
  = (inl tt, snd (update_files_from_json [tgt] (Some ex_tree) ex_world)) /\
  In ([tgt; lit "a.py"], VStr (lit "x = 1" ++ [LF])) (targets ex_tree [tgt]) /\
  exists s b,
    VStr (lit "x = 1" ++ [LF]) = VStr s /\
    stat [tgt; lit "a.py"]
         (disk (snd (update_files_from_json [tgt] (Some ex_tree) ex_world)))
    = inl (File b) /\
    read_text Strict b = Some (translate_newlines s).
Proof.
  assert (H1 : valid_keys ex_tree = true) by (vm_compute; reflexivity).
  assert (H2 : unique_keys ex_tree = true) by (vm_compute; reflexivity).
  assert (H3 : update_files_from_json [tgt] (Some ex_tree) ex_world
               = (inl tt,
                  snd (update_files_from_json [tgt] (Some ex_tree) ex_world)))
    by (vm_compute; reflexivity).
  assert (H4 : In ([tgt; lit "a.py"], VStr (lit "x = 1" ++ [LF]))
                  (targets ex_tree [tgt])) by (left; reflexivity).
  split; [exact H1|]. split; [exact H2|]. split; [exact H3|].
  split; [exact H4|].
  exact (reconciled_files_read_as_the_document
           [tgt] ex_tree ex_world _ H1 H2 H3 _ _ H4).
Defined.

(** ** X12 *)

Lemma unwritable_content_empties_the_file_witness :
  stat [tgt; lit "extra.txt"] (disk ex_world_target)
  = inl (File (lit "keep")) /\
  read_text Strict (lit "keep") = Some (lit "keep") /\
  writable (VStr [0xDC80]) = false /\
  exists d,
    put [tgt; lit "extra.txt"] (File []) (disk ex_world_target) = Some d /\
    stat [tgt; lit "extra.txt"] d = inl (File []) /\
    update_or_create_file [tgt; lit "extra.txt"] (VStr [0xDC80])
                          ex_world_target
    = (inr UnicodeEncodeError,
       mkWorld d (writes ex_world_target ++ [[tgt; lit "extra.txt"]])
               (log ex_world_target)).
Proof.
  assert (H1 : stat [tgt; lit "extra.txt"] (disk ex_world_target)
               = inl (File (lit "keep"))) by (vm_compute; reflexivity).
  assert (H2 : read_text Strict (lit "keep") = Some (lit "keep"))
    by (vm_compute; reflexivity).
  assert (H3 : writable (VStr [0xDC80]) = false) by (vm_compute; reflexivity).
  split; [exact H1|]. split; [exact H2|]. split; [exact H3|].
  exact (unwritable_content_empties_the_file
           [tgt; lit "extra.txt"] (VStr [0xDC80]) (lit "keep") (lit "keep")
           ex_world_target H1 H2 H3).
Defined.

(** ** X13 *)

Lemma blocked_path_raises_and_changes_nothing_witness :
  (exists es, stat [tgt; lit "a"] (disk ex_world_target) = inl (Dir es)) /\
  update_or_create_file [tgt; lit "a"] (VStr (lit "hi")) ex_world_target
  = (inr IsADirectoryError, ex_world_target) /\
  stat [tgt; lit "extra.txt"] (disk ex_world_target)
  = inl (File (lit "keep")) /\
  is_prefix [tgt; lit "extra.txt"] [tgt; lit "extra.txt"; lit "f"] = true /\
  update_or_create_file [tgt; lit "extra.txt"; lit "f"] (VStr (lit "hi"))
                        ex_world_target
  = (inr NotADirectoryError, ex_world_target).
Proof.
  assert (H1 : exists es,
             stat [tgt; lit "a"] (disk ex_world_target) = inl (Dir es))
    by (exists []; vm_compute; reflexivity).
  assert (H2 : stat [tgt; lit "extra.txt"] (disk ex_world_target)
               = inl (File (lit "keep"))) by (vm_compute; reflexivity).
  assert (H3 : is_prefix [tgt; lit "extra.txt"]
                         [tgt; lit "extra.txt"; lit "f"] = true)
    by (vm_compute; reflexivity).
  assert (H4 : [tgt; lit "extra.txt"] <> [tgt; lit "extra.txt"; lit "f"])
    by (vm_compute; discriminate).
  split; [exact H1|]. split.
  - exact (proj1 (blocked_path_raises_and_changes_nothing
                    [tgt; lit "a"] (VStr (lit "hi")) ex_world_target) H1).
  - split; [exact H2|]. split; [exact H3|].
    exact (proj2 (blocked_path_raises_and_changes_nothing
                    [tgt; lit "extra.txt"; lit "f"] (VStr (lit "hi"))
                    ex_world_target) _ _ H2 H3 H4).
Defined.

(** ** X14 *)

Lemma missing_parents_are_made_witness :
  stat [tgt] (disk ex_world) = inl (Dir []) /\
  find_entry (lit "a") [] = None /\
  utf8_encode (lit "hi") = Some (lit "hi") /\
  exists d,
    put [tgt; lit "a"] (wrap [lit "b"; lit "f.txt"] (File (lit "hi")))
        (disk ex_world) = Some d /\
    update_or_create_file [tgt; lit "a"; lit "b"; lit "f.txt"]
                          (VStr (lit "hi")) ex_world
    = (inl tt,
       mkWorld d
               (writes ex_world ++ [[tgt; lit "a"; lit "b"; lit "f.txt"]])
               (log ex_world
                ++ [DirCreated [tgt; lit "a"; lit "b"];
                    FileCreated [tgt; lit "a"; lit "b"; lit "f.txt"]])).
Proof.
  assert (H1 : stat [tgt] (disk ex_world) = inl (Dir []))
    by (vm_compute; reflexivity).
  assert (H2 : find_entry (lit "a") [] = None) by reflexivity.
  assert (H3 : utf8_encode (lit "hi") = Some (lit "hi"))
    by (vm_compute; reflexivity).
  split; [exact H1|]. split; [exact H2|]. split; [exact H3|].
  exact (missing_parents_are_made [tgt] [] (lit "a") [lit "b"] (lit "f.txt")
                                  (lit "hi") (lit "hi") ex_world H1 H2 H3).
Defined.

(** ** X16 *)

Lemma reconcile_deletes_nothing_witness :
  is_file [tgt; lit "extra.txt"] (disk ex_world_target) /\
  is_file [tgt; lit "extra.txt"]
          (disk (snd (update_files_from_json
                        [tgt] (Some (VDict [(lit "a", VStr (lit "hi"))]))
                        ex_world_target))).
Proof.
  assert (H1 : is_file [tgt; lit "extra.txt"] (disk ex_world_target))
    by (exists (lit "keep"); vm_compute; reflexivity).
  split; [exact H1|].
  exact (proj1 (reconcile_deletes_nothing
                  [tgt] (VDict [(lit "a", VStr (lit "hi"))]) ex_world_target
                  [tgt; lit "extra.txt"]) H1).
Defined.

(** ** X17 *)

Lemma log_reports_every_write_witness :
  update_files_from_json [tgt] (Some ex_tree) ex_world
  = (inl tt, snd (update_files_from_json [tgt] (Some ex_tree) ex_world)) /\
  exists opened logged,
    writes (snd (update_files_from_json [tgt] (Some ex_tree) ex_world))
    = writes ex_world ++ opened /\
    log (snd (update_files_from_json [tgt] (Some ex_tree) ex_world))
    = log ex_world ++ logged /\
    flat_map written logged = opened.
Proof.
  assert (H1 : update_files_from_json [tgt] (Some ex_tree) ex_world
               = (inl tt,
                  snd (update_files_from_json [tgt] (Some ex_tree) ex_world)))
    by (vm_compute; reflexivity).
  split; [exact H1|].
  exact (log_reports_every_write [tgt] ex_tree ex_world _ H1).
Defined.

(** ** X18 *)

Lemma reconcile_with_own_document_is_a_no_op_witness :
  unique_names (disk ex_world) = true /\
  directory_to_dict literal_match (disk ex_world) [src] [lit "docs"]
  = inl (VDict [(lit "a.py", VStr (lit "x = 1" ++ [LF]))]) /\
  stat [src] (disk ex_world)
  = inl (Dir [(lit "a.py", File (lit "x = 1" ++ [LF]));
              (lit "docs", Dir [(lit "b.txt", File (lit "hi"))])]) /\
  decodable (fun n => should_exclude literal_match n [lit "docs"])
            (Dir [(lit "a.py", File (lit "x = 1" ++ [LF]));
                  (lit "docs", Dir [(lit "b.txt", File (lit "hi"))])])
  = true /\
  update_files_from_json
    [src] (Some (VDict [(lit "a.py", VStr (lit "x = 1" ++ [LF]))])) ex_world
  = (inl tt, ex_world).
Proof.
  assert (H1 : unique_names (disk ex_world) = true)
    by (vm_compute; reflexivity).
  assert (H2 : directory_to_dict literal_match (disk ex_world) [src]
                                 [lit "docs"]
               = inl (VDict [(lit "a.py", VStr (lit "x = 1" ++ [LF]))]))
    by (vm_compute; reflexivity).
  assert (H3 : stat [src] (disk ex_world)
               = inl (Dir [(lit "a.py", File (lit "x = 1" ++ [LF]));
                           (lit "docs", Dir [(lit "b.txt", File (lit "hi"))])]))
    by (vm_compute; reflexivity).
  assert (H4 : decodable
                 (fun n => should_exclude literal_match n [lit "docs"])
                 (Dir [(lit "a.py", File (lit "x = 1" ++ [LF]));
                       (lit "docs", Dir [(lit "b.txt", File (lit "hi"))])])
               = true) by (vm_compute; reflexivity).
  split; [exact H1|]. split; [exact H2|]. split; [exact H3|].
  split; [exact H4|].
  exact (reconcile_with_own_document_is_a_no_op
           literal_match ex_world [src] [lit "docs"] _ _ H1 H2 H3 H4).
Defined.

(** ** X19 *)

Lemma main_saves_the_captured_document_witness :
  args_update ex_args = None /\
  args_markdown ex_args = false /\
  load_exclusions (args_exclude ex_args) ex_world_exclude
  = (inl [lit "docs"; lit "tmp"], ex_world_exclude) /\
  directory_to_dict literal_match (disk ex_world_exclude)
                    (args_directory_path ex_args) [lit "docs"; lit "tmp"]
  = inl (VDict [(lit "a.py", VStr (lit "x = 1" ++ [LF]))]) /\
  encodable_keys (VDict [(lit "a.py", VStr (lit "x = 1" ++ [LF]))]) = true /\
  (forall es, stat [src; json_name] (disk ex_world_exclude) <> inl (Dir es)) /\
  exists b d,
    utf8_encode (json_dumps (VDict [(lit "a.py", VStr (lit "x = 1" ++ [LF]))]))
    = Some b /\
    put [src; json_name] (File b) (disk ex_world_exclude) = Some d /\
    main literal_match ex_args ex_world_exclude
    = (inl [StructureSaved [src; json_name]],
       mkWorld d [[src; json_name]] []) /\
    json_load [src; json_name] (mkWorld d [[src; json_name]] [])
    = (inl (VDict [(lit "a.py", VStr (lit "x = 1" ++ [LF]))]),
       mkWorld d [[src; json_name]] []).
Proof.
  assert (H1 : args_update ex_args = None) by reflexivity.
  assert (H2 : args_markdown ex_args = false) by reflexivity.
  assert (H3 : load_exclusions (args_exclude ex_args) ex_world_exclude
               = (inl [lit "docs"; lit "tmp"], ex_world_exclude))
    by (vm_compute; reflexivity).
  assert (H4 : directory_to_dict literal_match (disk ex_world_exclude)
                                 (args_directory_path ex_args)
                                 [lit "docs"; lit "tmp"]
               = inl (VDict [(lit "a.py", VStr (lit "x = 1" ++ [LF]))]))
    by (vm_compute; reflexivity).
  assert (H5 : encodable_keys
                 (VDict [(lit "a.py", VStr (lit "x = 1" ++ [LF]))]) = true)
    by (vm_compute; reflexivity).
  assert (H6 : forall es,
             stat [src; json_name] (disk ex_world_exclude) <> inl (Dir es))
    by (intros es; vm_compute; discriminate).
  split; [exact H1|]. split; [exact H2|]. split; [exact H3|].
  split; [exact H4|]. split; [exact H5|]. split; [exact H6|].
  exact (main_saves_the_captured_document
           literal_match ex_args ex_world_exclude _ _ H1 H2 H3 H4 H5 H6).
Defined.

(** ** X20 *)

Lemma main_saves_the_markdown_witness :
  let text := file_section [src; lit "a.py"] (lit "x = 1" ++ [LF]) in
  args_update ex_args_markdown = None /\
  args_markdown ex_args_markdown = true /\
  load_exclusions (args_exclude ex_args_markdown) ex_world_exclude
  = (inl [lit "docs"; lit "tmp"], ex_world_exclude) /\
  directory_to_markdown literal_match (disk ex_world_exclude)
                        (args_directory_path ex_args_markdown)
                        [lit "docs"; lit "tmp"]
  = inl text /\
  utf8_encode text = Some text /\
  (forall es,
      stat [src; markdown_name] (disk ex_world_exclude) <> inl (Dir es)) /\
  exists d,
    put [src; markdown_name] (File text) (disk ex_world_exclude) = Some d /\
    main literal_match ex_args_markdown ex_world_exclude
    = (inl [MarkdownSaved [src; markdown_name]],
       mkWorld d [[src; markdown_name]] []).
Proof.
  cbv zeta.
  assert (H1 : args_update ex_args_markdown = None) by reflexivity.
  assert (H2 : args_markdown ex_args_markdown = true) by reflexivity.
  assert (H3 : load_exclusions (args_exclude ex_args_markdown)
                               ex_world_exclude
               = (inl [lit "docs"; lit "tmp"], ex_world_exclude))
    by (vm_compute; reflexivity).
  assert (H4 : directory_to_markdown literal_match (disk ex_world_exclude)
                                     (args_directory_path ex_args_markdown)
                                     [lit "docs"; lit "tmp"]
               = inl (file_section [src; lit "a.py"] (lit "x = 1" ++ [LF])))
    by (vm_compute; reflexivity).
  assert (H5 : utf8_encode (file_section [src; lit "a.py"]
                                         (lit "x = 1" ++ [LF]))
               = Some (file_section [src; lit "a.py"] (lit "x = 1" ++ [LF])))
    by (vm_compute; reflexivity).
  assert (H6 : forall es,
             stat [src; markdown_name] (disk ex_world_exclude)
             <> inl (Dir es))
    by (intros es; vm_compute; discriminate).
  split; [exact H1|]. split; [exact H2|]. split; [exact H3|].
  split; [exact H4|]. split; [exact H5|]. split; [exact H6|].
  exact (main_saves_the_markdown
           literal_match ex_args_markdown ex_world_exclude _ _ _
           H1 H2 H3 H4 H5 H6).
Defined.

(** ** X21 *)

Lemma main_stops_on_an_unreadable_exclusion_file_witness :
  stat [tgt; lit "bin"] (disk ex_world_target)
  = inl (File [0x61; 0xFF; 0x62]) /\
  utf8_decode Strict [0x61; 0xFF; 0x62] = None /\
  main literal_match (mkArguments [tgt] [tgt; lit "bin"] false None)
       ex_world_target
  = (inr UnicodeDecodeError, ex_world_target).
Proof.
  assert (H1 : stat [tgt; lit "bin"] (disk ex_world_target)
               = inl (File [0x61; 0xFF; 0x62])) by (vm_compute; reflexivity).
  assert (H2 : utf8_decode Strict [0x61; 0xFF; 0x62] = None)
    by (vm_compute; reflexivity).
  split; [exact H1|]. split; [exact H2|].
  exact (proj2 (main_stops_on_an_unreadable_exclusion_file
                  literal_match
                  (mkArguments [tgt] [tgt; lit "bin"] false None)
                  ex_world_target) _ H1 H2).
Defined.

(** ** X22 *)

Lemma main_round_trip_witness :
  (forall y, stat [exclude_name] (disk ex_world) <> inl y) /\
  directory_to_dict literal_match (disk ex_world) [src] [] = inl ex_tree /\
  no_empty_dirs ex_tree = true /\
  encodable_keys ex_tree = true /\
  stat [tgt] (disk ex_world) = inl (Dir []) /\
  [tgt] <> [src] /\
  (forall es, stat [src; json_name] (disk ex_world) <> inl (Dir es)) /\
  exists w1 w2,
    main literal_match (mkArguments [src] [exclude_name] false None) ex_world
    = (inl [StructureSaved [src; json_name]], w1) /\
    main literal_match
         (mkArguments [tgt] [exclude_name] true (Some [src; json_name])) w1
    = (inl [], w2) /\
    directory_to_dict literal_match (disk w2) [tgt] [] = inl ex_tree.
Proof.
  assert (H1 : forall y, stat [exclude_name] (disk ex_world) <> inl y)
    by (intros y; vm_compute; discriminate).
  assert (H2 : directory_to_dict literal_match (disk ex_world) [src] []
               = inl ex_tree) by (vm_compute; reflexivity).
  assert (H3 : no_empty_dirs ex_tree = true) by (vm_compute; reflexivity).
  assert (H4 : encodable_keys ex_tree = true) by (vm_compute; reflexivity).
  assert (H5 : stat [tgt] (disk ex_world) = inl (Dir []))
    by (vm_compute; reflexivity).
  assert (H6 : [tgt] <> [src]) by (vm_compute; discriminate).
  assert (H7 : forall es,
             stat [src; json_name] (disk ex_world) <> inl (Dir es))
    by (intros es; vm_compute; discriminate).
  split; [exact H1|]. split; [exact H2|]. split; [exact H3|].
  split; [exact H4|]. split; [exact H5|]. split; [exact H6|].
  split; [exact H7|].
  exact (main_round_trip literal_match [src] [tgt] [exclude_name] true
                         ex_world ex_tree H1 H2 H3 H4 H5 H6 H7).
Defined.

(** ** X23 *)

Lemma second_capture_holds_the_first_document_witness :
  unique_names (disk ex_world) = true /\
  args_update ex_args = None /\
  args_markdown ex_args = false /\
  load_exclusions (args_exclude ex_args) ex_world = (inl [], ex_world) /\
  directory_to_dict literal_match (disk ex_world)
                    (args_directory_path ex_args) [] = inl ex_tree /\
  encodable_keys ex_tree = true /\
  (forall es, stat [src; json_name] (disk ex_world) <> inl (Dir es)) /\
  should_exclude literal_match json_name [] = false /\
  exists w' tree',
    main literal_match ex_args ex_world
    = (inl [StructureSaved [src; json_name]], w') /\
    directory_to_dict literal_match (disk w') (args_directory_path ex_args) []
    = inl tree' /\
    doc_get tree' [json_name] = Some (VStr (json_dumps ex_tree)).
Proof.
  assert (H1 : unique_names (disk ex_world) = true)
    by (vm_compute; reflexivity).
  assert (H2 : args_update ex_args = None) by reflexivity.
  assert (H3 : args_markdown ex_args = false) by reflexivity.
  assert (H4 : load_exclusions (args_exclude ex_args) ex_world
               = (inl [], ex_world)) by (vm_compute; reflexivity).
  assert (H5 : directory_to_dict literal_match (disk ex_world)
                                 (args_directory_path ex_args) []
               = inl ex_tree) by (vm_compute; reflexivity).
  assert (H6 : encodable_keys ex_tree = true) by (vm_compute; reflexivity).
  assert (H7 : forall es,
             stat [src; json_name] (disk ex_world) <> inl (Dir es))
    by (intros es; vm_compute; discriminate).
  assert (H8 : should_exclude literal_match json_name [] = false)
    by reflexivity.
  split; [exact H1|]. split; [exact H2|]. split; [exact H3|].
  split; [exact H4|]. split; [exact H5|]. split; [exact H6|].
  split; [exact H7|]. split; [exact H8|].
  exact (second_capture_holds_the_first_document
           literal_match ex_args ex_world [] ex_tree
           H1 H2 H3 H4 H5 H6 H7 H8).
Defined.

(** ** X24 *)

Lemma returning_run_loaded_a_document_witness :
  update_files_from_json_file [tgt] [lit "doc.json"] ex_world_document
  = (inl tt,
     snd (update_files_from_json_file [tgt] [lit "doc.json"]
                                      ex_world_document)) /\
  exists (b : bytes) (text : pystr) (new_structure : value),
    stat [lit "doc.json"] (disk ex_world_document) = inl (File b) /\
    read_text Strict b = Some text /\
    json_loads text = inl new_structure /\
    unique_keys new_structure = true /\
    well_shaped new_structure = true /\
    update_files_from_json [tgt] (Some new_structure) ex_world_document
    = (inl tt,
       snd (update_files_from_json_file [tgt] [lit "doc.json"]
                                        ex_world_document)).
Proof.
  assert (H1 : update_files_from_json_file [tgt] [lit "doc.json"]
                                           ex_world_document
               = (inl tt,
                  snd (update_files_from_json_file [tgt] [lit "doc.json"]
                                                   ex_world_document)))
    by (vm_compute; reflexivity).
  split; [exact H1|].
  exact (returning_run_loaded_a_document
           [tgt] [lit "doc.json"] ex_world_document _ H1).
Defined.
